(** * nl2bash: the command-tree normalizer of [bashlex/normalizer.py]

    A shallow embedding of the normalizer: the mutable [Node] objects live in
    an explicit store and are referred to by their index, Python exceptions
    are an error monad over that store, and the raw parse tree of the shell
    parser is an inductive type with optional attributes. *)

From Stdlib Require Import ZArith List String Ascii Bool Lia.
From stdpp Require Import base list sets.
Import ListNotations.

Set Warnings "-register-all".

Local Open Scope string_scope.

(** ** Strings, the way Python uses them here *)

Module Str.

Definition is_lower (c : ascii) : bool :=
  let n := nat_of_ascii c in (97 <=? n)%nat && (n <=? 122)%nat.

Definition is_upper (c : ascii) : bool :=
  let n := nat_of_ascii c in (65 <=? n)%nat && (n <=? 90)%nat.

Definition upper_char (c : ascii) : ascii :=
  if is_lower c then ascii_of_nat (nat_of_ascii c - 32) else c.

Definition lower_char (c : ascii) : ascii :=
  if is_upper c then ascii_of_nat (nat_of_ascii c + 32) else c.

(** [s.upper()] and [s.lower()] on a byte string. *)
Fixpoint upper (s : string) : string :=
  match s with
  | EmptyString => EmptyString
  | String c r => String (upper_char c) (upper r)
  end.

Fixpoint lower (s : string) : string :=
  match s with
  | EmptyString => EmptyString
  | String c r => String (lower_char c) (lower r)
  end.

(** [c in s] for a one-character [c]. *)
Fixpoint contains_char (c : ascii) (s : string) : bool :=
  match s with
  | EmptyString => false
  | String d r => Ascii.eqb c d || contains_char c r
  end.

(** [s.split(c, 1)]: the text before the first [c] and, when there is
    one, the text after it. *)
Fixpoint split1 (c : ascii) (s : string) : string * option string :=
  match s with
  | EmptyString => (EmptyString, None)
  | String d r =>
      if Ascii.eqb c d then (EmptyString, Some r)
      else let '(a, b) := split1 c r in (String d a, b)
  end.

Fixpoint drop (n : nat) (s : string) : string :=
  match n, s with
  | O, _ => s
  | S n', EmptyString => EmptyString
  | S n', String _ r => drop n' r
  end.

Fixpoint take (n : nat) (s : string) : string :=
  match n, s with
  | O, _ => EmptyString
  | S n', EmptyString => EmptyString
  | S n', String c r => String c (take n' r)
  end.

Definition len (s : string) : Z := Z.of_nat (String.length s).

(** A slice bound as Python normalises it: a negative index counts from
    the end, and the result is clamped to [0, len]. *)
Definition clamp (n i : Z) : Z :=
  let j := if (i <? 0)%Z then (i + n)%Z else i in
  Z.max 0 (Z.min n j).

(** [s[a:b]] *)
Definition slice (s : string) (a b : Z) : string :=
  let n := len s in
  let lo := clamp n a in
  let hi := clamp n b in
  take (Z.to_nat (hi - lo)) (drop (Z.to_nat lo) s).

(** [string.whitespace] *)
Definition is_space (c : ascii) : bool :=
  let n := nat_of_ascii c in
  (n =? 32)%nat || ((9 <=? n)%nat && (n <=? 13)%nat).

Fixpoint lstrip (s : string) : string :=
  match s with
  | EmptyString => EmptyString
  | String c r => if is_space c then lstrip r else s
  end.

Fixpoint rstrip (s : string) : string :=
  match s with
  | EmptyString => EmptyString
  | String c r =>
      match rstrip r with
      | EmptyString => if is_space c then EmptyString else String c EmptyString
      | r' => String c r'
      end
  end.

(** [s.strip()] *)
Definition strip (s : string) : string := rstrip (lstrip s).

(** [s.replace(c, d)] for one-character [c] and [d]. *)
Fixpoint replace_char (c d : ascii) (s : string) : string :=
  match s with
  | EmptyString => EmptyString
  | String x r =>
      String (if Ascii.eqb x c then d else x) (replace_char c d r)
  end.

(** [s.startswith(p)] *)
Definition startswith (p s : string) : bool := String.prefix p s.

(** [s.replace(old, new)] for a non-empty [old]: the occurrences of [old]
    are found from the left and do not overlap; [skip] counts the
    characters of the last occurrence still to pass. *)
Fixpoint replace_from (old new : string) (skip : nat) (s : string) : string :=
  match s with
  | EmptyString => EmptyString
  | String c r =>
      match skip with
      | S k => replace_from old new k r
      | O =>
          if String.prefix old s
          then new ++ replace_from old new (String.length old - 1) r
          else String c (replace_from old new 0 r)
      end
  end.

Definition replace (old new s : string) : string :=
  replace_from old new 0 s.

(** [\w] of module [re] on a byte string. *)
Definition is_word_char (c : ascii) : bool :=
  let n := nat_of_ascii c in
  is_lower c || is_upper c || ((48 <=? n)%nat && (n <=? 57)%nat)
  || (n =? 95)%nat.

End Str.

(** ** Exceptions and the raw parse tree *)

(** The exception classes that occur; [OtherError] stands for any class the
    external parser may raise besides the named ones. *)
Inductive exn : Type :=
  | ValueError (reason : string)
  | AttributeError
  | IndexError
  | TypeError
  | NotImplementedError
  | MatchedPairError
  | ParsingError
  | SystemExit
  | OtherError (name : string).

(** A [bast.node]: a [kind] and whatever attributes the parser gave it.
    An attribute that is absent is [None]; reading it raises
    [AttributeError], and [hasattr] tests it. *)
Inductive rnode : Type :=
  RNode (rkind : string)
        (rword : option string)
        (rparts : option (list rnode))
        (rpos : option (Z * Z))
        (rcommand : option rnode).

Definition rkind (n : rnode) : string := let 'RNode k _ _ _ _ := n in k.
Definition rword (n : rnode) : option string := let 'RNode _ w _ _ _ := n in w.
Definition rparts (n : rnode) : option (list rnode) := let 'RNode _ _ p _ _ := n in p.
Definition rpos (n : rnode) : option (Z * Z) := let 'RNode _ _ _ p _ := n in p.
Definition rcommand (n : rnode) : option rnode := let 'RNode _ _ _ _ c := n in c.

(** ** The store of [Node] objects *)

(** A reference to a [Node] is its index in the store; a Python variable
    that may hold [None] is an [option nat]. *)
Abbreviation ref := (option nat).

Record Node : Type := mkNode {
  parent : ref;
  lsb : ref;
  rsb : ref;
  kind : string;
  value : string;
  children : list nat
}.

Definition set_parent (p : ref) (n : Node) : Node :=
  mkNode p (lsb n) (rsb n) (kind n) (value n) (children n).
Definition set_lsb (l : ref) (n : Node) : Node :=
  mkNode (parent n) l (rsb n) (kind n) (value n) (children n).
Definition set_rsb (r : ref) (n : Node) : Node :=
  mkNode (parent n) (lsb n) r (kind n) (value n) (children n).
Definition set_children (c : list nat) (n : Node) : Node :=
  mkNode (parent n) (lsb n) (rsb n) (kind n) (value n) c.

(** What [print] wrote: a text, an object, or a raw node. *)
Inductive msg : Type :=
  | Text (s : string)
  | Obj (o : ref)
  | Raw (n : rnode).

Record world : Type := mkWorld {
  nodes : list Node;
  out : list msg
}.

Definition empty_world : world := mkWorld [] [].

(** ** The monad: a store, and an exception or a value *)

Inductive outcome (A : Type) : Type :=
  | Ret (a : A)
  | Exc (e : exn).
Arguments Ret {A} a.
Arguments Exc {A} e.

Definition M (A : Type) : Type := world -> outcome A * world.

Definition ret {A} (a : A) : M A := fun w => (Ret a, w).
Definition raise {A} (e : exn) : M A := fun w => (Exc e, w).
Definition bind {A B} (m : M A) (k : A -> M B) : M B :=
  fun w => match m w with
           | (Ret a, w') => k a w'
           | (Exc e, w') => (Exc e, w')
           end.

Notation "x <- m ;; k" := (bind m (fun x => k))
  (at level 100, m at next level, right associativity).
Notation "m ;;; k" := (bind m (fun _ => k))
  (at level 100, right associativity).

Definition print (m : msg) : M unit :=
  fun w => (Ret tt, mkWorld (nodes w) (out w ++ [m])).

(** [for x in l: f(x)] *)
Definition forM_ {A} (f : A -> M unit) : list A -> M unit :=
  fix go (l : list A) : M unit :=
    match l with
    | [] => ret tt
    | x :: xs => f x ;;; go xs
    end.

(** A loop that carries local variables [S] from one round to the next. *)
Definition foldM {A S} (f : S -> A -> M S) : list A -> S -> M S :=
  fix go (l : list A) (s : S) : M S :=
    match l with
    | [] => ret s
    | x :: xs => s' <- f s x ;; go xs s'
    end.

(** ** [class Node] *)

(** Reading through a reference: [None] has no attributes. *)
Definition deref (r : ref) : M Node :=
  fun w => match r with
           | Some i => match nodes w !! i with
                       | Some n => (Ret n, w)
                       | None => (Exc AttributeError, w)
                       end
           | None => (Exc AttributeError, w)
           end.

Definition get {A} (f : Node -> A) (r : ref) : M A :=
  n <- deref r ;; ret (f n).

(** Writing a field of the object at [i]. *)
Definition modify (i : nat) (f : Node -> Node) : M unit :=
  fun w => (Ret tt, mkWorld (alter f i (nodes w)) (out w)).

Definition update (r : ref) (f : Node -> Node) : M unit :=
  match r with
  | Some i => modify i f
  | None => raise AttributeError
  end.

(** [Node(parent=None, lsb=None, kind, value)]: a fresh object. *)
Definition new_node (k v : string) : M nat :=
  fun w => (Ret (length (nodes w)),
            mkWorld (nodes w ++ [mkNode None None None k v []]) (out w)).

Definition addChild (p : ref) (c : nat) : M unit :=
  update p (fun n => set_children (children n ++ [c]) n).

Definition getNumChildren (p : ref) : M nat :=
  get (fun n => length (children n)) p.

Definition getRightChild (p : ref) : M ref :=
  get (fun n => last (children n)) p.

(** [list.remove(x)]: the first occurrence goes; [None] when there is none. *)
Fixpoint remove_first (x : nat) (l : list nat) : option (list nat) :=
  match l with
  | [] => None
  | y :: r =>
      if Nat.eqb x y then Some r
      else match remove_first x r with
           | Some r' => Some (y :: r')
           | None => None
           end
  end.

Definition removeChild (p : ref) (c : nat) : M unit :=
  n <- deref p ;;
  match remove_first c (children n) with
  | Some l => update p (set_children l)
  | None => raise (ValueError "list.remove(x): x not in list")
  end.

Definition symbol_of (k v : string) : string := Str.upper k ++ "_" ++ v.
Definition symbol (n : Node) : string := symbol_of (kind n) (value n).

Definition attach_to_tree (node : nat) (parent : ref) : M unit :=
  modify node (set_parent parent) ;;;
  l <- getRightChild parent ;;
  modify node (set_lsb l) ;;;
  addChild parent node ;;;
  match l with
  | Some li => modify li (set_rsb (Some node))
  | None => ret tt
  end.

Definition make_sibling (l r : ref) : M unit :=
  match l with
  | Some li => modify li (set_rsb r)
  | None => ret tt
  end ;;;
  match r with
  | Some ri => modify ri (set_lsb l)
  | None => ret tt
  end.

(** ** The normalizer *)

Definition unary_logic_operators : list string := ["!"; "-not"].

Definition binary_logic_operators : list string :=
  ["-and"; "-or"; "||"; "&&"; "-o"; "-a"].

(** [w in s] for a set of strings. *)
Definition mem (w : string) (s : list string) : bool :=
  existsb (String.eqb w) s.

(** Reading an attribute of a raw node. *)
Definition attr {A} (o : option A) : M A :=
  match o with
  | Some a => ret a
  | None => raise AttributeError
  end.

(** [parent and parent.kind == "headcommand" and parent.value == "find"] *)
Definition under_find (parent : ref) : M bool :=
  match parent with
  | None => ret false
  | Some _ =>
      k <- get kind parent ;;
      if k =? "headcommand" then
        v <- get value parent ;; ret (v =? "find")
      else ret false
  end.

Definition is_unary_logic_op (word : string) (parent : ref) : M bool :=
  if word =? "!" then under_find parent
  else ret (mem word unary_logic_operators).

(** [is_binary_logic_op] may rewrite [node.word]; the word it leaves in the
    node is returned with the answer. *)
Definition is_binary_logic_op (word : string) (parent : ref)
  : M (bool * string) :=
  if word =? "-o" then
    b <- under_find parent ;;
    ret (if b then (true, "-or") else (false, word))
  else if word =? "-a" then
    b <- under_find parent ;;
    ret (if b then (true, "-and") else (false, word))
  else ret (mem word binary_logic_operators, word).

(** The local variables of [normalize_command]'s walk. *)
Record cstate : Type := mkC {
  attach_point : ref;
  END_OF_OPTIONS : bool;
  END_OF_COMMAND : bool;
  unary_logic_ops : list nat;
  binary_logic_ops : list nat
}.

Definition set_attach_point (a : ref) (s : cstate) : cstate :=
  mkC a (END_OF_OPTIONS s) (END_OF_COMMAND s)
      (unary_logic_ops s) (binary_logic_ops s).

Section Normalizer.

(** The command catalogue of module [bash], which is not part of the
    normalizer: [bash.is_headcommand], [bash.is_option], and
    [re.sub(bash._DIGIT_RE, bash._NUM, w)] as one function of [w]. *)
Variable is_headcommand : string -> bool.
Variable is_option : string -> bool.
Variable digit_fold : string -> string.

(** [Node.is_flag] *)
Definition is_flag (r : ref) : M bool :=
  get (fun n => is_option (value n)) r.

Section WithCommand.

(** The variables of [normalize_ast] its local functions close over:
    the command text after the pre-pass, and [normalize_digits]. *)
Variable cmd : string.
Variable normalize_digits : bool.

Definition find_flag_attach_point (attach_point : ref) : M ref :=
  k <- get kind attach_point ;;
  if k =? "flag" then get parent attach_point
  else if k =? "headcommand" then ret attach_point
  else raise (ValueError "Error: cannot decide where to attach flag node").

Definition with_quotation (node : rnode) : M bool :=
  p <- attr (rpos node) ;;
  w <- attr (rword node) ;;
  ret (snd p - fst p - Str.len w =? 2)%Z.

Definition recover_quotation (node : rnode) : M string :=
  q <- with_quotation node ;;
  if q then
    p <- attr (rpos node) ;;
    ret (Str.slice cmd (fst p) (snd p))
  else attr (rword node).

Definition normalize_word (node : rnode) (norm_digit recover_quote : bool)
  : M string :=
  w <- (if recover_quote then recover_quotation node
        else attr (rword node)) ;;
  ret (if norm_digit && negb (is_option w) then digit_fold w else w).

(** [ArgumentNode(kind=arg_type, value=normalize_word(...))] attached
    under [current].  The third argument of [normalize_word] is the name
    [recover_quotation], which at that point of [normalize_ast] is the
    local function of that name and not the parameter it shadows: it is
    always true. *)
Definition emit_leaf (node : rnode) (current : ref) (arg_type : string)
  : M unit :=
  value <- normalize_word node normalize_digits true ;;
  norm_node <- new_node arg_type value ;;
  attach_to_tree norm_node current.

(** *** The walk of [normalize_command] *)

Definition attach_option (norm : ref -> string -> M unit)
  (attach_point : ref) : M ref :=
  ap <- find_flag_attach_point attach_point ;;
  norm ap "flag" ;;;
  getRightChild ap.

(** The [if END_OF_COMMAND:] block at the head of the loop body. *)
Definition end_of_command_ascent (st : cstate) : M cstate :=
  if END_OF_COMMAND st then
    p <- get parent (attach_point st) ;;
    k <- get kind p ;;
    ap <- (if k =? "flag" then get parent p
           else if k =? "headcommand" then ret p
           else raise (ValueError "Error: compound command detected.")) ;;
    ret (mkC ap (END_OF_OPTIONS st) false
             (unary_logic_ops st) (binary_logic_ops st))
  else ret st.

(** The rest of the loop body: one token [child] of the command [node];
    [norm] is [normalize(child, ., .)]. *)
Definition command_token (node : rnode)
  (norm : ref -> string -> M unit) (child : rnode) (st : cstate)
  : M cstate :=
  if rkind child =? "word" then
    w <- attr (rword child) ;;
    if w =? "--" then
      ret (mkC (attach_point st) true (END_OF_COMMAND st)
               (unary_logic_ops st) (binary_logic_ops st))
    else if w =? ";" then
      ret (mkC (attach_point st) (END_OF_OPTIONS st) true
               (unary_logic_ops st) (binary_logic_ops st))
    else if mem w unary_logic_operators then
      ap <- find_flag_attach_point (attach_point st) ;;
      b <- is_unary_logic_op w ap ;;
      if b then
        norm_node <- new_node "unarylogicop" w ;;
        attach_to_tree norm_node ap ;;;
        ret (mkC ap (END_OF_OPTIONS st) (END_OF_COMMAND st)
                 (unary_logic_ops st ++ [norm_node])
                 (binary_logic_ops st))
      else
        ap' <- attach_option norm ap ;;
        ret (set_attach_point ap' st)
    else if mem w binary_logic_operators then
      ap <- find_flag_attach_point (attach_point st) ;;
      bw <- is_binary_logic_op w ap ;;
      if fst bw then
        norm_node <- new_node "binarylogicop" (snd bw) ;;
        attach_to_tree norm_node ap ;;;
        ret (mkC ap (END_OF_OPTIONS st) (END_OF_COMMAND st)
                 (unary_logic_ops st)
                 (binary_logic_ops st ++ [norm_node]))
      else
        ap' <- attach_option norm ap ;;
        ret (set_attach_point ap' st)
    else if is_headcommand w then
      q <- with_quotation child ;;
      if negb q then
        norm (attach_point st) "headcommand" ;;;
        ap <- getRightChild (attach_point st) ;;
        ret (set_attach_point ap st)
      else ret st
    else if is_option w && negb (END_OF_OPTIONS st) then
      ap <- attach_option norm (attach_point st) ;;
      ret (set_attach_point ap st)
    else
      f <- is_flag (attach_point st) ;;
      up <- (if f then
               n <- getNumChildren (attach_point st) ;;
               ret (1 <=? n)%nat
             else ret false) ;;
      ap <- (if up then get parent (attach_point st)
             else ret (attach_point st)) ;;
      norm ap "argument" ;;;
      ret (set_attach_point ap st)
  else if rkind child =? "assignment" then
    norm (attach_point st) "assignment" ;;;
    ret st
  else
    print (Text "Error: unknown type of child of CommandNode") ;;;
    print (Raw node) ;;;
    raise SystemExit.

Definition command_step (node : rnode)
  (norm : ref -> string -> M unit) (child : rnode) (st : cstate)
  : M cstate :=
  st' <- end_of_command_ascent st ;;
  command_token node norm child st'.

(** *** The second pass of [normalize_command] *)

(** One round of [for node in unary_logic_ops], with a right sibling. *)
Definition fold_unary_op (node r : nat) : M unit :=
  rr <- get rsb (Some r) ;;
  make_sibling (Some node) rr ;;;
  p <- get parent (Some node) ;;
  removeChild p r ;;;
  modify r (set_parent (Some node)) ;;;
  modify r (set_lsb None) ;;;
  modify r (set_rsb None) ;;;
  addChild (Some node) r.

(** The loop over the unary operators; the answer is [true] when the
    loop left [normalize_command] through its [return]. *)
Fixpoint fold_unary (ops : list nat) : M bool :=
  match ops with
  | [] => ret false
  | node :: rest =>
      r <- get rsb (Some node) ;;
      match r with
      | None =>
          print (Text "Warning: unary logic operator without a right sibling.") ;;;
          p <- get parent (Some node) ;;
          print (Obj p) ;;;
          ret true
      | Some ri =>
          fold_unary_op node ri ;;;
          fold_unary rest
      end
  end.

(** One round of [for node in binary_logic_ops], with both siblings. *)
Definition fold_binary_op (node l r : nat) : M unit :=
  rr <- get rsb (Some r) ;;
  make_sibling (Some node) rr ;;;
  ll <- get lsb (Some l) ;;
  make_sibling ll (Some node) ;;;
  p <- get parent (Some node) ;;
  removeChild p r ;;;
  p' <- get parent (Some node) ;;
  removeChild p' l ;;;
  modify r (set_parent (Some node)) ;;;
  modify l (set_parent (Some node)) ;;;
  make_sibling (Some l) (Some r) ;;;
  modify r (set_rsb None) ;;;
  modify l (set_lsb None) ;;;
  addChild (Some node) l ;;;
  addChild (Some node) r.

Fixpoint fold_binary (ops : list nat) : M unit :=
  match ops with
  | [] => ret tt
  | node :: rest =>
      r <- get rsb (Some node) ;;
      l <- get lsb (Some node) ;;
      match r, l with
      | Some ri, Some li =>
          fold_binary_op node li ri ;;;
          fold_binary rest
      | _, _ =>
          print (Text "Error: binary logic operator must have both left and right siblings.") ;;;
          p <- get parent (Some node) ;;
          print (Obj p) ;;;
          raise SystemExit
      end
  end.

Definition fold_logic_ops (st : cstate) : M unit :=
  returned <- fold_unary (unary_logic_ops st) ;;
  if returned then ret tt
  else fold_binary (binary_logic_ops st).

Definition init_cstate (current : ref) : cstate :=
  mkC current false false [] [].

Definition unsupported (k : string) : exn :=
  ValueError ("Unsupported: " ++ k).

(** *** [normalize] and, inlined at its one call, [normalize_command] *)

Fixpoint normalize (node : rnode) (current : ref) (arg_type : string)
  {struct node} : M unit :=
  match node with
  | RNode k word parts pos command =>
      if k =? "word" then
        match parts with
        | None => raise AttributeError
        | Some [] => emit_leaf node current arg_type
        | Some ((p0 :: _) as ps) =>
            if rkind p0 =? "processsubstitution" then
              w <- attr word ;;
              if Str.contains_char ">" w then
                norm_node <- new_node "processsubstitution" ">" ;;
                attach_to_tree norm_node current ;;;
                forM_ (fun child => normalize child (Some norm_node) "") ps
              else if Str.contains_char "<" w then
                norm_node <- new_node "processsubstitution" "<" ;;
                attach_to_tree norm_node current ;;;
                forM_ (fun child => normalize child (Some norm_node) "") ps
              else ret tt
            else if rkind p0 =? "commandsubstitution" then
              norm_node <- new_node "commandsubstitution" "" ;;
              attach_to_tree norm_node current ;;;
              forM_ (fun child => normalize child (Some norm_node) "") ps
            else if (rkind p0 =? "parameter") || (rkind p0 =? "tilde") then
              emit_leaf node current arg_type
            else
              forM_ (fun child => normalize child current "") ps
        end
      else if k =? "pipeline" then
        norm_node <- new_node "pipeline" "" ;;
        attach_to_tree norm_node current ;;;
        match parts with
        | None => raise AttributeError
        | Some ps =>
            if Nat.even (length ps) then
              print (Text "Error: pipeline node must have odd number of parts") ;;;
              print (Raw node) ;;;
              raise SystemExit
            else
              forM_ (fun child =>
                       if rkind child =? "command" then
                         normalize child (Some norm_node) ""
                       else if rkind child =? "pipe" then ret tt
                       else raise (ValueError
                         "Error: unrecognized type of child of pipeline node"))
                    ps
        end
      else if k =? "list" then
        match parts with
        | None => raise AttributeError
        | Some ps =>
            if (2 <? length ps)%nat then raise TypeError
            else match ps with
                 | [] => raise IndexError
                 | p0 :: _ => normalize p0 current ""
                 end
        end
      else if (k =? "commandsubstitution") || (k =? "processsubstitution") then
        match command with
        | None => raise AttributeError
        | Some c => normalize c current ""
        end
      else if k =? "command" then
        match parts with
        | None => raise AttributeError
        | Some ps =>
            st <- foldM (fun st child =>
                           command_step node (normalize child) child st)
                        ps (init_cstate current) ;;
            fold_logic_ops st
        end
      else
        match parts with
        | Some ps => forM_ (fun child => normalize child current "") ps
        | None =>
            if k =? "operator" then raise (unsupported k)
            else if k =? "parameter" then
              raise (ValueError "Unsupported: parameters")
            else if k =? "redirect" then raise (unsupported k)
            else if k =? "for" then raise (unsupported k)
            else if k =? "if" then raise (unsupported k)
            else if k =? "while" then raise (unsupported k)
            else if k =? "until" then raise (unsupported k)
            else if k =? "assignment" then raise (unsupported k)
            else if k =? "function" then raise (unsupported k)
            else if k =? "tilde" then raise (unsupported k)
            else if k =? "heredoc" then raise (unsupported k)
            else ret tt
        end
  end.

End WithCommand.

End Normalizer.

(** ** The text pre-pass *)

(** [re.findall(' tar \w', s)]: the matches from the left, not
    overlapping. *)
Fixpoint findall_tar_fix (skip : nat) (s : string) : list string :=
  match s with
  | EmptyString => []
  | String c r =>
      match skip with
      | S k => findall_tar_fix k r
      | O =>
          if String.prefix " tar " s then
            match Str.drop 5 s with
            | String x _ =>
                if Str.is_word_char x
                then Str.take 6 s :: findall_tar_fix 5 r
                else findall_tar_fix 0 r
            | EmptyString => findall_tar_fix 0 r
            end
          else findall_tar_fix 0 r
      end
  end.

Definition special_command_normalization (cmd : string) : string :=
  if Str.startswith "tar" cmd then
    let cmd1 := " " ++ cmd in
    let cmd2 :=
      fold_left (fun c w => Str.replace w (Str.replace "tar " "tar -" w) c)
                (findall_tar_fix 0 cmd1) cmd1 in
    Str.strip cmd2
  else cmd.

(** ** The serializer *)

(** The objects below a node, read as a tree: [to_list] only reads
    [kind], [value] and [children]. *)
Inductive tree : Type :=
  T (tkind tvalue : string) (tchildren : list tree).

Definition tkind (t : tree) : string := let 'T k _ _ := t in k.
Definition tvalue (t : tree) : string := let 'T _ v _ := t in v.
Definition tchildren (t : tree) : list tree := let 'T _ _ c := t in c.

(** The tree at object [i] of a store, to depth [fuel]. *)
Fixpoint view (fuel : nat) (h : list Node) (i : nat) : option tree :=
  match fuel with
  | O => None
  | S f =>
      match h !! i with
      | None => None
      | Some n =>
          match mapM (view f h) (children n) with
          | Some cs => Some (T (kind n) (value n) cs)
          | None => None
          end
      end
  end.

Definition NO_EXPAND : string := "<NO_EXPAND>".

(** [to_list(node, order, list)]: the list [acc] passed as [list] is
    appended to, and returned. *)
Fixpoint to_list (node : tree) (order : string) (acc : list string)
  {struct node} : list string :=
  if order =? "dfs" then
    match node with
    | T k v cs =>
        (fold_left (fun acc' child => to_list child order acc') cs
                   (acc ++ [symbol_of k v])
         ++ [NO_EXPAND])%list
    end
  else acc.

Fixpoint list_to_tree_loop (l : list string) (current : ref) : M unit :=
  match l with
  | [] => ret tt
  | symbol :: rest =>
      match current with
      | None => ret tt
      | Some _ =>
          if symbol =? NO_EXPAND then
            p <- get parent current ;;
            list_to_tree_loop rest p
          else
            match Str.split1 "_" symbol with
            | (k, Some v) =>
                node <- new_node (Str.lower k) v ;;
                attach_to_tree node current ;;;
                list_to_tree_loop rest (Some node)
            | (_, None) => raise (ValueError "need more than 1 value to unpack")
            end
      end
  end.

(** [list_to_tree(list, order)]; the loop starts at index 1. *)
Definition list_to_tree (symbols : list string) (order : string) : M nat :=
  root <- new_node "root" "root" ;;
  (if order =? "dfs" then list_to_tree_loop (tl symbols) (Some root)
   else raise NotImplementedError) ;;;
  ret root.

(** ** From a tree back to a command *)

(** A failed [assert]. *)
Definition AssertionError : exn := OtherError "AssertionError".

(** [l[i]] on the answers of the calls on the children. *)
Definition item {A} (l : list (outcome A)) (i : nat) : outcome A :=
  match l !! i with
  | Some r => r
  | None => Exc IndexError
  end.

(** [for child in ...: cmd += to_command(child, lc) + sep], over the
    answers of the calls in the order they are made: the first exception
    ends the loop. *)
Fixpoint join_each (sep : string) (rs : list (outcome string)) (cmd : string)
  : outcome string :=
  match rs with
  | [] => Ret cmd
  | Ret s :: rs' => join_each sep rs' (cmd ++ s ++ sep)
  | Exc e :: _ => Exc e
  end.

(** What follows a call: [cmd = f(to_command(...))]. *)
Definition and_then {A B} (r : outcome A) (k : A -> outcome B) : outcome B :=
  match r with
  | Ret a => k a
  | Exc e => Exc e
  end.

(** The interpreter's stack.  [frames] is the number of frames the
    interpreter can still open when a Python function is called: the
    recursion limit less the depth of the caller.  A call with no frame
    left raises [RuntimeError] (maximum recursion depth exceeded) before
    the body of the function runs. *)
Definition RuntimeError : exn := OtherError "RuntimeError".

Definition enter (frames : nat) : outcome unit :=
  match frames with
  | O => Exc RuntimeError
  | S _ => Ret tt
  end.

(** [lc or test] and [lc and test]: [test] is evaluated only when the
    answer depends on it. *)
Definition or_else (lc : bool) (test : outcome bool) : outcome bool :=
  if lc then Ret true else test.

Definition and_also (lc : bool) (test : outcome bool) : outcome bool :=
  if lc then test else Ret false.

(** [assert(c)] before [k], and [if c: a else: b]. *)
Definition assert_ {A} (c : outcome bool) (k : outcome A) : outcome A :=
  and_then c (fun ok => if ok then k else Exc AssertionError).

Definition branch {A} (c : outcome bool) (a b : outcome A) : outcome A :=
  and_then c (fun yes => if yes then a else b).

(** [to_command(node, loose_constraints)], on the tree below [node], with
    [frames] frames left when it is called.  [arity ok] is the test [ok]
    on [node.getNumChildren()], a method call, which needs a frame of its
    own; [rs] holds the answer of the call on each child, read where the
    code makes that call. *)
Fixpoint to_command (frames : nat) (node : tree) (lc : bool) {struct node}
  : outcome string :=
  match frames with
  | O => Exc RuntimeError
  | S f =>
  match node with
  | T kind value children =>
      let arity (ok : nat -> bool) : outcome bool :=
        and_then (enter f) (fun _ => Ret (ok (length children))) in
      let rs := map (fun child => to_command f child lc) children in
      if kind =? "root" then
        assert_ (or_else lc (arity (fun n => n =? 1)%nat))
          (if lc then join_each " " rs "" else item rs 0)
      else if kind =? "pipeline" then
        assert_ (or_else lc (arity (fun n => 1 <? n)%nat))
          (branch (and_also lc (arity (fun n => n <? 1)%nat)) (Ret "|")
          (branch (and_also lc (arity (fun n => n =? 1)%nat)) (item rs 0)
             (and_then (join_each " | " (removelast rs) "") (fun cmd =>
              and_then (item rs (length children - 1)) (fun s =>
              Ret (cmd ++ s))))))
      else if kind =? "commandsubstitution" then
        assert_ (or_else lc (arity (fun n => n =? 1)%nat))
          (branch (and_also lc (arity (fun n => n <? 1)%nat))
             (Ret ("$(" ++ ")"))
             (and_then (item rs 0) (fun s => Ret ("$(" ++ s ++ ")"))))
      else if kind =? "processsubstitution" then
        assert_ (or_else lc (arity (fun n => n =? 1)%nat))
          (branch (and_also lc (arity (fun n => n <? 1)%nat))
             (Ret (value ++ "()"))
             (and_then (item rs 0) (fun s => Ret (value ++ "(" ++ s ++ ")"))))
      else if kind =? "headcommand" then
        and_then (join_each " " rs (value ++ " ")) (fun cmd =>
        Ret (Str.strip cmd))
      else if kind =? "flag" then
        and_then (join_each " " rs (value ++ " ")) (fun cmd =>
        Ret (Str.strip cmd))
      else if kind =? "binarylogicop" then
        assert_ (or_else lc (arity (fun n => n =? 2)%nat))
          (branch (and_also lc (arity (fun n => n <? 2)%nat))
             (join_each " " rs "")
             (and_then (item rs 0) (fun s0 =>
              and_then (item rs 1) (fun s1 =>
              Ret (Str.strip (((s0 ++ " ") ++ value ++ " ") ++ s1 ++ " "))))))
      else if kind =? "unarylogicop" then
        assert_ (or_else lc (arity (fun n => n =? 1)%nat))
          (branch (and_also lc (arity (fun n => n <? 1)%nat))
             (Ret value)
             (and_then (item rs 0) (fun s0 =>
              Ret (Str.strip ((value ++ " ") ++ s0 ++ " ")))))
      else if kind =? "argument" then
        assert_ (or_else lc (arity (fun n => n =? 0)%nat))
          (if lc then
             and_then (join_each " " rs (value ++ " ")) (fun cmd =>
             Ret (Str.strip cmd))
           else Ret value)
      else Ret ""
  end
  end.

(** [pretty_print(node, depth)], on the tree below [node], with [frames]
    frames left when it is called. *)
Fixpoint indent (depth : nat) : string :=
  match depth with
  | O => ""
  | S d => "    " ++ indent d
  end.

Fixpoint pretty_print (frames : nat) (node : tree) (depth : Z) {struct node}
  : M unit :=
  match frames with
  | O => raise RuntimeError
  | S f =>
  match node with
  | T kind value children =>
      print (Text (indent (Z.to_nat depth)
                   ++ Str.upper kind ++ "(" ++ value ++ ")")) ;;;
      forM_ (fun child => pretty_print f child (depth + 1)%Z) children
  end
  end.

(** ** The orchestrator *)

Section Orchestrator.

Variable is_headcommand : string -> bool.
Variable is_option : string -> bool.
Variable digit_fold : string -> string.

(** [bparser.parse]: the list of root nodes, or the exception raised. *)
Variable parse : string -> exn + list rnode.

Definition cannot_parse (cmd what : string) : M (option nat) :=
  print (Text ("Cannot parse: " ++ cmd ++ " - " ++ what)) ;;; ret None.

(** The parameter [recover_quotation] is never read: the local function
    of the same name replaces it before any use. *)
Definition normalize_ast (cmd : string)
  (normalize_digits recover_quotation : bool) : M (option nat) :=
  let cmd := Str.strip (Str.replace_char "010" " " cmd) in
  let cmd := special_command_normalization cmd in
  if cmd =? "" then ret None
  else
    match parse cmd with
    | inl MatchedPairError => cannot_parse cmd "MatchedPairError"
    | inl ParsingError => cannot_parse cmd "ParsingError"
    | inl NotImplementedError => cannot_parse cmd "NotImplementedError"
    | inl IndexError => cannot_parse cmd "IndexError"
    | inl AttributeError => cannot_parse cmd "AttributeError"
    | inl e => raise e
    | inr tree =>
        (if (1 <? length tree)%nat then
           print (Text ("Doesn't support command with multiple root nodes: "
                        ++ cmd))
         else ret tt) ;;;
        normalized_tree <- new_node "root" "" ;;
        match tree with
        | [] => raise IndexError
        | t0 :: _ =>
            fun w =>
              match normalize is_headcommand is_option digit_fold
                      cmd normalize_digits t0 (Some normalized_tree) "" w with
              | (Exc (ValueError reason), w') =>
                  (print (Text (reason ++ " - " ++ cmd)) ;;; ret None) w'
              | (Exc e, w') => (Exc e, w')
              | (Ret _, w') => (Ret (Some normalized_tree), w')
              end
        end
    end.

End Orchestrator.

(** ** A small catalogue and raw trees, for running the normalizer *)

Module Sample.

Definition is_headcommand (w : string) : bool :=
  mem w ["find"; "grep"; "echo"; "tar"].

Definition is_option (w : string) : bool := String.prefix "-" w.

Definition is_digit (c : ascii) : bool :=
  let n := nat_of_ascii c in (48 <=? n)%nat && (n <=? 57)%nat.

(** Modelled from the spec: the digit folding of the catalogue module,
    whose pattern [bash._DIGIT_RE] and placeholder [bash._NUM] are not in
    the normalizer: every maximal run of digits is replaced by the one
    placeholder [_NUM]. *)
Fixpoint fold_digits (in_run : bool) (s : string) : string :=
  match s with
  | EmptyString => EmptyString
  | String c r =>
      if is_digit c then
        if in_run then fold_digits true r
        else "_NUM" ++ fold_digits true r
      else String c (fold_digits false r)
  end.

Definition digit_fold (s : string) : string := fold_digits false s.

(** A word token with no compound parts, at the span [a, b). *)
Definition word (w : string) (a b : Z) : rnode :=
  RNode "word" (Some w) (Some []) (Some (a, b)) None.

Definition command (parts : list rnode) : rnode :=
  RNode "command" None (Some parts) None None.

Definition operator : rnode := RNode "operator" None None None None.

(** The parser answering with the given roots, whatever the text. *)
Definition parses_to (roots : list rnode) : string -> exn + list rnode :=
  fun _ => inr roots.

Definition run (roots : list rnode) (cmd : string) : outcome ref * world :=
  normalize_ast is_headcommand is_option digit_fold (parses_to roots)
                cmd true true empty_world.

Definition find_or : list rnode :=
  [word "find" 0 4; word "." 5 6; word "-name" 7 12; word "a" 13 14;
   word "-or" 15 18; word "-name" 19 24; word "b" 25 26].

(** The store when the walk over [find_or] ends, before the second
    pass. *)
Definition find_or_walked : world :=
  Eval vm_compute in
    snd (foldM (fun st child =>
                  command_step is_headcommand is_option (command find_or)
                    (normalize is_headcommand is_option digit_fold
                               "find . -name a -or -name b" true child)
                    child st)
               find_or (init_cstate (Some 0))
               (mkWorld [mkNode None None None "root" "" []] [])).

Definition dangling_not : list rnode :=
  [word "find" 0 4; word "." 5 6; word "-name" 7 12; word "a" 13 14;
   word "-or" 15 18; word "-name" 19 24; word "b" 25 26;
   word "-not" 27 31].

(** Two unary operators in a row, and the store when the walk over them
    ends. *)
Definition find_not_not : list rnode :=
  [word "find" 0 4; word "." 5 6; word "-not" 7 11; word "-not" 12 16;
   word "-name" 17 22; word "a" 23 24].

Definition find_not_not_walked : world :=
  Eval vm_compute in
    snd (foldM (fun st child =>
                  command_step is_headcommand is_option (command find_not_not)
                    (normalize is_headcommand is_option digit_fold
                               "find . -not -not -name a" true child)
                    child st)
               find_not_not (init_cstate (Some 0))
               (mkWorld [mkNode None None None "root" "" []] [])).

(** The tree below the root a run returned. *)
Definition result_tree (r : outcome ref * world) : option tree :=
  match r with
  | (Ret (Some root), w) => view (length (nodes w)) (nodes w) root
  | _ => None
  end.

End Sample.

(** ** Vocabulary of the statements *)

Local Open Scope list_scope.

(** The store [attach_to_tree(node, parent)] leaves. *)
Definition attach_store (node p : nat) (h : list Node) : list Node :=
  let h1 := alter (set_parent (Some p)) node h in
  let l := (h1 !! p) ≫= (fun n => last (children n)) in
  let h2 := alter (set_lsb l) node h1 in
  let h3 := alter (fun n => set_children (children n ++ [node]) n) p h2 in
  match l with
  | Some li => alter (set_rsb (Some node)) li h3
  | None => h3
  end.

(** The store [make_sibling(lsb, rsb)] leaves. *)
Definition sibling_store (l r : ref) (h : list Node) : list Node :=
  let h1 := match l with
            | Some li => alter (set_rsb r) li h
            | None => h
            end in
  match r with
  | Some ri => alter (set_lsb l) ri h1
  | None => h1
  end.

(** The store a round of the binary loop leaves, for the operator [node]
    between [l] and [r] among the children [pre ++ [l; node; r] ++ post]
    of [p]. *)
Definition binary_fold_store (node l r p : nat) (pre post : list nat)
  (h : list Node) : list Node :=
  let h := sibling_store (Some node) (head post) h in
  let h := sibling_store (last pre) (Some node) h in
  let h := alter (set_children ((pre ++ [l; node]) ++ post)) p h in
  let h := alter (set_children (pre ++ node :: post)) p h in
  let h := alter (set_parent (Some node)) r h in
  let h := alter (set_parent (Some node)) l h in
  let h := sibling_store (Some l) (Some r) h in
  let h := alter (set_rsb None) r h in
  let h := alter (set_lsb None) l h in
  let h := alter (fun n => set_children (children n ++ [l]) n) node h in
  alter (fun n => set_children (children n ++ [r]) n) node h.

(** The store a round of the unary loop leaves, for the operator [node]
    before [r] among the children [pre ++ [node; r] ++ post] of [p]. *)
Definition unary_fold_store (node r p : nat) (pre post : list nat)
  (h : list Node) : list Node :=
  let h := sibling_store (Some node) (head post) h in
  let h := alter (set_children ((pre ++ [node]) ++ post)) p h in
  let h := alter (set_parent (Some node)) r h in
  let h := alter (set_lsb None) r h in
  let h := alter (set_rsb None) r h in
  alter (fun n => set_children (children n ++ [r]) n) node h.

(** The text quote recovery gives a token [wd] at the span [a, b). *)
Definition recovered_text (cmd wd : string) (a b : Z) : string :=
  if (b - a - Str.len wd =? 2)%Z then Str.slice cmd a b else wd.

(** The value of the leaf made of that token. *)
Definition leaf_value (is_option : string -> bool)
  (digit_fold : string -> string) (cmd : string) (norm_digit : bool)
  (wd : string) (a b : Z) : string :=
  let text := recovered_text cmd wd a b in
  if norm_digit && negb (is_option text) then digit_fold text else text.

(** The part lists with which [normalize] makes a word token a leaf: no
    part, or a first part of kind [parameter] or [tilde]. *)
Definition leaf_parts (ps : list rnode) : bool :=
  match ps with
  | [] => true
  | p0 :: _ => (rkind p0 =? "parameter") || (rkind p0 =? "tilde")
  end.

(** The walk of [normalize_command] over the tokens of a command. *)
Definition walk (is_headcommand is_option : string -> bool)
  (digit_fold : string -> string) (cmd : string) (nd : bool)
  (node : rnode) (toks : list rnode) (st : cstate) : M cstate :=
  foldM (fun st child =>
           command_step is_headcommand is_option node
             (normalize is_headcommand is_option digit_fold cmd nd child)
             child st) toks st.

(** A store holding the root [normalize_ast] starts from. *)
Definition rooted : world := mkWorld [mkNode None None None "root" "" []] [].

Definition dangling_warning : msg :=
  Text "Warning: unary logic operator without a right sibling.".

(** What [to_list] reads of an object. *)
Definition shape (n : Node) : string * string * list nat :=
  (kind n, value n, children n).

Fixpoint height (t : tree) : nat :=
  match t with
  | T _ _ ts => S (fold_right (fun c m => Nat.max (height c) m) 0 ts)
  end.

(** A kind and value whose symbol [list_to_tree] reads back: the kind has
    no underscore and no upper-case letter, and the symbol is not the end
    marker. *)
Definition readable (k v : string) : bool :=
  negb (Str.contains_char "_" k)
  && (Str.lower (Str.upper k) =? k)
  && negb (symbol_of k v =? NO_EXPAND).

Fixpoint linearizable (t : tree) : bool :=
  match t with
  | T k v ts => readable k v && forallb linearizable ts
  end.

(** A symbol [list_to_tree] can take: the end marker, or a text with an
    underscore. *)
Definition well_formed_symbol (s : string) : bool :=
  (s =? NO_EXPAND)
  || match Str.split1 "_" s with
     | (_, Some _) => true
     | (_, None) => false
     end.

(** The tree at [i], read to any depth that reaches its leaves. *)
Definition holds (h : list Node) (i : nat) (t : tree) : Prop :=
  forall fuel, height t <= fuel -> view fuel h i = Some t.

(** From [lo] on, the children of an object were made after it. *)
Definition increasing (lo : nat) (h : list Node) : Prop :=
  forall j n, lo <= j -> h !! j = Some n -> Forall (fun c => j < c) (children n).

(** From [lo] on, a parent is [None] or an object made from [lo] on. *)
Definition parents_within (lo : nat) (h : list Node) : Prop :=
  forall j n, lo <= j -> h !! j = Some n ->
    match parent n with
    | None => True
    | Some p => lo <= p < length h
    end.

(** The symbols of a forest, one tree after the other. *)
Definition flat (ts : list tree) : list string :=
  flat_map (fun c => to_list c "dfs" []) ts.

(** What reading the symbols of the forest [ts] does, with the cursor at
    [c]: the trees are built under [c] after its present children, the
    cursor is back at [c], and no older object changes its shape or its
    parent. *)
Definition rebuilt_forest (ts : list tree) : Prop :=
  forall h o c rest cs,
    c < length h ->
    children <$> h !! c = Some cs ->
    exists h' ids,
      list_to_tree_loop (flat ts ++ rest) (Some c) (mkWorld h o)
      = list_to_tree_loop rest (Some c) (mkWorld h' o)
      /\ length h <= length h'
      /\ (forall j, j < length h -> j <> c ->
            shape <$> h' !! j = shape <$> h !! j)
      /\ (forall j, j < length h -> parent <$> h' !! j = parent <$> h !! j)
      /\ kind <$> h' !! c = kind <$> h !! c
      /\ value <$> h' !! c = value <$> h !! c
      /\ children <$> h' !! c = Some (cs ++ ids)
      /\ Forall2 (holds h') ids ts
      /\ Forall (fun i => length h <= i) ids
      /\ increasing (length h) h'.

(** The symbol sequences [list_to_tree] reads as whole trees: [spells l ts]
    when [l] is, for each tree of [ts] in turn, a symbol other than the
    end marker that splits at its first underscore into the kind (read in
    lower case) and the value of the root, then a sequence that spells
    the children, then the end marker. *)
Inductive spells : list string -> list tree -> Prop :=
  | spells_nil : spells [] []
  | spells_node (s k v : string) (body rest : list string)
                (cs ts : list tree) :
      (s =? NO_EXPAND) = false ->
      Str.split1 "_" s = (k, Some v) ->
      spells body cs ->
      spells rest ts ->
      spells (s :: body ++ NO_EXPAND :: rest) (T (Str.lower k) v cs :: ts).

(** The sequences that end at or below the node they start under:
    [spells_open l ts] when [l] spells whole trees and then, any number
    of times, opens one more node and spells whole trees below it, never
    closing the nodes it opened; [ts] are the trees read, the last of
    them with what was read of the open nodes. *)
Inductive spells_open : list string -> list tree -> Prop :=
  | open_whole (body : list string) (ts : list tree) :
      spells body ts -> spells_open body ts
  | open_below (s k v : string) (body inner : list string)
               (ts cs : list tree) :
      spells body ts ->
      (s =? NO_EXPAND) = false ->
      Str.split1 "_" s = (k, Some v) ->
      spells_open inner cs ->
      spells_open (body ++ s :: inner) (ts ++ [T (Str.lower k) v cs]).

(** What reading [body] does with the cursor at [c], whatever symbols
    follow: the trees [ts] are built under [c] after its present
    children, the cursor is back at [c], in one store for every sequel,
    and no older object changes its shape or its parent. *)
Definition builds (body : list string) (ts : list tree) : Prop :=
  forall h o c cs,
    c < length h ->
    children <$> h !! c = Some cs ->
    exists h' ids,
      (forall rest,
          list_to_tree_loop (body ++ rest) (Some c) (mkWorld h o)
          = list_to_tree_loop rest (Some c) (mkWorld h' o))
      /\ length h <= length h'
      /\ (forall j, j < length h -> j <> c ->
            shape <$> h' !! j = shape <$> h !! j)
      /\ (forall j, j < length h -> parent <$> h' !! j = parent <$> h !! j)
      /\ kind <$> h' !! c = kind <$> h !! c
      /\ value <$> h' !! c = value <$> h !! c
      /\ children <$> h' !! c = Some (cs ++ ids)
      /\ Forall2 (holds h') ids ts
      /\ Forall (fun i => length h <= i) ids
      /\ increasing (length h) h'.

(** What reading [body] to its end does with the cursor at [c]: the loop
    ends without an exception and the trees [ts] are built under [c]
    after its present children. *)
Definition builds_open (body : list string) (ts : list tree) : Prop :=
  forall h o c cs,
    c < length h ->
    children <$> h !! c = Some cs ->
    exists h' ids,
      list_to_tree_loop body (Some c) (mkWorld h o) = (Ret tt, mkWorld h' o)
      /\ length h <= length h'
      /\ (forall j, j < length h -> j <> c ->
            shape <$> h' !! j = shape <$> h !! j)
      /\ kind <$> h' !! c = kind <$> h !! c
      /\ value <$> h' !! c = value <$> h !! c
      /\ children <$> h' !! c = Some (cs ++ ids)
      /\ Forall2 (holds h') ids ts
      /\ Forall (fun i => length h <= i) ids
      /\ increasing (length h) h'.

(** The command text after the pre-pass of [normalize_ast]. *)
Definition prepass (cmd : string) : string :=
  special_command_normalization (Str.strip (Str.replace_char "010" " " cmd)).

(** The parser exceptions [normalize_ast] names in an [except] clause, with
    the name it prints. *)
Definition caught_from_parser (e : exn) : option string :=
  match e with
  | MatchedPairError => Some "MatchedPairError"%string
  | ParsingError => Some "ParsingError"%string
  | NotImplementedError => Some "NotImplementedError"%string
  | IndexError => Some "IndexError"%string
  | AttributeError => Some "AttributeError"%string
  | _ => None
  end.

(** [m] keeps the property [I] of the store whatever it answers, and
    raises nothing but exceptions in [P]. *)
Definition keeps {A} (I : world -> Prop) (P : exn -> Prop) (m : M A) : Prop :=
  forall w r w',
    I w -> m w = (r, w') ->
    I w' /\ match r with
            | Exc e => P e
            | Ret _ => True
            end.

(** The exceptions of the tree builder. *)
Definition builder_fault (e : exn) : Prop :=
  match e with
  | ValueError _ | AttributeError | IndexError | TypeError | SystemExit => True
  | _ => False
  end.

(** Those of them [normalize_ast] lets through. *)
Definition escaping_fault (e : exn) : Prop :=
  match e with
  | AttributeError | IndexError | TypeError | SystemExit => True
  | _ => False
  end.

(** A kind [list_to_tree] reads back whatever the value. *)
Definition readable_kind (k : string) : bool :=
  negb (Str.contains_char "_" k)
  && (Str.lower (Str.upper k) =? k)
  && negb (Str.upper k =? "<NO").

(** Every object of the store has such a kind. *)
Definition kinds_readable (w : world) : Prop :=
  Forall (fun n => readable_kind (kind n) = true) (nodes w).

(** The sibling and parent links of a store agree with its lists of
    children: a list of children has no repetition; a child is owned by the
    object that lists it, and its left and right siblings are its
    neighbours in that list; an object without a parent has no sibling; an
    object with a parent is in the list of that parent. *)
Record linked (h : list Node) : Prop := mkLinked {
  linked_nodup :
    forall p cs, children <$> h !! p = Some cs -> NoDup cs;
  linked_child :
    forall p cs pre c post,
      children <$> h !! p = Some cs ->
      cs = pre ++ c :: post ->
      c <> p
      /\ parent <$> h !! c = Some (Some p)
      /\ lsb <$> h !! c = Some (last pre)
      /\ rsb <$> h !! c = Some (head post);
  linked_orphan :
    forall c,
      parent <$> h !! c = Some None ->
      lsb <$> h !! c = Some None /\ rsb <$> h !! c = Some None;
  linked_parent :
    forall c q,
      parent <$> h !! c = Some (Some q) ->
      exists cs, children <$> h !! q = Some cs /\ c ∈ cs
}.

(** The same, as a test that runs: [chain_ok] goes down a list of children
    with the child before, [linkedb] over every object of the store. *)
Fixpoint chain_ok (h : list Node) (p : nat) (prev : ref) (cs : list nat)
  : bool :=
  match cs with
  | [] => true
  | c :: rest =>
      negb (c =? p)%nat
      && match h !! c with
         | Some nc =>
             bool_decide (parent nc = Some p)
             && bool_decide (lsb nc = prev)
             && bool_decide (rsb nc = head rest)
         | None => false
         end
      && chain_ok h p (Some c) rest
  end.

Definition object_ok (h : list Node) (p : nat) : bool :=
  match h !! p with
  | None => true
  | Some np =>
      bool_decide (NoDup (children np))
      && chain_ok h p None (children np)
      && match parent np with
         | None => bool_decide (lsb np = None) && bool_decide (rsb np = None)
         | Some q =>
             match h !! q with
             | Some nq => bool_decide (p ∈ children nq)
             | None => false
             end
         end
  end.

Definition linkedb (h : list Node) : bool :=
  forallb (object_ok h) (seq 0 (length h)).

(** What reading the symbols of the forest [ts] does whatever follows
    them: the cursor is back where it was, in one store for every sequel,
    and no older object changes its parent. *)
Definition reads_forest (ts : list tree) : Prop :=
  forall h o c,
    c < length h ->
    exists h',
      (forall rest,
          list_to_tree_loop (flat ts ++ rest) (Some c) (mkWorld h o)
          = list_to_tree_loop rest (Some c) (mkWorld h' o))
      /\ length h <= length h'
      /\ (forall j, j < length h -> parent <$> h' !! j = parent <$> h !! j).

(** The number of nodes of a tree. *)
Fixpoint size (t : tree) : nat :=
  match t with
  | T _ _ ts => S (fold_right (fun c m => size c + m) 0 ts)
  end.

(** An answer of [to_command] that is a text, or the exception of a failed
    [assert] when the constraints are not loose, or that of the recursion
    limit when the tree is [deep]. *)
Definition fine {A} (lc : bool) (deep : Prop) (r : outcome A) : Prop :=
  match r with
  | Ret _ => True
  | Exc e => (e = AssertionError /\ lc = false) \/ (e = RuntimeError /\ deep)
  end.

(** A store that is linked, with the recorded operators [ops] distinct and
    childless, and references [rs] that are [None] or an object that is
    not one of [ops]. *)
Definition tidy (ops : list nat) (rs : list ref) (h : list Node) : Prop :=
  linked h
  /\ NoDup ops
  /\ Forall (fun op => children <$> h !! op = Some []) ops
  /\ Forall (fun r => match r with
                      | Some a => a < length h /\ a ∉ ops
                      | None => True
                      end) rs.

(** [m], run where [P] holds, answers with [Q], or raises an exception
    and leaves a linked store. *)
Definition triple {A} (P : world -> Prop) (m : M A)
  (Q : A -> world -> Prop) : Prop :=
  forall w r w',
    P w -> m w = (r, w') ->
    match r with
    | Ret a => Q a w'
    | Exc _ => linked (nodes w')
    end.

(** [m] writes nothing. *)
Definition readonly {A} (m : M A) : Prop :=
  forall w r w', m w = (r, w') -> w' = w.

(** The store after a leaf is attached under [r]: the leaf [n], made
    last, is the last child of [r]. *)
Definition leaf_under (ops : list nat) (rs : list ref) (r : ref)
  (w : world) : Prop :=
  exists n t nt,
    r = Some t
    /\ tidy ops (Some n :: rs) (nodes w)
    /\ nodes w !! t = Some nt
    /\ last (children nt) = Some n
    /\ children <$> nodes w !! n = Some []
    /\ S n = length (nodes w)
    /\ Forall (fun r' => r' <> Some n) rs.

(** What [normalize(child, r, k)] does for a token [child] that becomes
    one leaf: the leaf is attached under [r]. *)
Definition emits_leaf (norm : ref -> string -> M unit) : Prop :=
  forall ops rs r k,
    r ∈ rs ->
    triple (fun w => tidy ops rs (nodes w)) (norm r k)
           (fun _ w => leaf_under ops rs r w).

(** A word token with no compound part, its text and its span known. *)
Definition plain_word (n : rnode) : Prop :=
  exists tok a b c,
    n = RNode "word" (Some tok) (Some []) (Some (a, b)) c.

(** The local variables of the walk, in a tidy store. *)
Definition walking (st : cstate) (w : world) : Prop :=
  tidy (unary_logic_ops st ++ binary_logic_ops st) [attach_point st]
       (nodes w).

(** * The script [data/scripts/split_data.py]

    The script reads two files of lines, splits the pairs of lines at random
    into three sets and writes six files.  The lines read are arguments
    here and the lines written are the answer; the random generator is a
    state passed along. *)

Module SplitData.

Definition num_folds : nat := 12.

(** [sep.join(l)] *)
Fixpoint join (sep : string) (l : list string) : string :=
  match l with
  | [] => ""
  | [x] => x
  | x :: r => (x ++ sep ++ join sep r)%string
  end.

(** A dictionary from texts to lists of pairs, its keys in the order
    they were first used: [d[k].append(x)] on a [defaultdict(list)]. *)
Fixpoint dict_append (k : string) (x : string * string)
  (d : list (string * list (string * string)))
  : list (string * list (string * string)) :=
  match d with
  | [] => [(k, [x])]
  | (k', xs) :: d' =>
      if (k' =? k)%string then (k', xs ++ [x]) :: d'
      else (k', xs) :: dict_append k x d'
  end.

(** The six lists the first loop fills, its three counters and the set
    [train_commands], of which only [add] and [in] are used. *)
Record split : Type := mkSplit {
  train_nl_list : list string;
  train_cm_list : list string;
  dev_nl_list : list string;
  dev_cm_list : list string;
  test_nl_list : list string;
  test_cm_list : list string;
  num_train : nat;
  num_dev : nat;
  num_test : nat;
  train_commands : list string
}.

Definition empty_split : split := mkSplit [] [] [] [] [] [] 0 0 0 [].

Definition count_train (s : split) : split :=
  mkSplit (train_nl_list s) (train_cm_list s) (dev_nl_list s) (dev_cm_list s)
          (test_nl_list s) (test_cm_list s)
          (num_train s + 1) (num_dev s) (num_test s) (train_commands s).

Definition count_dev (s : split) : split :=
  mkSplit (train_nl_list s) (train_cm_list s) (dev_nl_list s) (dev_cm_list s)
          (test_nl_list s) (test_cm_list s)
          (num_train s) (num_dev s + 1) (num_test s) (train_commands s).

Definition count_test (s : split) : split :=
  mkSplit (train_nl_list s) (train_cm_list s) (dev_nl_list s) (dev_cm_list s)
          (test_nl_list s) (test_cm_list s)
          (num_train s) (num_dev s) (num_test s + 1) (train_commands s).

(** The bodies of the three inner loops [for nl, cm in pairs[nl_temp]]. *)
Definition to_train (s : split) (p : string * string) : split :=
  mkSplit (train_nl_list s ++ [fst p]) (train_cm_list s ++ [snd p])
          (dev_nl_list s) (dev_cm_list s) (test_nl_list s) (test_cm_list s)
          (num_train s) (num_dev s) (num_test s)
          (snd p :: train_commands s).

Definition to_dev (s : split) (p : string * string) : split :=
  mkSplit (train_nl_list s) (train_cm_list s)
          (dev_nl_list s ++ [fst p]) (dev_cm_list s ++ [snd p])
          (test_nl_list s) (test_cm_list s)
          (num_train s) (num_dev s) (num_test s) (train_commands s).

Definition to_test (s : split) (p : string * string) : split :=
  mkSplit (train_nl_list s) (train_cm_list s)
          (dev_nl_list s) (dev_cm_list s)
          (test_nl_list s ++ [fst p]) (test_cm_list s ++ [snd p])
          (num_train s) (num_dev s) (num_test s) (train_commands s).

(** The body of the first loop, for the fold [ind] drawn. *)
Definition assign_fold (ind : nat) (group : list (string * string))
  (s : split) : split :=
  if (ind <? num_folds - 2)%nat then
    fold_left to_train group (count_train s)
  else if (ind =? num_folds - 2)%nat then
    fold_left to_dev group (count_dev s)
  else if (ind =? num_folds - 1)%nat then
    fold_left to_test group (count_test s)
  else s.

(** The lists of the two loops that move an example to the train set:
    the train lists, the cleaned lists and [num_moved]. *)
Record moving : Type := mkMoving {
  m_train_nl : list string;
  m_train_cm : list string;
  m_cleaned_nl : list string;
  m_cleaned_cm : list string;
  m_num_moved : nat
}.

Definition move_one (commands : list string) (m : moving)
  (p : string * string) : moving :=
  if mem (snd p) commands then
    mkMoving (m_train_nl m ++ [fst p]) (m_train_cm m ++ [snd p])
             (m_cleaned_nl m) (m_cleaned_cm m) (m_num_moved m + 1)
  else
    mkMoving (m_train_nl m) (m_train_cm m)
             (m_cleaned_nl m ++ [fst p]) (m_cleaned_cm m ++ [snd p])
             (m_num_moved m).

(** [for i in indices: nl_out.append(nl[i]); cm_out.append(cm[i])] *)
Fixpoint select (indices : list nat) (nl cm nl_out cm_out : list string)
  : outcome (list string * list string) :=
  match indices with
  | [] => Ret (nl_out, cm_out)
  | i :: rest =>
      match nl !! i with
      | None => Exc IndexError
      | Some x =>
          match cm !! i with
          | None => Exc IndexError
          | Some y => select rest nl cm (nl_out ++ [x]) (cm_out ++ [y])
          end
      end
  end.

(** What the script writes, file by file, and the two counts it prints. *)
Record written : Type := mkWritten {
  train_nl : list string;
  train_cm : list string;
  dev_nl : list string;
  dev_cm : list string;
  test_nl : list string;
  test_cm : list string;
  moved_from_dev : nat;
  moved_from_test : nat
}.

Section Script.

(** The tokens [basic_tokenizer(nl)[0]] of module [nlp_tools.tokenizer],
    which is not part of the script. *)
Variable basic_tokenizer : string -> list string.

(** Module [random]: the state of the generator, [randrange(n)] and what
    [shuffle] makes of a list. *)
Variable rng : Type.
Variable randrange : nat -> rng -> nat * rng.
Variable shuffle : list nat -> rng -> list nat * rng.

Definition group_pairs (nls cms : list string)
  : list (string * list (string * string)) :=
  fold_left (fun pairs p =>
               dict_append (join " " (basic_tokenizer (fst p))) p pairs)
            (combine nls cms) [].

(** The first loop, [for nl_temp in pairs]. *)
Fixpoint assign_all (pairs : list (string * list (string * string)))
  (s : split) (g : rng) : split * rng :=
  match pairs with
  | [] => (s, g)
  | (_, group) :: rest =>
      let (ind, g') := randrange num_folds g in
      assign_all rest (assign_fold ind group s) g'
  end.

Definition split_data (nl_lines cm_lines : list string) (g : rng)
  : outcome written * rng :=
  let nls := map Str.strip nl_lines in
  let cms := map Str.strip cm_lines in
  if negb (length nls =? length cms)%nat then (Exc AssertionError, g)
  else
    let pairs := group_pairs nls cms in
    let (s, g1) := assign_all pairs empty_split g in
    let m1 := fold_left (move_one (train_commands s))
                (combine (dev_nl_list s) (dev_cm_list s))
                (mkMoving (train_nl_list s) (train_cm_list s) [] [] 0) in
    let m2 := fold_left (move_one (train_commands s))
                (combine (test_nl_list s) (test_cm_list s))
                (mkMoving (m_train_nl m1) (m_train_cm m1) [] [] 0) in
    let (indices, g2) :=
      shuffle (seq 0 (length (m_cleaned_nl m1))) g1 in
    match select (firstn 100 indices) (m_cleaned_nl m1) (m_cleaned_cm m1)
                 [] [] with
    | Exc e => (Exc e, g2)
    | Ret (dev_nl_list_reorg, dev_cm_list_reorg) =>
        match select (skipn 100 indices) (m_cleaned_nl m1) (m_cleaned_cm m1)
                     (m_cleaned_nl m2) (m_cleaned_cm m2) with
        | Exc e => (Exc e, g2)
        | Ret (test_nl_list_reorg, test_cm_list_reorg) =>
            (Ret (mkWritten (m_train_nl m2) (m_train_cm m2)
                            dev_nl_list_reorg dev_cm_list_reorg
                            test_nl_list_reorg test_cm_list_reorg
                            (m_num_moved m1) (m_num_moved m2)), g2)
        end
    end.

End Script.

(** A generator for running the script: the state is a counter. *)
Definition counter_randrange (n : nat) (g : nat) : nat * nat :=
  (g mod n, S g).

Definition counter_shuffle (l : list nat) (g : nat) : list nat * nat :=
  (rev l, S g).

(** Tokens at the spaces of a text. *)
Fixpoint words (s : string) (cur : string) : list string :=
  match s with
  | EmptyString => if (cur =? "")%string then [] else [cur]
  | String c r =>
      if Ascii.eqb c " " then
        if (cur =? "")%string then words r ""
        else cur :: words r ""
      else words r (cur ++ String c "")%string
  end.

(** Five lines to run the script on, and what it writes for them. *)
Definition sample_nl_lines : list string :=
  ["list files "; "show  disk"; "list  files"; "count lines"; "show disk"].

Definition sample_cm_lines : list string :=
  ["ls"; "df"; "ls -l"; "ls"; "du"].

Definition sample_written : written :=
  mkWritten ["list files"; "list  files"; "count lines"]
            ["ls"; "ls -l"; "ls"]
            ["show disk"; "show  disk"] ["du"; "df"] [] [] 0 1.

(** The lists of the first loop go in step, and the pairs they hold. *)
Definition aligned (s : split) : Prop :=
  length (train_nl_list s) = length (train_cm_list s)
  /\ length (dev_nl_list s) = length (dev_cm_list s)
  /\ length (test_nl_list s) = length (test_cm_list s).

Definition pairs_of (s : split) : list (string * string) :=
  combine (train_nl_list s) (train_cm_list s)
  ++ combine (dev_nl_list s) (dev_cm_list s)
  ++ combine (test_nl_list s) (test_cm_list s).

(** The same for the lists of a moving loop. *)
Definition m_aligned (m : moving) : Prop :=
  length (m_train_nl m) = length (m_train_cm m)
  /\ length (m_cleaned_nl m) = length (m_cleaned_cm m).

Definition m_pairs (m : moving) : list (string * string) :=
  combine (m_train_nl m) (m_train_cm m)
  ++ combine (m_cleaned_nl m) (m_cleaned_cm m).

End SplitData.

(** * Properties *)

(** ** Reading the store after writes *)

Lemma lookup_new (h : list Node) (x : Node) : (h ++ [x]) !! length h = Some x.
Proof. by apply list_lookup_middle. Qed.

Lemma lookup_old (h : list Node) (x : Node) (i : nat) (n : Node) :
  h !! i = Some n -> (h ++ [x]) !! i = Some n.
Proof. intros H. by apply lookup_app_l_Some. Qed.

(** A write that leaves the field [g] alone is not seen through [g]. *)
Lemma field_alter_pres {B} (g : Node -> B) (f : Node -> Node) (i j : nat)
  (h : list Node) :
  (forall n, g (f n) = g n) -> g <$> alter f i h !! j = g <$> h !! j.
Proof.
  intros Hg. destruct (decide (i = j)) as [->|Hne].
  - rewrite list_lookup_alter_eq. destruct (h !! j); simpl; [by rewrite Hg|done].
  - by rewrite list_lookup_alter_ne.
Qed.

Lemma field_alter_eq {B} (g : Node -> B) (f : Node -> Node) (i : nat)
  (h : list Node) :
  g <$> alter f i h !! i = (fun n => g (f n)) <$> h !! i.
Proof. rewrite list_lookup_alter_eq. by destruct (h !! i). Qed.

Lemma attach_to_tree_run (node p : nat) (w : world) :
  p < length (nodes w) ->
  attach_to_tree node (Some p) w
  = (Ret tt, mkWorld (attach_store node p (nodes w)) (out w)).
Proof.
  intros Hp. unfold attach_to_tree, attach_store, bind, modify, getRightChild, get, deref, addChild, update, modify, bind, ret. cbn.
  destruct (alter (set_parent (Some p)) node (nodes w) !! p) as [n|] eqn:E.
  - cbn. destruct (last (children n)); reflexivity.
  - apply lookup_ge_None in E. rewrite length_alter in E. lia.
Qed.

Lemma attach_store_length node p h : length (attach_store node p h) = length h.
Proof.
  unfold attach_store. destruct (_ ≫= _); rewrite !length_alter; done.
Qed.

Lemma attach_store_kind node p h j :
  kind <$> attach_store node p h !! j = kind <$> h !! j.
Proof.
  unfold attach_store. destruct (_ ≫= _);
    rewrite !field_alter_pres; auto.
Qed.

Lemma attach_store_value node p h j :
  value <$> attach_store node p h !! j = value <$> h !! j.
Proof.
  unfold attach_store. destruct (_ ≫= _);
    rewrite !field_alter_pres; auto.
Qed.

Lemma attach_store_children_parent node p h :
  children <$> attach_store node p h !! p
  = (fun n => children n ++ [node]) <$> h !! p.
Proof.
  unfold attach_store. destruct (_ ≫= _).
  - rewrite field_alter_pres by auto. rewrite field_alter_eq. cbn.
    destruct (decide (node = p)) as [->|Hne].
    + rewrite !list_lookup_alter_eq. by destruct (h !! p).
    + rewrite !list_lookup_alter_ne by done. done.
  - rewrite field_alter_eq. cbn.
    destruct (decide (node = p)) as [->|Hne].
    + rewrite !list_lookup_alter_eq. by destruct (h !! p).
    + rewrite !list_lookup_alter_ne by done. done.
Qed.

Lemma attach_store_parent_node node p h :
  parent <$> attach_store node p h !! node = (fun _ => Some p) <$> h !! node.
Proof.
  unfold attach_store. destruct (_ ≫= _);
    rewrite !field_alter_pres by auto; rewrite field_alter_eq; done.
Qed.


Lemma normalize_word_run is_option digit_fold cmd nd k wd ps a b c w :
  normalize_word is_option digit_fold cmd
    (RNode k (Some wd) ps (Some (a, b)) c) nd true w
  = (Ret (leaf_value is_option digit_fold cmd nd wd a b), w).
Proof.
  unfold normalize_word, recover_quotation, with_quotation, bind, attr, ret,
    leaf_value, recovered_text. cbn.
  destruct (b - a - Str.len wd =? 2)%Z; reflexivity.
Qed.

Lemma recover_quotation_run cmd k wd ps a b c w :
  recover_quotation cmd (RNode k (Some wd) ps (Some (a, b)) c) w
  = (Ret (recovered_text cmd wd a b), w).
Proof.
  unfold recover_quotation, with_quotation, bind, attr, ret, recovered_text.
  cbn. destruct (b - a - Str.len wd =? 2)%Z; reflexivity.
Qed.

Lemma normalize_leaf
  (is_headcommand is_option : string -> bool) (digit_fold : string -> string)
  (cmd : string) (nd : bool) (wd : option string) (ps : list rnode)
  (pos : option (Z * Z)) (c : option rnode) (current : option nat)
  (arg_type : string) :
  leaf_parts ps = true ->
  normalize is_headcommand is_option digit_fold cmd nd
            (RNode "word" wd (Some ps) pos c) current arg_type
  = emit_leaf is_option digit_fold cmd nd
              (RNode "word" wd (Some ps) pos c) current arg_type.
Proof.
  destruct ps as [|[k0 w0 ps0 pos0 c0] rest]; [reflexivity|].
  cbn [leaf_parts rkind]. intros [E|E]%orb_prop; apply String.eqb_eq in E;
    subst k0; reflexivity.
Qed.

(** C9: quote recovery gives a token the substring of the command at the
    token's span when the span is exactly two longer than the token, and
    the token itself otherwise.  Every leaf, made of a word without parts
    or of a word whose first part is a parameter or a tilde, gets that
    text as value, after the digit-folding step when the caller selects
    it and the text is no option: with [normalize_digits] unset the value
    is the recovered text itself.  The leaf has the kind asked for and is
    attached last under [current].  [normalize] has no switch for quote
    recovery: it is done for every leaf. *)
Theorem C9_leaf_value
  (is_headcommand is_option : string -> bool) (digit_fold : string -> string)
  (cmd : string) (normalize_digits : bool)
  (wd : string) (ps : list rnode) (a b : Z) (c : option rnode)
  (current : nat) (arg_type : string) (w : world) (pn : Node) :
  leaf_parts ps = true ->
  nodes w !! current = Some pn ->
  let token := RNode "word" (Some wd) (Some ps) (Some (a, b)) c in
  let text := if (b - a - Str.len wd =? 2)%Z then Str.slice cmd a b else wd in
  let v := if normalize_digits && negb (is_option text)
           then digit_fold text else text in
  let new := length (nodes w) in
  recover_quotation cmd token w = (Ret text, w)
  /\ (normalize_digits = false -> v = text)
  /\ exists w',
       normalize is_headcommand is_option digit_fold cmd normalize_digits
                 token (Some current) arg_type w = (Ret tt, w')
       /\ kind <$> nodes w' !! new = Some arg_type
       /\ value <$> nodes w' !! new = Some v
       /\ parent <$> nodes w' !! new = Some (Some current)
       /\ children <$> nodes w' !! current = Some (children pn ++ [new])
       /\ out w' = out w.
Proof.
  intros Hps Hp token text v new.
  assert (Hlt : current < length (nodes w)) by (eapply lookup_lt_Some; eauto).
  split; [apply recover_quotation_run|].
  split; [by intros ->|].
  subst token. rewrite normalize_leaf by done.
  unfold emit_leaf. unfold bind at 1. rewrite normalize_word_run.
  unfold bind, new_node. cbn -[attach_to_tree].
  rewrite attach_to_tree_run by (cbn; rewrite length_app; cbn; lia).
  eexists. split; [reflexivity|]. cbn.
  rewrite attach_store_kind, attach_store_value, attach_store_parent_node,
    attach_store_children_parent.
  subst new. rewrite !lookup_new, (lookup_old _ _ _ _ Hp). done.
Qed.

(** C9, witness: the quoted literal ['a1'] of [echo 'a1'], digit folding
    off. *)
Lemma C9_leaf_value_witness :
  recover_quotation "echo 'a1'" (Sample.word "a1" 5 9)
    (mkWorld [mkNode None None None "root" "" []] [])
  = (Ret "'a1'", mkWorld [mkNode None None None "root" "" []] [])
  /\ exists w',
       normalize Sample.is_headcommand Sample.is_option Sample.digit_fold
                 "echo 'a1'" false (Sample.word "a1" 5 9) (Some 0) "argument"
                 (mkWorld [mkNode None None None "root" "" []] [])
       = (Ret tt, w')
       /\ kind <$> nodes w' !! 1 = Some "argument"
       /\ value <$> nodes w' !! 1 = Some "'a1'"
       /\ parent <$> nodes w' !! 1 = Some (Some 0)
       /\ children <$> nodes w' !! 0 = Some [1]
       /\ out w' = [].
Proof.
  pose proof (C9_leaf_value Sample.is_headcommand Sample.is_option
                Sample.digit_fold "echo 'a1'" false "a1" [] 5 9 None 0
                "argument"
                (mkWorld [mkNode None None None "root" "" []] [])
                (mkNode None None None "root" "" []) eq_refl eq_refl) as H.
  exact (conj (proj1 H) (proj2 (proj2 H))).
Defined.

(** Three leaves as the whole run makes them: the quoted literal ['a1']
    with digit folding on keeps its quotes; a literal written as two
    quoted pieces has a span four longer than the token and keeps the
    bare token; a quoted parameter is a leaf with its quotes. *)
Example quoted_leaves :
  let q := String (ascii_of_nat 34) "" in
  Sample.result_tree
    (Sample.run [Sample.command [Sample.word "echo" 0 4;
                                 Sample.word "a1" 5 9]] "echo 'a1'")
  = Some (T "root" "" [T "headcommand" "echo" [T "argument" "'a_NUM'" []]])
  /\ Sample.result_tree
       (Sample.run [Sample.command [Sample.word "echo" 0 4;
                                    Sample.word "ab" 5 11]] "echo 'a''b'")
     = Some (T "root" "" [T "headcommand" "echo" [T "argument" "ab" []]])
  /\ Sample.result_tree
       (Sample.run [Sample.command
                      [Sample.word "echo" 0 4;
                       RNode "word" (Some "$HOME")
                             (Some [RNode "parameter" None None
                                          (Some (6, 11)%Z) None])
                             (Some (5, 12)%Z) None]]
                   ("echo " ++ q ++ "$HOME" ++ q)%string)
     = Some (T "root" ""
               [T "headcommand" "echo"
                  [T "argument" (q ++ "$HOME" ++ q)%string []]]).
Proof. vm_compute. repeat split; reflexivity. Qed.

(** C10: a word token that the catalogue knows as a head command and whose
    span is two longer than the word is passed over: the loop body answers
    with the local state it was given (same attach point, same flags, same
    recorded operators) and the store it was given (no node made, nothing
    printed); the whole round is the end-of-command ascent that precedes
    every token, and nothing else.  The tokens [--], [;] and the
    logic-operator spellings are dispatched before the head-command test. *)
Theorem C10_quoted_head_command_dropped
  (is_headcommand is_option : string -> bool)
  (node : rnode) (norm : option nat -> string -> M unit)
  (wd : string) (a b : Z) (ps : option (list rnode)) (c : option rnode)
  (st : cstate) (w : world) :
  is_headcommand wd = true ->
  mem wd ["--"; ";"] = false ->
  mem wd unary_logic_operators = false ->
  mem wd binary_logic_operators = false ->
  (b - a - Str.len wd = 2)%Z ->
  let child := RNode "word" (Some wd) ps (Some (a, b)) c in
  command_token is_headcommand is_option node norm child st w = (Ret st, w)
  /\ command_step is_headcommand is_option node norm child st w
     = end_of_command_ascent st w.
Proof.
  intros Hh Hs Hu Hb Hq child. cbn in Hs.
  apply orb_false_elim in Hs as [H1 H2]. apply orb_false_elim in H2 as [H2 _].
  assert (Htok : forall st' w',
    command_token is_headcommand is_option node norm child st' w'
    = (Ret st', w')).
  { intros st' w'. unfold command_token. cbn -[mem].
    rewrite H1, H2, Hu, Hb, Hh.
    unfold with_quotation, bind, attr, ret. cbn.
    apply Z.eqb_eq in Hq. rewrite Hq. reflexivity. }
  split; [apply Htok|].
  unfold command_step, bind.
  destruct (end_of_command_ascent st w) as [[st'|e] w']; [apply Htok|done].
Qed.

(** C10, witness: the quoted token ['find'] after [echo]. *)
Lemma C10_quoted_head_command_dropped_witness :
  let child := Sample.word "find" 5 11 in
  let node := Sample.command [Sample.word "echo" 0 4; child] in
  let norm := fun (_ : option nat) (_ : string) => @raise unit SystemExit in
  command_token Sample.is_headcommand Sample.is_option node norm child
                (init_cstate (Some 1)) empty_world
  = (Ret (init_cstate (Some 1)), empty_world)
  /\ command_step Sample.is_headcommand Sample.is_option node norm child
                  (init_cstate (Some 1)) empty_world
     = end_of_command_ascent (init_cstate (Some 1)) empty_world.
Proof.
  apply (C10_quoted_head_command_dropped Sample.is_headcommand Sample.is_option);
    reflexivity.
Defined.

(** The quoted head command leaves no node in the normalized tree. *)
Example quoted_find_after_echo :
  Sample.result_tree
    (Sample.run [Sample.command [Sample.word "echo" 0 4;
                                 Sample.word "find" 5 11;
                                 Sample.word "x" 12 13]]
                "echo 'find' x")
  = Some (T "root" "" [T "headcommand" "echo" [T "argument" "x" []]]).
Proof. vm_compute. reflexivity. Qed.

(** C5, as amended: a raw list with one or two parts is normalized as its
    first part; an empty list raises [IndexError], and a list of more than
    two parts fails with the store as it was. *)
Theorem C5_list_support
  (is_headcommand is_option : string -> bool) (digit_fold : string -> string)
  (cmd : string) (normalize_digits : bool)
  (wo : option string) (ps : list rnode) (po : option (Z * Z))
  (co : option rnode) (current : option nat) (arg_type : string) (w : world) :
  let run n := normalize is_headcommand is_option digit_fold cmd
                 normalize_digits n current in
  match ps with
  | [] => run (RNode "list" wo (Some ps) po co) arg_type w = (Exc IndexError, w)
  | [p0] => run (RNode "list" wo (Some ps) po co) arg_type w = run p0 "" w
  | [p0; _] => run (RNode "list" wo (Some ps) po co) arg_type w = run p0 "" w
  | _ => exists e, run (RNode "list" wo (Some ps) po co) arg_type w = (Exc e, w)
  end.
Proof.
  destruct ps as [|p0 [|p1 [|p2 rest]]]; cbn; try reflexivity.
  eexists; reflexivity.
Qed.

(** C5, counterexample: the two-part list of [echo a ;] (the command and
    its terminator) is normalized, not refused. *)
Lemma C5_counterexample :
  Sample.result_tree
    (Sample.run [RNode "list" None
                   (Some [Sample.command [Sample.word "echo" 0 4;
                                          Sample.word "a" 5 6];
                          Sample.operator]) None None]
                "echo a ;")
  = Some (T "root" "" [T "headcommand" "echo" [T "argument" "a" []]]).
Proof. vm_compute. reflexivity. Qed.

(** The kinds [normalize] names as unsupported. *)
Lemma unsupported_kind_without_parts
  (is_headcommand is_option : string -> bool) (digit_fold : string -> string)
  (cmd : string) (nd : bool) (k : string) (wo : option string)
  (po : option (Z * Z)) (co : option rnode) (current : option nat)
  (arg_type : string) (w : world) :
  mem k ["operator"; "parameter"; "redirect"; "for"; "if"; "while"; "until";
         "assignment"; "function"; "tilde"; "heredoc"] = true ->
  normalize is_headcommand is_option digit_fold cmd nd
            (RNode k wo None po co) current arg_type w
  = (Exc (if k =? "parameter" then ValueError "Unsupported: parameters"
          else unsupported k), w).
Proof.
  intros Hk. cbn in Hk.
  repeat (apply orb_prop in Hk as [Hk|Hk];
          [apply String.eqb_eq in Hk; subst k; reflexivity|]).
  discriminate.
Qed.

(** They are reached only by a node without [parts]: with [parts], a node
    of any kind but the six handled before is flattened. *)
Lemma kind_with_parts_is_flattened
  (is_headcommand is_option : string -> bool) (digit_fold : string -> string)
  (cmd : string) (nd : bool) (k : string) (wo : option string)
  (ps : list rnode) (po : option (Z * Z)) (co : option rnode)
  (current : option nat) (arg_type : string) (w : world) :
  mem k ["word"; "pipeline"; "list"; "commandsubstitution";
         "processsubstitution"; "command"] = false ->
  normalize is_headcommand is_option digit_fold cmd nd
            (RNode k wo (Some ps) po co) current arg_type w
  = forM_ (fun child => normalize is_headcommand is_option digit_fold cmd nd
                                  child current "") ps w.
Proof.
  intros Hk. cbn in Hk.
  repeat (apply orb_false_elim in Hk as [?E Hk]).
  cbn [normalize]. by rewrite E, E0, E1, E2, E3, E4.
Qed.

(** C4, the code at the failing input: a raw [for] node that carries
    [parts] is not refused; its parts are normalized under the current
    attach point. *)
Theorem C4_for_with_parts_is_flattened :
  let for_node := RNode "for" None (Some [Sample.word "x" 4 5]) None None in
  Sample.result_tree (Sample.run [for_node] "for x")
  = Some (T "root" "" [T "" "x" []]).
Proof. vm_compute. reflexivity. Qed.

Lemma attach_store_children_other node p h j :
  j <> p -> children <$> attach_store node p h !! j = children <$> h !! j.
Proof.
  intros Hne. unfold attach_store. destruct (_ ≫= _).
  - rewrite field_alter_pres by auto.
    rewrite (list_lookup_alter_ne _ _ p j) by done.
    rewrite !field_alter_pres by auto. done.
  - rewrite (list_lookup_alter_ne _ _ p j) by done.
    rewrite !field_alter_pres by auto. done.
Qed.

(** C7, as amended: a token [!] or [-not], with [a] the flag attach point,
    is a true operator exactly when it is [-not], or it is [!] and [a] is a
    head command of value [find].  A true operator is made as a childless
    [unarylogicop] node attached last under [a] and recorded; the attach
    point of the tokens that follow is [a], not the operator.  Otherwise the
    token is attached as a flag under [a]. *)
Theorem C7_unary_operator_classification
  (is_headcommand is_option : string -> bool)
  (node : rnode) (norm : option nat -> string -> M unit)
  (tok : string) (ps : option (list rnode)) (po : option (Z * Z))
  (co : option rnode) (st : cstate) (w : world) (a : nat) (na : Node) :
  mem tok unary_logic_operators = true ->
  find_flag_attach_point (attach_point st) w = (Ret (Some a), w) ->
  nodes w !! a = Some na ->
  let child := RNode "word" (Some tok) ps po co in
  let new := length (nodes w) in
  if (tok =? "-not")
     || ((tok =? "!") && (kind na =? "headcommand") && (value na =? "find"))
  then
    exists w',
      command_token is_headcommand is_option node norm child st w
      = (Ret (mkC (Some a) (END_OF_OPTIONS st) (END_OF_COMMAND st)
                  (unary_logic_ops st ++ [new]) (binary_logic_ops st)), w')
      /\ kind <$> nodes w' !! new = Some "unarylogicop"
      /\ value <$> nodes w' !! new = Some tok
      /\ parent <$> nodes w' !! new = Some (Some a)
      /\ children <$> nodes w' !! new = Some []
      /\ children <$> nodes w' !! a = Some (children na ++ [new])
  else
    command_token is_headcommand is_option node norm child st w
    = (ap <- attach_option norm (Some a) ;; ret (set_attach_point ap st)) w.
Proof.
  intros Hu Hfa Ha child new.
  assert (Hlt : a < length (nodes w)) by (eapply lookup_lt_Some; eauto).
  assert (Htok : tok = "!" \/ tok = "-not").
  { cbn in Hu. destruct (String.eqb_spec tok "!"); [by left|].
    destruct (String.eqb_spec tok "-not"); [by right|discriminate]. }
  assert (Hclass : is_unary_logic_op tok (Some a) w
     = (Ret ((tok =? "-not")
        || ((tok =? "!") && (kind na =? "headcommand") && (value na =? "find"))), w)).
  { destruct Htok as [-> | ->]; [|reflexivity].
    unfold is_unary_logic_op, under_find, get, deref, bind, ret. cbn.
    rewrite Ha. destruct (kind na =? "headcommand"); [|reflexivity].
    cbn. rewrite Ha. reflexivity. }
  assert (Hd : (tok =? "--") = false /\ (tok =? ";") = false)
    by (destruct Htok as [-> | ->]; split; reflexivity).
  destruct Hd as [Hd1 Hd2].
  subst child. destruct (_ || _) eqn:Hc.
  - unfold command_token. cbn -[mem]. rewrite Hd1, Hd2, Hu.
    unfold bind at 1. rewrite Hfa. unfold bind at 1. rewrite Hclass.
    unfold bind, new_node. cbn -[attach_to_tree].
    rewrite attach_to_tree_run by (cbn; rewrite length_app; cbn; lia).
    eexists. split; [reflexivity|]. cbn.
    rewrite attach_store_kind, attach_store_value, attach_store_parent_node,
      attach_store_children_parent.
    rewrite attach_store_children_other by (subst new; lia).
    subst new. rewrite !lookup_new, (lookup_old _ _ _ _ Ha). done.
  - unfold command_token. cbn -[mem]. rewrite Hd1, Hd2, Hu.
    unfold bind at 1. rewrite Hfa. unfold bind at 1. rewrite Hclass.
    reflexivity.
Qed.

(** C7, witness: [-not] under the head command [find]. *)
Lemma C7_unary_operator_classification_witness :
  exists w',
    command_token Sample.is_headcommand Sample.is_option
      (Sample.command []) (fun _ _ => ret tt)
      (Sample.word "-not" 5 9) (init_cstate (Some 1))
      (mkWorld [mkNode None None None "root" "" [1];
                mkNode (Some 0) None None "headcommand" "find" []] [])
    = (Ret (mkC (Some 1) false false [2] []), w')
    /\ kind <$> nodes w' !! 2 = Some "unarylogicop"
    /\ value <$> nodes w' !! 2 = Some "-not"
    /\ parent <$> nodes w' !! 2 = Some (Some 1)
    /\ children <$> nodes w' !! 2 = Some []
    /\ children <$> nodes w' !! 1 = Some [2].
Proof.
  exact (C7_unary_operator_classification
           Sample.is_headcommand Sample.is_option
           (Sample.command []) (fun _ _ => ret tt) "-not"
           (Some []) (Some (5, 9)%Z) None (init_cstate (Some 1))
           (mkWorld [mkNode None None None "root" "" [1];
                     mkNode (Some 0) None None "headcommand" "find" []] [])
           1 (mkNode (Some 0) None None "headcommand" "find" [])
           eq_refl eq_refl eq_refl).
Defined.

(** C7, counterexample: after the walk over [find . -not] the attach point
    is the head command (object 1), not the recorded operator (object 3). *)
Lemma C7_counterexample :
  let toks := [Sample.word "find" 0 4; Sample.word "." 5 6;
               Sample.word "-not" 7 11] in
  exists st w,
    walk Sample.is_headcommand Sample.is_option Sample.digit_fold
         "find . -not" true (Sample.command toks) toks
         (init_cstate (Some 0)) rooted = (Ret st, w)
    /\ unary_logic_ops st = [3]
    /\ kind <$> nodes w !! 3 = Some "unarylogicop"
    /\ kind <$> nodes w !! 1 = Some "headcommand"
    /\ attach_point st = Some 1
    /\ attach_point st <> Some 3.
Proof.
  eexists _, _. split; [vm_compute; reflexivity|].
  cbn. repeat split; congruence.
Qed.

(** ** The second pass *)

Lemma bind_run {A B} (m : M A) (k : A -> M B) (w w1 : world) (a : A) :
  m w = (Ret a, w1) -> bind m k w = k a w1.
Proof. intros H. unfold bind. by rewrite H. Qed.

Lemma bind_exc {A B} (m : M A) (k : A -> M B) (w w1 : world) (e : exn) :
  m w = (Exc e, w1) -> bind m k w = (Exc e, w1).
Proof. intros H. unfold bind. by rewrite H. Qed.

Lemma get_run {A} (f : Node -> A) (i : nat) (w : world) (n : Node) :
  nodes w !! i = Some n -> get f (Some i) w = (Ret (f n), w).
Proof. intros H. unfold get, deref, bind, ret. by rewrite H. Qed.

Lemma bind_assoc {A B C} (m : M A) (k : A -> M B) (k' : B -> M C) (w : world) :
  bind (bind m k) k' w = bind m (fun a => bind (k a) k') w.
Proof. unfold bind. destruct (m w) as [[a|e] w1]; reflexivity. Qed.

Lemma bind_cong {A B} (m : M A) (k1 k2 : A -> M B) (w : world) :
  (forall a w', k1 a w' = k2 a w') -> bind m k1 w = bind m k2 w.
Proof. intros H. unfold bind. destruct (m w) as [[a|e] w1]; [apply H|done]. Qed.

Lemma fold_unary_app (ops1 ops2 : list nat) (w : world) :
  fold_unary (ops1 ++ ops2) w
  = (returned <- fold_unary ops1 ;;
     if returned then ret true else fold_unary ops2) w.
Proof.
  revert w. induction ops1 as [|op ops1 IH]; intros w.
  - reflexivity.
  - cbn [fold_unary app]. rewrite bind_assoc.
    apply bind_cong. intros [ri|] w1.
    + rewrite bind_assoc. apply bind_cong. intros _ w2. apply IH.
    + rewrite bind_assoc. apply bind_cong. intros _ w2.
      rewrite bind_assoc. apply bind_cong. intros p w3.
      rewrite bind_assoc. apply bind_cong. intros _ w4. reflexivity.
Qed.

(** C8, as amended: when the unary operators recorded before [op] have
    been folded and [op] then has no right sibling, the second pass prints
    the warning and the parent of [op] and ends there, without an
    exception: the store is the one the earlier folds left, so [op], the
    unary operators after it and every binary operator stay un-folded. *)
Theorem C8_dangling_unary_stops_folding
  (before after : list nat) (op : nat) (st : cstate) (w w1 : world) (n : Node) :
  unary_logic_ops st = before ++ op :: after ->
  fold_unary before w = (Ret false, w1) ->
  nodes w1 !! op = Some n ->
  rsb n = None ->
  fold_logic_ops st w
  = (Ret tt, mkWorld (nodes w1) (out w1 ++ [dangling_warning; Obj (parent n)])).
Proof.
  intros Hst Hb Hn Hr. unfold fold_logic_ops. rewrite Hst.
  unfold bind at 1. rewrite fold_unary_app.
  rewrite (bind_run _ _ _ _ _ Hb). cbn [fold_unary].
  rewrite (bind_run _ _ w1 w1 (rsb n)) by (by apply get_run).
  rewrite Hr. unfold bind, print. cbn.
  erewrite get_run by (cbn; exact Hn). cbn.
  rewrite <- app_assoc. reflexivity.
Qed.

(** C8, witness: [find -not], where [-not] is the only recorded
    operator. *)
Lemma C8_dangling_unary_stops_folding_witness :
  fold_logic_ops (mkC (Some 1) false false [2] [])
    (mkWorld [mkNode None None None "root" "" [1];
              mkNode (Some 0) None None "headcommand" "find" [2];
              mkNode (Some 1) None None "unarylogicop" "-not" []] [])
  = (Ret tt,
     mkWorld [mkNode None None None "root" "" [1];
              mkNode (Some 0) None None "headcommand" "find" [2];
              mkNode (Some 1) None None "unarylogicop" "-not" []]
             ([] ++ [dangling_warning; Obj (Some 1)])).
Proof.
  exact (C8_dangling_unary_stops_folding [] [] 2
           (mkC (Some 1) false false [2] [])
           (mkWorld [mkNode None None None "root" "" [1];
                     mkNode (Some 0) None None "headcommand" "find" [2];
                     mkNode (Some 1) None None "unarylogicop" "-not" []] [])
           (mkWorld [mkNode None None None "root" "" [1];
                     mkNode (Some 0) None None "headcommand" "find" [2];
                     mkNode (Some 1) None None "unarylogicop" "-not" []] [])
           (mkNode (Some 1) None None "unarylogicop" "-not" [])
           eq_refl eq_refl eq_refl eq_refl).
Defined.

(** C8, counterexample: in [find . -name a -or -name b -not] the command is
    returned, but the recorded [-or] is not folded. *)
Lemma C8_counterexample :
  let r := Sample.run [Sample.command Sample.dangling_not]
                      "find . -name a -or -name b -not" in
  Sample.result_tree r
  = Some (T "root" ""
            [T "headcommand" "find"
               [T "argument" "." [];
                T "flag" "-name" [T "argument" "a" []];
                T "binarylogicop" "-or" [];
                T "flag" "-name" [T "argument" "b" []];
                T "unarylogicop" "-not" []]])
  /\ out (snd r) = [dangling_warning; Obj (Some 1)].
Proof. vm_compute. split; reflexivity. Qed.

Lemma get_field {A} (f : Node -> A) (i : nat) (w : world) (v : A) :
  f <$> nodes w !! i = Some v -> get f (Some i) w = (Ret v, w).
Proof.
  intros H. unfold get, deref, bind, ret.
  destruct (nodes w !! i); cbn in H; [|done]. by injection H as ->.
Qed.

Lemma remove_first_middle (x : nat) (pre post : list nat) :
  x ∉ pre -> remove_first x (pre ++ x :: post) = Some (pre ++ post).
Proof.
  induction pre as [|y pre IH]; intros Hx; cbn.
  - by rewrite Nat.eqb_refl.
  - apply not_elem_of_cons in Hx as [Hne Hx].
    destruct (Nat.eqb_spec x y); [done|]. by rewrite IH.
Qed.

Lemma removeChild_run (p c : nat) (w : world) (cs cs' : list nat) :
  children <$> nodes w !! p = Some cs ->
  remove_first c cs = Some cs' ->
  removeChild (Some p) c w
  = (Ret tt, mkWorld (alter (set_children cs') p (nodes w)) (out w)).
Proof.
  intros Hc Hr. unfold removeChild, deref, bind.
  destruct (nodes w !! p) as [n|]; cbn in Hc; [|done].
  injection Hc as ->. rewrite Hr. reflexivity.
Qed.

Lemma modify_run (i : nat) (f : Node -> Node) (w : world) :
  modify i f w = (Ret tt, mkWorld (alter f i (nodes w)) (out w)).
Proof. reflexivity. Qed.

Lemma make_sibling_run (l r : option nat) (w : world) :
  make_sibling l r w = (Ret tt, mkWorld (sibling_store l r (nodes w)) (out w)).
Proof. destruct w, l, r; reflexivity. Qed.

(** Reading a field through a chain of writes. *)
Ltac peel :=
  repeat first
    [ rewrite field_alter_pres by (intros; reflexivity)
    | rewrite list_lookup_alter_ne by (congruence || lia)
    | rewrite field_alter_eq ].

Ltac read H := peel; rewrite H; reflexivity.

Ltac step tac := erewrite bind_run by tac; cbn [nodes out sibling_store].

Section BinaryFold.

Variables (node l r p : nat) (w : world) (nop np nl nr : Node).
Variables (pre post : list nat).

Hypothesis Hnode : nodes w !! node = Some nop.
Hypothesis Hp : nodes w !! p = Some np.
Hypothesis Hl : nodes w !! l = Some nl.
Hypothesis Hr : nodes w !! r = Some nr.
Hypothesis Hparent : parent nop = Some p.
Hypothesis Hch : children np = pre ++ [l; node; r] ++ post.
Hypothesis Hnd : NoDup (p :: children np).
Hypothesis Hll : lsb nl = last pre.
Hypothesis Hrr : rsb nr = head post.

Lemma bf_distinct :
  node <> p /\ l <> p /\ r <> p /\ l <> node /\ r <> node /\ l <> r
  /\ (l ∉ pre) /\ (r ∉ pre)
  /\ (forall y, last pre = Some y -> y <> l /\ y <> r /\ y <> node /\ y <> p)
  /\ (forall x, head post = Some x -> x <> l /\ x <> r /\ x <> node /\ x <> p).
Proof.
  rewrite Hch in Hnd. apply NoDup_cons in Hnd as [Hpn Hnd'].
  apply NoDup_app in Hnd' as (Hpre & Hdisj & Hrest).
  cbn in Hrest.
  apply NoDup_cons in Hrest as [Hl1 Hrest].
  apply NoDup_cons in Hrest as [Hn1 Hrest].
  apply NoDup_cons in Hrest as [Hr1 Hpost].
  assert (Hin : forall y, last pre = Some y -> y ∈ pre).
  { intros y Hy. apply last_Some in Hy as [l' ->]. set_solver. }
  assert (Hin' : forall x, head post = Some x -> x ∈ post).
  { intros x Hx. destruct post; [done|]. injection Hx as ->. set_solver. }
  repeat split; try set_solver.
  all: intros ->;
    match goal with
    | H : last _ = Some _ |- _ => apply Hin in H; set_solver
    | H : head _ = Some _ |- _ => apply Hin' in H; set_solver
    end.
Qed.

Hypothesis Hvalid : Forall (fun i => i < length (nodes w)) (children np).

Lemma bf_valid :
  (forall y, last pre = Some y -> is_Some (nodes w !! y))
  /\ (forall x, head post = Some x -> is_Some (nodes w !! x)).
Proof.
  split.
  - intros y Hy. apply lookup_lt_is_Some.
    rewrite Forall_forall in Hvalid. apply Hvalid. rewrite Hch.
    apply last_Some in Hy as [l' ->]. set_solver.
  - intros x Hx. apply lookup_lt_is_Some.
    rewrite Forall_forall in Hvalid. apply Hvalid. rewrite Hch.
    destruct post; [done|]. injection Hx as ->. set_solver.
Qed.

(** The round runs to its end. *)
Lemma bf_exec :
  fold_binary_op node l r w
  = (Ret tt, mkWorld (binary_fold_store node l r p pre post (nodes w)) (out w)).
Proof.
  destruct bf_distinct as (D1 & D2 & D3 & D4 & D5 & D6 & D7 & D8 & Dy & Dx).
  destruct bf_valid as [Hvy Hvx].
  unfold fold_binary_op, binary_fold_store.
  step ltac:(apply get_field; cbn; read Hr).
  rewrite Hrr.
  destruct (head post) as [x|] eqn:Ex; destruct (last pre) as [y|] eqn:Ey.
  all: try (destruct (Dx x eq_refl) as (X1 & X2 & X3 & X4);
            destruct (Hvx x eq_refl) as [nx Hx]).
  all: try (destruct (Dy y eq_refl) as (Y1 & Y2 & Y3 & Y4);
            destruct (Hvy y eq_refl) as [ny Hy]).
  all: step ltac:(apply make_sibling_run).
  all: step ltac:(apply get_field; cbn; read Hl).
  all: rewrite Hll.
  all: step ltac:(apply make_sibling_run).
  all: step ltac:(apply get_field; cbn; read Hnode).
  all: rewrite Hparent.
  all: step ltac:(eapply removeChild_run;
             [cbn; read Hp
             |rewrite Hch;
              replace (pre ++ [l; node; r] ++ post)
                with ((pre ++ [l; node]) ++ r :: post)
                by (rewrite <- app_assoc; reflexivity);
              apply remove_first_middle; set_solver]).
  all: step ltac:(apply get_field; cbn; read Hnode).
  all: rewrite Hparent.
  all: step ltac:(eapply removeChild_run;
             [cbn; read Hp
             |cbn; rewrite <- app_assoc; cbn [app];
              apply remove_first_middle; done]).
  all: do 2 step ltac:(apply modify_run).
  all: step ltac:(apply make_sibling_run).
  all: do 2 step ltac:(apply modify_run).
  all: unfold addChild, update.
  all: step ltac:(apply modify_run).
  all: rewrite modify_run.
  all: reflexivity.
Qed.

(** Every field of every object after the round. *)
Lemma bf_fields :
  let h' := binary_fold_store node l r p pre post (nodes w) in
  (forall q, children <$> h' !! q
             = if decide (q = p) then Some (pre ++ node :: post)
               else if decide (q = node) then Some (children nop ++ [l; r])
               else children <$> nodes w !! q)
  /\ (forall q, parent <$> h' !! q
                = if decide (q = l) then Some (Some node)
                  else if decide (q = r) then Some (Some node)
                  else parent <$> nodes w !! q)
  /\ (forall q, lsb <$> h' !! q
                = if decide (q = node) then Some (last pre)
                  else if decide (q = l) then Some None
                  else if decide (q = r) then Some (Some l)
                  else if decide (head post = Some q) then Some (Some node)
                  else lsb <$> nodes w !! q)
  /\ (forall q, rsb <$> h' !! q
                = if decide (q = node) then Some (head post)
                  else if decide (q = l) then Some (Some r)
                  else if decide (q = r) then Some None
                  else if decide (last pre = Some q) then Some (Some node)
                  else rsb <$> nodes w !! q).
Proof.
  destruct bf_distinct as (D1 & D2 & D3 & D4 & D5 & D6 & D7 & D8 & Dy & Dx).
  destruct bf_valid as [Hvy Hvx].
  unfold binary_fold_store, sibling_store.
  destruct (head post) as [x|] eqn:Ex; destruct (last pre) as [y|] eqn:Ey.
  all: try (destruct (Dx x eq_refl) as (X1 & X2 & X3 & X4);
            destruct (Hvx x eq_refl) as [nx Hx]).
  all: try (destruct (Dy y eq_refl) as (Y1 & Y2 & Y3 & Y4);
            destruct (Hvy y eq_refl) as [ny Hy]).
  all: cbn zeta.
  all: split; [|split; [|split]]; intros q.
  all: repeat match goal with
         | |- context [decide (Some ?a = Some ?q)] =>
             destruct (decide (Some a = Some q)) as [[= <-]|?]
         | |- context [decide (None = Some ?q)] =>
             rewrite (decide_False (P := None = Some q)) by done
         | |- context [decide (?q = ?a)] =>
             destruct (decide (q = a)) as [->|?]
         end.
  all: try congruence.
  all: repeat match goal with
              | H : Some ?a <> Some ?q |- _ =>
                  assert (a <> q) by congruence; clear H
              end.
  all: peel.
  all: rewrite ?Hnode, ?Hp, ?Hl, ?Hr, ?Hx, ?Hy; cbn.
  all: rewrite <- ?app_assoc; try done.
Qed.

(** What the round leaves, read at the operator, its operands and their
    neighbours. *)
Lemma bf_run :
  exists w',
    fold_binary_op node l r w = (Ret tt, w')
    /\ out w' = out w
    /\ children <$> nodes w' !! node = Some (children nop ++ [l; r])
    /\ children <$> nodes w' !! p = Some (pre ++ [node] ++ post)
    /\ parent <$> nodes w' !! l = Some (Some node)
    /\ parent <$> nodes w' !! r = Some (Some node)
    /\ lsb <$> nodes w' !! l = Some None
    /\ rsb <$> nodes w' !! l = Some (Some r)
    /\ lsb <$> nodes w' !! r = Some (Some l)
    /\ rsb <$> nodes w' !! r = Some None
    /\ lsb <$> nodes w' !! node = Some (last pre)
    /\ rsb <$> nodes w' !! node = Some (head post)
    /\ (forall y, last pre = Some y ->
          rsb <$> nodes w' !! y = Some (Some node))
    /\ (forall x, head post = Some x ->
          lsb <$> nodes w' !! x = Some (Some node)).
Proof.
  destruct bf_distinct as (D1 & D2 & D3 & D4 & D5 & D6 & D7 & D8 & Dy & Dx).
  destruct bf_fields as (F1 & F2 & F3 & F4).
  eexists. split; [exact bf_exec|]. cbn [nodes out].
  split; [done|].
  rewrite (F1 node), (F1 p), (F2 l), (F2 r), (F3 l), (F4 l), (F3 r), (F4 r),
    (F3 node), (F4 node).
  do 10 (split; [repeat case_decide; first [done|congruence]|]).
  split.
  - intros y Hy. destruct (Dy y Hy) as (Y1 & Y2 & Y3 & Y4).
    rewrite (F4 y). repeat case_decide; congruence.
  - intros x Hx. destruct (Dx x Hx) as (X1 & X2 & X3 & X4).
    rewrite (F3 x). repeat case_decide; congruence.
Qed.

End BinaryFold.

Lemma fold_binary_app (ops1 ops2 : list nat) (w : world) :
  fold_binary (ops1 ++ ops2) w = (fold_binary ops1 ;;; fold_binary ops2) w.
Proof.
  revert w. induction ops1 as [|op ops1 IH]; intros w.
  - reflexivity.
  - cbn [fold_binary app]. rewrite bind_assoc.
    apply bind_cong. intros r w1. rewrite bind_assoc.
    apply bind_cong. intros l w2.
    destruct r as [ri|], l as [li|].
    2-4: unfold bind, print; cbn;
      destruct (get parent (Some op) _) as [[p|e] w3]; reflexivity.
    rewrite bind_assoc. apply bind_cong. intros _ w3. apply IH.
Qed.

(** C2, as amended: the second pass folds the binary operators only when
    its loop over the unary operators ends without its [return]: when a
    unary operator has no right sibling the pass ends there, in the store
    that loop left.  Otherwise, when the rounds for the binary operators
    recorded before [node] have ended, let [node], childless as it was
    made, stand between [l] and [r] among the children
    [pre ++ [l; node; r] ++ post] of its parent [p], the sibling links
    agreeing with that list.  The round for [node] succeeds and leaves
    [node] with the children [l; r] in that order, [p] with the children
    [pre ++ [node] ++ post], [l] and [r] owned by [node] and linked to each
    other only, and [node] linked both ways to the last of [pre] and the
    first of [post]; the pass goes on with the operators recorded after
    [node]. *)
Theorem C2_binary_fold_absorbs_siblings
  (st : cstate) (w w1 : world) (returned : bool) :
  fold_unary (unary_logic_ops st) w = (Ret returned, w1) ->
  if returned then fold_logic_ops st w = (Ret tt, w1)
  else
    forall (before rest : list nat) (node l r p : nat) (w2 : world)
           (nop np nl nr : Node) (pre post : list nat),
      binary_logic_ops st = before ++ node :: rest ->
      fold_binary before w1 = (Ret tt, w2) ->
      nodes w2 !! node = Some nop ->
      nodes w2 !! p = Some np ->
      nodes w2 !! l = Some nl ->
      nodes w2 !! r = Some nr ->
      parent nop = Some p ->
      lsb nop = Some l ->
      rsb nop = Some r ->
      children nop = [] ->
      children np = pre ++ [l; node; r] ++ post ->
      NoDup (p :: children np) ->
      Forall (fun i => i < length (nodes w2)) (children np) ->
      lsb nl = last pre ->
      rsb nr = head post ->
      exists w',
        fold_logic_ops st w = fold_binary rest w'
        /\ out w' = out w2
        /\ children <$> nodes w' !! node = Some [l; r]
        /\ children <$> nodes w' !! p = Some (pre ++ [node] ++ post)
        /\ parent <$> nodes w' !! l = Some (Some node)
        /\ parent <$> nodes w' !! r = Some (Some node)
        /\ lsb <$> nodes w' !! l = Some None
        /\ rsb <$> nodes w' !! l = Some (Some r)
        /\ lsb <$> nodes w' !! r = Some (Some l)
        /\ rsb <$> nodes w' !! r = Some None
        /\ lsb <$> nodes w' !! node = Some (last pre)
        /\ rsb <$> nodes w' !! node = Some (head post)
        /\ (forall y, last pre = Some y ->
              rsb <$> nodes w' !! y = Some (Some node))
        /\ (forall x, head post = Some x ->
              lsb <$> nodes w' !! x = Some (Some node)).
Proof.
  intros Hu. destruct returned.
  { unfold fold_logic_ops. by rewrite (bind_run _ _ _ _ _ Hu). }
  intros before rest node l r p w2 nop np nl nr pre post
         Hst Hb Hnode Hp Hl Hr Hpar Hlsb Hrsb Hnil Hch Hnd Hvalid Hll Hrr.
  destruct (bf_run node l r p w2 nop np nl nr pre post
              Hnode Hp Hl Hr Hpar Hch Hnd Hll Hrr Hvalid)
    as (w' & Hrun & Hrest).
  exists w'. split; [|by rewrite Hnil in Hrest].
  unfold fold_logic_ops. rewrite (bind_run _ _ _ _ _ Hu), Hst.
  rewrite fold_binary_app, (bind_run _ _ _ _ _ Hb).
  cbn [fold_binary].
  rewrite (bind_run _ _ w2 w2 (rsb nop)) by (by apply get_run).
  rewrite (bind_run _ _ w2 w2 (lsb nop)) by (by apply get_run).
  rewrite Hlsb, Hrsb. by rewrite (bind_run _ _ _ _ _ Hrun).
Qed.

(** C2, witness: the [-or] of [find . -name a -or -name b], in the store
    the walk leaves. *)
Lemma C2_binary_fold_absorbs_siblings_witness :
  exists w',
    fold_logic_ops (mkC (Some 7) false false [] [5]) Sample.find_or_walked
    = fold_binary [] w'
    /\ out w' = out Sample.find_or_walked
    /\ children <$> nodes w' !! 5 = Some [3; 6]
    /\ children <$> nodes w' !! 1 = Some ([2] ++ [5] ++ [])
    /\ parent <$> nodes w' !! 3 = Some (Some 5)
    /\ parent <$> nodes w' !! 6 = Some (Some 5)
    /\ lsb <$> nodes w' !! 3 = Some None
    /\ rsb <$> nodes w' !! 3 = Some (Some 6)
    /\ lsb <$> nodes w' !! 6 = Some (Some 3)
    /\ rsb <$> nodes w' !! 6 = Some None
    /\ lsb <$> nodes w' !! 5 = Some (last [2])
    /\ rsb <$> nodes w' !! 5 = Some (head [])
    /\ (forall y, last [2] = Some y -> rsb <$> nodes w' !! y = Some (Some 5))
    /\ (forall x, head [] = Some x -> lsb <$> nodes w' !! x = Some (Some 5)).
Proof.
  apply (C2_binary_fold_absorbs_siblings
           (mkC (Some 7) false false [] [5])
           Sample.find_or_walked Sample.find_or_walked false eq_refl
           [] [] 5 3 6 1 Sample.find_or_walked
           (mkNode (Some 1) (Some 3) (Some 6) "binarylogicop" "-or" [])
           (mkNode (Some 0) None None "headcommand" "find" [2; 3; 5; 6])
           (mkNode (Some 1) (Some 2) (Some 5) "flag" "-name" [4])
           (mkNode (Some 1) (Some 5) None "flag" "-name" [7])
           [2] []); try reflexivity.
  - apply (bool_decide_unpack _). vm_compute. exact I.
  - apply (bool_decide_unpack _). vm_compute. exact I.
Defined.

(** C2, counterexample: in [find . -name a -or -name b -not] the recorded
    [-or] stands between the two [-name] flags when the second pass
    starts, and the pass, which returns at the [-not] without a right
    sibling, leaves it so: no children, and both flags still its
    siblings under [find]. *)
Lemma C2_counterexample :
  let cmd := "find . -name a -or -name b -not" in
  let walk :=
    foldM (fun st child =>
             command_step Sample.is_headcommand Sample.is_option
               (Sample.command Sample.dangling_not)
               (normalize Sample.is_headcommand Sample.is_option
                          Sample.digit_fold cmd true child)
               child st)
          Sample.dangling_not (init_cstate (Some 0))
          (mkWorld [mkNode None None None "root" "" []] []) in
  let r := Sample.run [Sample.command Sample.dangling_not] cmd in
  fst walk = Ret (mkC (Some 1) false false [8] [5])
  /\ nodes (snd walk) !! 5
     = Some (mkNode (Some 1) (Some 3) (Some 6) "binarylogicop" "-or" [])
  /\ fst r = Ret (Some 0)
  /\ nodes (snd r) !! 5
     = Some (mkNode (Some 1) (Some 3) (Some 6) "binarylogicop" "-or" [])
  /\ children <$> nodes (snd r) !! 1 = Some [2; 3; 5; 6; 8].
Proof. vm_compute. repeat split; reflexivity. Qed.

(** The whole run on that command. *)
Example find_or_normalized :
  Sample.result_tree
    (Sample.run [Sample.command Sample.find_or] "find . -name a -or -name b")
  = Some (T "root" ""
            [T "headcommand" "find"
               [T "argument" "." [];
                T "binarylogicop" "-or"
                  [T "flag" "-name" [T "argument" "a" []];
                   T "flag" "-name" [T "argument" "b" []]]]]).
Proof. vm_compute. reflexivity. Qed.

(** ** De-linearization *)

Lemma attach_store_parent_other node p h j :
  j <> node -> parent <$> attach_store node p h !! j = parent <$> h !! j.
Proof.
  intros Hne. unfold attach_store. destruct (_ ≫= _); peel; done.
Qed.

Lemma attach_store_shape_other node p h j :
  j <> p -> shape <$> attach_store node p h !! j = shape <$> h !! j.
Proof.
  intros Hne. unfold attach_store. destruct (_ ≫= _); peel; done.
Qed.

Lemma fmap_lookup_Some {B} (g : Node -> B) (h : list Node) (j : nat) (v : B) :
  g <$> h !! j = Some v -> exists n, h !! j = Some n /\ g n = v.
Proof. destruct (h !! j) as [n|]; cbn; [|done]. intros [= <-]. eauto. Qed.

Lemma parents_within_attach lo h k v c :
  parents_within lo h -> lo <= c < length h ->
  parents_within lo
    (attach_store (length h) c (h ++ [mkNode None None None k v []])).
Proof.
  intros Hinv Hc j n Hj Hn.
  rewrite attach_store_length, length_app. cbn.
  destruct (decide (j = length h)) as [->|Hne].
  - pose proof (attach_store_parent_node (length h) c
                  (h ++ [mkNode None None None k v []])) as E.
    rewrite Hn, lookup_new in E. cbn in E. injection E as ->. lia.
  - pose proof (attach_store_parent_other (length h) c
                  (h ++ [mkNode None None None k v []]) j Hne) as E.
    rewrite Hn in E. cbn in E. symmetry in E.
    apply fmap_lookup_Some in E as (n0 & Hn0 & Hpar).
    assert (Hlt : j < length h).
    { apply lookup_lt_Some in Hn0. rewrite length_app in Hn0. cbn in Hn0. lia. }
    rewrite lookup_app_l in Hn0 by done.
    specialize (Hinv j n0 Hj Hn0). rewrite Hpar in Hinv.
    destruct (parent n); [lia|done].
Qed.

Lemma list_to_tree_loop_total lo l :
  forallb well_formed_symbol l = true ->
  forall h o cur,
    parents_within lo h ->
    match cur with
    | None => True
    | Some c => lo <= c < length h
    end ->
    exists h', list_to_tree_loop l cur (mkWorld h o) = (Ret tt, mkWorld h' o).
Proof.
  induction l as [|s l IH]; intros Hwf h o cur Hinv Hcur.
  - eexists. reflexivity.
  - cbn in Hwf. apply andb_prop in Hwf as [Hs Hl].
    destruct cur as [c|]; [|eexists; reflexivity].
    cbn [list_to_tree_loop].
    destruct (s =? NO_EXPAND) eqn:Es.
    + destruct (h !! c) as [nc|] eqn:Ec;
        [|apply lookup_ge_None in Ec; lia].
      rewrite (bind_run _ _ _ _ (parent nc)) by (by apply get_run).
      apply IH; [done..|].
      specialize (Hinv c nc (proj1 Hcur) Ec). by destruct (parent nc).
    + unfold well_formed_symbol in Hs. rewrite Es in Hs. cbn in Hs.
      destruct (Str.split1 "_" s) as [k [v|]]; [|done].
      unfold bind at 1, new_node. cbn [nodes out].
      rewrite (bind_run _ _ _ _ tt)
        by (apply attach_to_tree_run; cbn; rewrite length_app; cbn; lia).
      cbn [nodes out].
      apply IH; [done|by apply parents_within_attach|].
      rewrite attach_store_length, length_app. cbn. lia.
Qed.

(** C6, counterexample: a sequence that ends two levels below the root,
    and one that ascends from the root and goes on, both return a tree and
    report nothing. *)
Lemma C6_counterexample :
  let open_ended := list_to_tree ["ROOT_"; "FLAG_-a"; "ARGUMENT_x"] "dfs"
                                 empty_world in
  let underflow := list_to_tree ["ROOT_"; NO_EXPAND; NO_EXPAND; "FLAG_-a"]
                                "dfs" empty_world in
  fst open_ended = Ret 0
  /\ view 3 (nodes (snd open_ended)) 0
     = Some (T "root" "root" [T "flag" "-a" [T "argument" "x" []]])
  /\ out (snd open_ended) = []
  /\ fst underflow = Ret 0
  /\ view 3 (nodes (snd underflow)) 0 = Some (T "root" "root" [])
  /\ out (snd underflow) = [].
Proof. vm_compute. repeat split; reflexivity. Qed.


(** ** Linearization, and the round trip *)

Lemma tree_induction (P : tree -> Prop) :
  (forall k v ts, Forall P ts -> P (T k v ts)) -> forall t, P t.
Proof.
  intros H. fix IH 1. intros [k v ts]. apply H.
  induction ts as [|t ts IHts]; constructor; [apply IH|apply IHts].
Qed.

Lemma to_list_acc (t : tree) :
  forall acc, to_list t "dfs" acc = acc ++ to_list t "dfs" [].
Proof.
  induction t as [k v ts IH] using tree_induction. intros acc. cbn.
  assert (H : forall a b,
    fold_left (fun acc' child => to_list child "dfs" acc') ts (a ++ b)
    = a ++ fold_left (fun acc' child => to_list child "dfs" acc') ts b).
  { induction IH as [|t ts Ht Hts IHts]; intros a b; [done|].
    cbn. rewrite (Ht (a ++ b)), (Ht b), <- app_assoc. apply IHts. }
  rewrite (H acc [symbol_of k v]). by rewrite <- app_assoc.
Qed.

Lemma fold_flat (ts : list tree) (acc : list string) :
  fold_left (fun acc' child => to_list child "dfs" acc') ts acc
  = acc ++ flat ts.
Proof.
  revert acc. induction ts as [|t ts IH]; intros acc; cbn.
  - by rewrite app_nil_r.
  - rewrite IH, to_list_acc, <- app_assoc. reflexivity.
Qed.

Lemma to_list_unfold k v ts :
  to_list (T k v ts) "dfs" [] = symbol_of k v :: flat ts ++ [NO_EXPAND].
Proof. cbn. rewrite fold_flat. reflexivity. Qed.

Lemma upper_char_underscore (c : ascii) :
  Ascii.eqb "_" (Str.upper_char c) = Ascii.eqb "_" c.
Proof. destruct c as [[] [] [] [] [] [] [] []]; reflexivity. Qed.

Lemma split1_cons (x d : ascii) (r : string) :
  Str.split1 x (String d r)
  = if Ascii.eqb x d then (EmptyString, Some r)
    else let '(a, b) := Str.split1 x r in (String d a, b).
Proof. reflexivity. Qed.

Lemma contains_char_cons (x d : ascii) (r : string) :
  Str.contains_char x (String d r) = Ascii.eqb x d || Str.contains_char x r.
Proof. reflexivity. Qed.

Lemma split1_symbol (k v : string) :
  Str.contains_char "_" k = false ->
  Str.split1 "_" (symbol_of k v) = (Str.upper k, Some v).
Proof.
  unfold symbol_of. induction k as [|c k IH]; intros Hk.
  - reflexivity.
  - rewrite contains_char_cons in Hk. apply orb_false_elim in Hk as [Hc Hk].
    change (Str.split1 "_"
              (String (Str.upper_char c) (Str.upper k ++ "_" ++ v)%string)
            = (String (Str.upper_char c) (Str.upper k), Some v)).
    rewrite split1_cons, upper_char_underscore, Hc, (IH Hk). reflexivity.
Qed.

Lemma view_intro (h : list Node) (i : nat) (n : Node) (ts : list tree) :
  h !! i = Some n ->
  Forall2 (holds h) (children n) ts ->
  holds h i (T (kind n) (value n) ts).
Proof.
  intros Hn Hts fuel Hf. destruct fuel as [|f]; [cbn in Hf; lia|].
  cbn [view]. rewrite Hn.
  assert (E : mapM (view f h) (children n) = Some ts).
  { apply mapM_Some. cbn in Hf. apply Nat.succ_le_mono in Hf.
    revert Hf. induction Hts as [|c t cs ts' Hc Hcs IH]; intros Hf;
      constructor; cbn in Hf.
    - apply Hc. lia.
    - apply IH. lia. }
  by rewrite E.
Qed.

Lemma view_stable (lo : nat) (h h' : list Node) :
  (forall j, lo <= j -> j < length h -> shape <$> h' !! j = shape <$> h !! j) ->
  increasing lo h ->
  forall fuel i t, lo <= i -> view fuel h i = Some t -> view fuel h' i = Some t.
Proof.
  intros Hag Hinc. induction fuel as [|f IH]; intros i t Hi Hv; [done|].
  cbn [view] in *. destruct (h !! i) as [n|] eqn:En; [|done].
  pose proof (Hag i Hi (lookup_lt_Some _ _ _ En)) as E.
  rewrite En in E. cbn in E.
  apply fmap_lookup_Some in E as (n' & -> & Hs).
  unfold shape in Hs. injection Hs as Hk Hv' Hc. rewrite Hk, Hv', Hc.
  destruct (mapM (view f h) (children n)) as [cs|] eqn:Em; [|done].
  apply mapM_Some in Em.
  assert (Em' : mapM (view f h') (children n) = Some cs).
  { apply mapM_Some. specialize (Hinc i n Hi En).
    clear Hv En Hc Hk Hv'. revert Hinc.
    induction Em as [|c t' cs' ts' Hc' Hcs IHf]; intros Hinc; constructor.
    - apply IH; [|done]. apply Forall_cons in Hinc as [Hlt _]. lia.
    - apply IHf. by apply Forall_cons in Hinc as [_ ?]. }
  by rewrite Em'.
Qed.

Lemma holds_stable (lo : nat) (h h' : list Node) (i : nat) (t : tree) :
  (forall j, lo <= j -> j < length h -> shape <$> h' !! j = shape <$> h !! j) ->
  increasing lo h -> lo <= i -> holds h i t -> holds h' i t.
Proof.
  intros Hag Hinc Hi Ht fuel Hf. eapply view_stable; eauto.
Qed.

Lemma forest_nil : rebuilt_forest [].
Proof.
  intros h o c rest cs Hc Hcs. exists h, []. cbn [flat flat_map app].
  rewrite app_nil_r. repeat split; try done.
  intros j n Hj Hn. apply lookup_lt_Some in Hn. lia.
Qed.

Lemma Forall2_Forall_impl {A B} (P Q : A -> B -> Prop) (R : A -> Prop)
  (l : list A) (k : list B) :
  (forall a b, R a -> P a b -> Q a b) ->
  Forall R l -> Forall2 P l k -> Forall2 Q l k.
Proof.
  intros H HR HP. induction HP; constructor.
  - apply H; [|done]. by apply Forall_cons in HR as [? _].
  - apply IHHP. by apply Forall_cons in HR as [_ ?].
Qed.

Lemma forest_app (ts1 ts2 : list tree) :
  rebuilt_forest ts1 -> rebuilt_forest ts2 -> rebuilt_forest (ts1 ++ ts2).
Proof.
  intros H1 H2 h o c rest cs Hc Hcs.
  destruct (H1 h o c (flat ts2 ++ rest) cs Hc Hcs)
    as (h1 & ids1 & R1 & L1 & S1 & P1 & K1 & V1 & C1 & T1 & I1 & N1).
  destruct (H2 h1 o c rest (cs ++ ids1) ltac:(lia) C1)
    as (h2 & ids2 & R2 & L2 & S2 & P2 & K2 & V2 & C2 & T2 & I2 & N2).
  exists h2, (ids1 ++ ids2).
  split.
  { replace (flat (ts1 ++ ts2)) with (flat ts1 ++ flat ts2)
      by (unfold flat; by rewrite flat_map_app).
    by rewrite <- app_assoc, R1. }
  split; [lia|].
  split. { intros j Hj Hne. rewrite S2, S1 by (done || lia). done. }
  split. { intros j Hj. rewrite P2, P1 by (done || lia). done. }
  split; [by rewrite K2|]. split; [by rewrite V2|].
  split; [by rewrite C2, app_assoc|].
  split.
  { apply Forall2_app; [|done].
    eapply Forall2_Forall_impl; [|exact I1|exact T1].
    intros i t Hi Ht. apply (holds_stable (length h) h1 h2); try done.
    intros j Hj1 Hj2. apply S2; lia. }
  split.
  { apply Forall_app. split; [done|].
    eapply Forall_impl; [exact I2|]. cbn. intros; lia. }
  intros j n Hj Hn. destruct (decide (j < length h1)) as [Hlt|Hge].
  - pose proof (S2 j Hlt ltac:(lia)) as E. rewrite Hn in E. cbn in E.
    symmetry in E. apply fmap_lookup_Some in E as (n1 & Hn1 & Hs).
    injection Hs as _ _ <-. by apply (N1 j n1).
  - apply (N2 j n); [lia|done].
Qed.

Lemma readable_inv (k v : string) :
  readable k v = true ->
  Str.contains_char "_" k = false
  /\ Str.lower (Str.upper k) = k
  /\ (symbol_of k v =? NO_EXPAND) = false.
Proof.
  unfold readable. intros H.
  apply andb_prop in H as [H H3]. apply andb_prop in H as [H1 H2].
  apply negb_true_iff in H1, H3. apply String.eqb_eq in H2. done.
Qed.

Lemma forest_node (k v : string) (ts : list tree) :
  readable k v = true -> rebuilt_forest ts -> rebuilt_forest [T k v ts].
Proof.
  intros Hread Hts h o c rest cs Hc Hcs.
  apply readable_inv in Hread as (Hu & Hlow & Hne).
  set (new := mkNode None None None k v []).
  set (h1 := attach_store (length h) c (h ++ [new])).
  assert (Hlen1 : length h1 = S (length h)).
  { unfold h1. rewrite attach_store_length, length_app. cbn. lia. }
  assert (Hold : forall j, j < length h -> (h ++ [new]) !! j = h !! j).
  { intros j Hj. by apply lookup_app_l. }
  assert (Hk1 : kind <$> h1 !! length h = Some k).
  { unfold h1. by rewrite attach_store_kind, lookup_new. }
  assert (Hv1 : value <$> h1 !! length h = Some v).
  { unfold h1. by rewrite attach_store_value, lookup_new. }
  assert (Hc1 : children <$> h1 !! length h = Some []).
  { unfold h1. rewrite attach_store_children_other by lia.
    by rewrite lookup_new. }
  assert (Hp1 : parent <$> h1 !! length h = Some (Some c)).
  { unfold h1. by rewrite attach_store_parent_node, lookup_new. }
  destruct (Hts h1 o (length h) (NO_EXPAND :: rest) [] ltac:(lia) Hc1)
    as (h2 & ids & R2 & L2 & S2 & P2 & K2 & V2 & C2 & T2 & I2 & N2).
  exists h2, [length h].
  split.
  { cbn [flat flat_map]. rewrite app_nil_r, to_list_unfold.
    cbn [app list_to_tree_loop]. rewrite Hne, (split1_symbol k v Hu), Hlow.
    unfold bind at 1, new_node. cbn [nodes out]. fold new.
    erewrite bind_run
      by (apply attach_to_tree_run; cbn; rewrite length_app; cbn; lia).
    cbn [nodes out]. fold h1. rewrite <- app_assoc. cbn [app].
    rewrite R2. cbn [list_to_tree_loop].
    change (NO_EXPAND =? NO_EXPAND) with true. cbn match.
    erewrite bind_run
      by (apply get_field; cbn; rewrite P2 by lia; exact Hp1).
    reflexivity. }
  split; [lia|].
  split.
  { intros j Hj Hjc. rewrite S2 by lia. unfold h1.
    rewrite attach_store_shape_other by done. by rewrite Hold. }
  split.
  { intros j Hj. rewrite P2 by lia. unfold h1.
    rewrite attach_store_parent_other by lia. by rewrite Hold. }
  assert (Sc : shape <$> h2 !! c = shape <$> h1 !! c) by (apply S2; lia).
  assert (Hcn : exists nc, h !! c = Some nc /\ children nc = cs)
    by (by apply fmap_lookup_Some).
  destruct Hcn as (nc & Hnc & Hcc).
  assert (Hc1c : exists n1, h1 !! c = Some n1 /\ kind n1 = kind nc
                   /\ value n1 = value nc /\ children n1 = cs ++ [length h]).
  { pose proof (attach_store_kind (length h) c (h ++ [new]) c) as E1.
    pose proof (attach_store_value (length h) c (h ++ [new]) c) as E2.
    pose proof (attach_store_children_parent (length h) c (h ++ [new])) as E3.
    fold h1 in E1, E2, E3. rewrite Hold, Hnc in E1, E2, E3 by done.
    cbn in E1, E2, E3.
    apply fmap_lookup_Some in E1 as (n1 & Hn1 & E1).
    rewrite Hn1 in E2, E3. cbn in E2, E3.
    injection E2 as E2. injection E3 as E3. rewrite Hcc in E3. eauto. }
  destruct Hc1c as (n1 & Hn1 & Ek & Ev & Ech).
  rewrite Hn1 in Sc. cbn in Sc.
  apply fmap_lookup_Some in Sc as (n2 & Hn2 & Es).
  injection Es as Ek2 Ev2 Ech2.
  rewrite Hn2, Hnc. cbn.
  split; [congruence|]. split; [congruence|]. split; [congruence|].
  split.
  { constructor; [|constructor].
    rewrite Hk1 in K2. rewrite Hv1 in V2.
    apply fmap_lookup_Some in K2 as (m & Hm & Ekm).
    rewrite Hm in V2, C2. cbn in V2, C2.
    injection V2 as V2. injection C2 as C2.
    rewrite <- Ekm, <- V2. apply view_intro; [done|]. by rewrite C2. }
  split; [constructor; [lia|constructor]|].
  intros j n Hj Hn. destruct (decide (j = length h)) as [->|Hjn].
  - rewrite Hn in C2. cbn in C2. injection C2 as ->.
    eapply Forall_impl; [exact I2|]. cbn. intros; lia.
  - apply (N2 j n); [lia|done].
Qed.

Lemma forest_linearizable (ts : list tree) :
  forallb linearizable ts = true -> rebuilt_forest ts.
Proof.
  assert (H1 : forall t, linearizable t = true -> rebuilt_forest [t]).
  { induction t as [k v ts' IH] using tree_induction. intros Hl.
    cbn in Hl. apply andb_prop in Hl as [Hr Hts].
    apply forest_node; [done|]. clear Hr.
    induction IH as [|t ts'' Ht Hts' IHts]; [apply forest_nil|].
    cbn in Hts. apply andb_prop in Hts as [Hlt Hlts].
    apply (forest_app [t] ts''); auto. }
  induction ts as [|t ts IH]; intros Hl; [apply forest_nil|].
  cbn in Hl. apply andb_prop in Hl as [Hlt Hlts].
  apply (forest_app [t] ts); auto.
Qed.

Lemma round_trip_below_root (t : tree) (w : world) :
  forallb linearizable (tchildren t) = true ->
  exists w',
    list_to_tree (to_list t "dfs" []) "dfs" w = (Ret (length (nodes w)), w')
    /\ out w' = out w
    /\ holds (nodes w') (length (nodes w)) (T "root" "root" (tchildren t)).
Proof.
  destruct t as [k v ts]. destruct w as [h o]. cbn [tchildren nodes out].
  intros Hl. apply forest_linearizable in Hl.
  set (root := mkNode None None None "root" "root" []).
  destruct (Hl (h ++ [root]) o (length h) [NO_EXPAND] [])
    as (h' & ids & R & L & S & P & K & V & C & Ts & I & N).
  { rewrite length_app. cbn. lia. }
  { by rewrite lookup_new. }
  exists (mkWorld h' o). split; [|split; [reflexivity|]].
  - unfold list_to_tree. rewrite to_list_unfold. cbn [tl].
    unfold bind at 1, new_node. cbn [nodes out]. fold root.
    change ("dfs" =? "dfs") with true. cbn match.
    unfold bind at 1. rewrite R.
    cbn [list_to_tree_loop]. change (NO_EXPAND =? NO_EXPAND) with true.
    cbn match.
    erewrite bind_run.
    2:{ apply get_field. cbn. rewrite P by (rewrite length_app; cbn; lia).
        by rewrite lookup_new. }
    reflexivity.
  - cbn [nodes]. rewrite lookup_new in K, V. cbn in K, V.
    apply fmap_lookup_Some in K as (m & Hm & Ekm).
    rewrite Hm in V, C. cbn in V, C. injection V as V. injection C as C.
    replace (T "root" "root" ts) with (T (kind m) (value m) ts)
      by (by rewrite Ekm, V).
    apply view_intro; [done|]. by rewrite C.
Qed.

(** C3, counterexample: the tree of [find] has a root of value [""]; the
    tree read back from its linearization has a root of value ["root"]. *)
Lemma C3_counterexample :
  let original := T "root" "" [T "headcommand" "find" []] in
  let back := list_to_tree (to_list original "dfs" []) "dfs" empty_world in
  Sample.result_tree (Sample.run [Sample.command [Sample.word "find" 0 4]]
                                 "find")
  = Some original
  /\ to_list original "dfs" []
     = ["ROOT_"; "HEADCOMMAND_find"; NO_EXPAND; NO_EXPAND]
  /\ Sample.result_tree (Ret (Some 0), snd back)
     = Some (T "root" "root" [T "headcommand" "find" []])
  /\ T "root" "root" [T "headcommand" "find" []] <> original.
Proof. vm_compute. repeat split; congruence. Qed.

(** ** The exceptions of the tree builder *)

Lemma rnode_induction (P : rnode -> Prop) :
  (forall k w ps pos c,
      match ps with Some l => Forall P l | None => True end ->
      match c with Some n => P n | None => True end ->
      P (RNode k w ps pos c)) ->
  forall n, P n.
Proof.
  intros H. fix IH 1. intros [k w ps pos c]. apply H.
  - destruct ps as [l|]; [|exact I].
    induction l as [|a l IHl]; constructor; [apply IH|apply IHl].
  - destruct c as [n|]; [apply IH|exact I].
Qed.

Section Keeps.

Context {I : world -> Prop} {P : exn -> Prop}.

Lemma keeps_ret {A} (a : A) : keeps I P (ret a).
Proof. intros w r w' Hw [= <- <-]. done. Qed.

Lemma keeps_raise {A} (e : exn) : P e -> keeps I P (@raise A e).
Proof. intros He w r w' Hw [= <- <-]. done. Qed.

Lemma keeps_bind {A B} (m : M A) (k : A -> M B) :
  keeps I P m -> (forall a, keeps I P (k a)) -> keeps I P (bind m k).
Proof.
  intros Hm Hk w r w' Hw H. unfold bind in H.
  destruct (m w) as [[a|e] w1] eqn:E; destruct (Hm w _ w1 Hw E) as [Hw1 He].
  - by apply (Hk a w1 r w').
  - by injection H as <- <-.
Qed.

Lemma keeps_forM_ {A} (f : A -> M unit) (l : list A) :
  Forall (fun x => keeps I P (f x)) l -> keeps I P (forM_ f l).
Proof.
  induction 1 as [|x l Hx Hl IH]; cbn [forM_].
  - apply keeps_ret.
  - apply keeps_bind; [done|]. intros _. apply IH.
Qed.

Lemma keeps_foldM {A S} (f : S -> A -> M S) (l : list A) :
  Forall (fun x => forall s, keeps I P (f s x)) l ->
  forall s, keeps I P (foldM f l s).
Proof.
  induction 1 as [|x l Hx Hl IH]; intros s; cbn [foldM].
  - apply keeps_ret.
  - apply keeps_bind; [apply Hx|]. intros s'. apply IH.
Qed.

Hypothesis Pattr : P AttributeError.

Lemma keeps_deref r : keeps I P (deref r).
Proof.
  intros w x w' Hw H. unfold deref in H.
  destruct r as [i|]; [destruct (nodes w !! i)|]; by injection H as <- <-.
Qed.

Lemma keeps_attr {A} (o : option A) : keeps I P (attr o).
Proof. destruct o; [apply keeps_ret|by apply keeps_raise]. Qed.

End Keeps.

Create HintDb keeps discriminated.

#[local] Hint Resolve keeps_ret keeps_deref keeps_attr : keeps.
#[local] Hint Extern 1 (builder_fault _) => exact I : keeps.
#[local] Hint Extern 1 (keeps _ _ (raise _)) => apply keeps_raise : keeps.
#[local] Hint Extern 2 (keeps _ _ (bind _ _)) =>
  apply keeps_bind; [|intros ?] : keeps.
#[local] Hint Extern 3 (keeps _ _ (if ?b then _ else _)) => destruct b : keeps.
#[local] Hint Extern 3 (keeps _ _ (match ?x with _ => _ end)) =>
  destruct x : keeps.

Ltac keeps := auto 50 with keeps.

(** The tree builder keeps every property of the store that printing,
    writing a field other than [kind], and making an object of a readable
    kind keep. *)
Section Builder.

Variable I : world -> Prop.

Hypothesis I_print :
  forall w m, I w -> I (mkWorld (nodes w) (out w ++ [m])).
Hypothesis I_modify :
  forall w i f,
    (forall n, kind (f n) = kind n) ->
    I w -> I (mkWorld (alter f i (nodes w)) (out w)).
Hypothesis I_new :
  forall w k v,
    readable_kind k = true ->
    I w -> I (mkWorld (nodes w ++ [mkNode None None None k v []]) (out w)).

#[local] Abbreviation ok := (keeps I builder_fault).

Lemma keeps_print (m : msg) : ok (print m).
Proof. intros w r w' Hw [= <- <-]. split; [by apply I_print|done]. Qed.

Lemma keeps_modify i f : (forall n, kind (f n) = kind n) -> ok (modify i f).
Proof. intros Hf w r w' Hw [= <- <-]. split; [by apply I_modify|done]. Qed.

Lemma keeps_new_node k v : readable_kind k = true -> ok (new_node k v).
Proof. intros Hk w r w' Hw [= <- <-]. split; [by apply I_new|done]. Qed.

#[local] Hint Resolve keeps_print : keeps.
#[local] Hint Extern 1 (keeps _ _ (modify _ _)) =>
  apply keeps_modify; reflexivity : keeps.
#[local] Hint Extern 1 (keeps _ _ (new_node _ _)) =>
  apply keeps_new_node; first [assumption | reflexivity] : keeps.

Lemma keeps_get {A} (f : Node -> A) r : ok (get f r).
Proof. unfold get. keeps. Qed.
#[local] Hint Resolve keeps_get : keeps.

Lemma keeps_update r f : (forall n, kind (f n) = kind n) -> ok (update r f).
Proof. intros Hf. unfold update. destruct r; [by apply keeps_modify|keeps]. Qed.
#[local] Hint Extern 1 (keeps _ _ (update _ _)) =>
  apply keeps_update; reflexivity : keeps.

Lemma keeps_removeChild p c : ok (removeChild p c).
Proof. unfold removeChild. keeps. Qed.

Lemma keeps_attach_to_tree n p : ok (attach_to_tree n p).
Proof. unfold attach_to_tree, getRightChild, addChild. keeps. Qed.

Lemma keeps_make_sibling l r : ok (make_sibling l r).
Proof. unfold make_sibling. keeps. Qed.
#[local] Hint Resolve keeps_removeChild keeps_attach_to_tree
  keeps_make_sibling : keeps.

Lemma keeps_under_find p : ok (under_find p).
Proof. unfold under_find. keeps. Qed.
#[local] Hint Resolve keeps_under_find : keeps.

Lemma keeps_is_unary_logic_op w p : ok (is_unary_logic_op w p).
Proof. unfold is_unary_logic_op. keeps. Qed.

Lemma keeps_is_binary_logic_op w p : ok (is_binary_logic_op w p).
Proof. unfold is_binary_logic_op. keeps. Qed.

Lemma keeps_find_flag_attach_point a : ok (find_flag_attach_point a).
Proof. unfold find_flag_attach_point. keeps. Qed.

Lemma keeps_with_quotation n : ok (with_quotation n).
Proof. unfold with_quotation. keeps. Qed.
#[local] Hint Resolve keeps_is_unary_logic_op keeps_is_binary_logic_op
  keeps_find_flag_attach_point keeps_with_quotation : keeps.

Lemma keeps_fold_unary ops : ok (fold_unary ops).
Proof.
  induction ops as [|op ops IH]; cbn [fold_unary]; [keeps|].
  unfold fold_unary_op, addChild. keeps.
Qed.

Lemma keeps_fold_binary ops : ok (fold_binary ops).
Proof.
  induction ops as [|op ops IH]; cbn [fold_binary]; [keeps|].
  unfold fold_binary_op, addChild. keeps.
Qed.
#[local] Hint Resolve keeps_fold_unary keeps_fold_binary : keeps.

Lemma keeps_fold_logic_ops st : ok (fold_logic_ops st).
Proof. unfold fold_logic_ops. keeps. Qed.

Variables is_headcommand is_option : string -> bool.
Variable digit_fold : string -> string.
Variable cmd : string.
Variable nd : bool.

Lemma keeps_emit_leaf node current arg_type :
  readable_kind arg_type = true ->
  ok (emit_leaf is_option digit_fold cmd nd node current arg_type).
Proof.
  intros Hk. unfold emit_leaf, normalize_word, recover_quotation. keeps.
Qed.

Lemma keeps_command_step node norm child st :
  (forall r a, readable_kind a = true -> ok (norm r a)) ->
  ok (command_step is_headcommand is_option node norm child st).
Proof.
  intros Hnorm.
  assert (forall r, ok (norm r "flag")) by auto.
  assert (forall r, ok (norm r "headcommand")) by auto.
  assert (forall r, ok (norm r "argument")) by auto.
  assert (forall r, ok (norm r "assignment")) by auto.
  clear Hnorm.
  unfold command_step, end_of_command_ascent, command_token,
    attach_option, is_flag, getRightChild, getNumChildren.
  keeps.
Qed.

Lemma keeps_normalize node :
  forall current arg_type,
    readable_kind arg_type = true ->
    ok (normalize is_headcommand is_option digit_fold cmd nd
                  node current arg_type).
Proof.
  induction node as [k w ps pos c IHps IHc] using rnode_induction.
  intros current arg_type Hk. cbn [normalize].
  assert (Hparts : forall l cur,
    ps = Some l ->
    ok (forM_ (fun child => normalize is_headcommand is_option digit_fold
                              cmd nd child cur "") l)).
  { intros l cur ->. apply keeps_forM_.
    eapply Forall_impl; [exact IHps|]. cbn. auto. }
  pose proof (keeps_emit_leaf (RNode k w ps pos c) current arg_type Hk)
    as Hleaf.
  destruct (k =? "word").
  { destruct ps as [[|p0 l]|]; [keeps| |keeps].
    destruct (rkind p0 =? "processsubstitution"); [keeps|].
    destruct (rkind p0 =? "commandsubstitution"); [keeps|].
    destruct (_ || _); keeps. }
  destruct (k =? "pipeline").
  { apply keeps_bind; [keeps|]. intros norm_node.
    apply keeps_bind; [keeps|]. intros _.
    destruct ps as [l|]; [|keeps]. destruct (Nat.even _); [keeps|].
    apply keeps_forM_. eapply Forall_impl; [exact IHps|]. cbn.
    intros child Hchild. specialize (Hchild (Some norm_node) "" eq_refl).
    keeps. }
  destruct (k =? "list").
  { destruct ps as [l|]; [|keeps]. destruct (_ <? _)%nat; [keeps|].
    destruct l as [|p0 l]; [keeps|]. by apply (Forall_inv IHps). }
  destruct (_ || _).
  { destruct c as [n|]; [by apply IHc|keeps]. }
  destruct (k =? "command").
  { destruct ps as [l|]; [|keeps]. apply keeps_bind.
    - apply keeps_foldM. eapply Forall_impl; [exact IHps|]. cbn.
      intros child Hchild st. apply keeps_command_step. auto.
    - intros st. apply keeps_fold_logic_ops. }
  destruct ps as [l|]; [by apply Hparts|].
  unfold unsupported. keeps.
Qed.

End Builder.

(** The tree builder raises nothing but its own faults. *)
Lemma normalize_faults
  (is_headcommand is_option : string -> bool) (digit_fold : string -> string)
  (cmd : string) (nd : bool) (node : rnode) (current : option nat)
  (w w' : world) (e : exn) :
  normalize is_headcommand is_option digit_fold cmd nd node current "" w
  = (Exc e, w') ->
  builder_fault e.
Proof.
  intros H.
  by destruct (keeps_normalize (fun _ => True) ltac:(done) ltac:(done)
                 ltac:(done) is_headcommand is_option digit_fold cmd nd node
                 current "" eq_refl w _ w' Logic.I H).
Qed.

(** It makes objects of readable kinds only. *)
Lemma normalize_kinds
  (is_headcommand is_option : string -> bool) (digit_fold : string -> string)
  (cmd : string) (nd : bool) (node : rnode) (current : option nat)
  (w w' : world) (r : outcome unit) :
  kinds_readable w ->
  normalize is_headcommand is_option digit_fold cmd nd node current "" w
  = (r, w') ->
  kinds_readable w'.
Proof.
  intros Hw H.
  refine (proj1 (keeps_normalize kinds_readable _ _ _ is_headcommand is_option
                   digit_fold cmd nd node current "" eq_refl w _ w' Hw H)).
  - intros w0 m Hw0. exact Hw0.
  - intros w0 i f Hf Hw0. unfold kinds_readable in *. cbn.
    apply Forall_alter; [done|]. intros n Hn. by rewrite Hf.
  - intros w0 k v Hk Hw0. unfold kinds_readable in *. cbn.
    apply Forall_app. split; [done|]. by constructor.
Qed.

(** ** The kinds of the objects the tree builder makes *)

Lemma readable_kind_readable (k v : string) :
  readable_kind k = true -> readable k v = true.
Proof.
  unfold readable_kind, readable. intros H.
  apply andb_prop in H as [H H3]. apply andb_prop in H as [H1 H2].
  rewrite H1, H2. cbn. apply negb_true_iff in H1, H3.
  apply negb_true_iff. apply String.eqb_neq. intros E.
  pose proof (split1_symbol k v H1) as Hs. rewrite E in Hs.
  cbn in Hs. injection Hs as Hk _. apply String.eqb_neq in H3. congruence.
Qed.

Lemma view_linearizable (h : list Node) :
  Forall (fun n => readable_kind (kind n) = true) h ->
  forall fuel i t, view fuel h i = Some t -> linearizable t = true.
Proof.
  intros Hh. induction fuel as [|f IH]; intros i t Hv; [done|].
  cbn [view] in Hv. destruct (h !! i) as [n|] eqn:En; [|done].
  destruct (mapM (view f h) (children n)) as [cs|] eqn:Em; [|done].
  injection Hv as <-. cbn [linearizable].
  rewrite Forall_lookup in Hh. rewrite (readable_kind_readable _ _ (Hh i n En)).
  cbn. apply mapM_Some in Em. apply forallb_forall. intros t Ht.
  apply list_elem_of_In in Ht.
  clear En. induction Em as [|c t' cs' ts' Hc Hcs IHf]; [by apply elem_of_nil in Ht|].
  apply elem_of_cons in Ht as [->|Ht]; [by eapply IH|by apply IHf].
Qed.

Lemma normalize_ast_kinds
  (is_headcommand is_option : string -> bool) (digit_fold : string -> string)
  (parse : string -> exn + list rnode) (cmd : string) (nd rq : bool)
  (w w' : world) (r : outcome (option nat)) :
  kinds_readable w ->
  normalize_ast is_headcommand is_option digit_fold parse cmd nd rq w = (r, w') ->
  kinds_readable w'.
Proof.
  intros Hw. unfold normalize_ast, cannot_parse.
  destruct (_ =? ""); [by intros [= <- <-]|].
  destruct (parse _) as [e|roots];
    [destruct e; by intros [= <- <-]|].
  unfold bind at 1.
  assert (Hnote : forall (b : bool) (m : msg), exists w1,
    (if b then print m else ret tt) w = (Ret tt, w1) /\ kinds_readable w1).
  { intros [] m; eexists; split; try reflexivity; exact Hw. }
  match goal with
  | |- context [(if ?b then print ?m else ret tt) w] =>
      destruct (Hnote b m) as (w1 & -> & Hw1)
  end.
  unfold bind at 1, new_node.
  assert (Hw2 : kinds_readable
    (mkWorld (nodes w1 ++ [mkNode None None None "root" "" []]) (out w1))).
  { unfold kinds_readable in *. cbn. apply Forall_app. split; [done|].
    by constructor. }
  destruct roots as [|t0 roots]; [by intros [= <- <-]|].
  destruct (normalize _ _ _ _ _ t0 _ _ _) as [[[]|e] w3] eqn:En;
    pose proof (normalize_kinds _ _ _ _ _ _ _ _ _ _ Hw2 En) as Hw3.
  - by intros [= <- <-].
  - destruct e; by intros [= <- <-].
Qed.

(** C3, as amended: for every tree [t] that [normalize_ast] returns (from a
    store whose kinds are readable, the empty store for one),
    [list_to_tree] applied to [to_list t] returns a root of kind and value
    ["root"] whose children are the children of [t], node for node. *)
Theorem C3_round_trip_below_root
  (is_headcommand is_option : string -> bool) (digit_fold : string -> string)
  (parse : string -> exn + list rnode) (cmd : string) (nd rq : bool)
  (w w' : world) (root fuel : nat) (t : tree) (w0 : world) :
  kinds_readable w ->
  normalize_ast is_headcommand is_option digit_fold parse cmd nd rq w
  = (Ret (Some root), w') ->
  view fuel (nodes w') root = Some t ->
  exists w'',
    list_to_tree (to_list t "dfs" []) "dfs" w0 = (Ret (length (nodes w0)), w'')
    /\ out w'' = out w0
    /\ holds (nodes w'') (length (nodes w0)) (T "root" "root" (tchildren t)).
Proof.
  intros Hw Hrun Hview. apply round_trip_below_root.
  pose proof (normalize_ast_kinds _ _ _ _ _ _ _ _ _ _ Hw Hrun) as Hw'.
  pose proof (view_linearizable _ Hw' _ _ _ Hview) as Hl.
  destruct t as [k v ts]. cbn in Hl. by apply andb_prop in Hl as [_ ?].
Qed.

(** C3, witness: the tree of [find . -name a -or -name b]. *)
Lemma C3_round_trip_below_root_witness :
  exists w'',
    list_to_tree
      (to_list (T "root" ""
                  [T "headcommand" "find"
                     [T "argument" "." [];
                      T "binarylogicop" "-or"
                        [T "flag" "-name" [T "argument" "a" []];
                         T "flag" "-name" [T "argument" "b" []]]]])
               "dfs" []) "dfs" empty_world
    = (Ret (length (nodes empty_world)), w'')
    /\ out w'' = out empty_world
    /\ holds (nodes w'') (length (nodes empty_world))
         (T "root" "root"
            (tchildren
               (T "root" ""
                  [T "headcommand" "find"
                     [T "argument" "." [];
                      T "binarylogicop" "-or"
                        [T "flag" "-name" [T "argument" "a" []];
                         T "flag" "-name" [T "argument" "b" []]]]]))).
Proof.
  apply (C3_round_trip_below_root
           Sample.is_headcommand Sample.is_option Sample.digit_fold
           (Sample.parses_to [Sample.command Sample.find_or])
           "find . -name a -or -name b" true true empty_world
           (snd (Sample.run [Sample.command Sample.find_or]
                            "find . -name a -or -name b"))
           0 8 _ empty_world).
  - constructor.
  - vm_compute. reflexivity.
  - vm_compute. reflexivity.
Defined.

(** ** The links of the store *)

Lemma lookup_snoc_old (h : list Node) (x : Node) (q : nat) :
  q <> length h -> (h ++ [x]) !! q = h !! q.
Proof.
  intros Hq. destruct (decide (q < length h)) as [Hlt|Hge].
  - by apply lookup_app_l.
  - rewrite !lookup_ge_None_2; [done|lia|rewrite length_app; cbn; lia].
Qed.

(** Every field of every object after a fresh object is attached. *)
Lemma attach_fresh_fields (h : list Node) (k v : string) (p : nat)
  (cs : list nat) :
  children <$> h !! p = Some cs ->
  Forall (fun c => c < length h) cs ->
  let n := length h in
  let h' := attach_store n p (h ++ [mkNode None None None k v []]) in
  (forall q, children <$> h' !! q
             = if decide (q = p) then Some (cs ++ [n])
               else if decide (q = n) then Some []
               else children <$> h !! q)
  /\ (forall q, parent <$> h' !! q
                = if decide (q = n) then Some (Some p) else parent <$> h !! q)
  /\ (forall q, lsb <$> h' !! q
                = if decide (q = n) then Some (last cs) else lsb <$> h !! q)
  /\ (forall q, rsb <$> h' !! q
                = if decide (q = n) then Some None
                  else if decide (last cs = Some q) then Some (Some n)
                  else rsb <$> h !! q).
Proof.
  intros Hcs Hvalid n h'.
  assert (Hp : p < length h).
  { apply fmap_lookup_Some in Hcs as (np & Hnp & _).
    by apply lookup_lt_Some in Hnp. }
  assert (Hpn : p <> n) by (subst n; lia).
  assert (Hl : (alter (set_parent (Some p)) n
                  (h ++ [mkNode None None None k v []]) !! p)
               ≫= (fun x => last (children x)) = last cs).
  { rewrite list_lookup_alter_ne by done. rewrite lookup_snoc_old by done.
    apply fmap_lookup_Some in Hcs as (np & -> & <-). done. }
  assert (Hli : forall li, last cs = Some li -> li < length h).
  { intros li Hli. rewrite Forall_forall in Hvalid. apply Hvalid.
    apply last_Some in Hli as [l' ->]. set_solver. }
  subst h'. unfold attach_store. rewrite Hl.
  split; [|split; [|split]]; intros q.
  - destruct (decide (q = p)) as [->|Hqp].
    + destruct (fmap_lookup_Some _ _ _ _ Hcs) as (np & Hnp & Ecs).
      destruct (last cs); peel; rewrite lookup_snoc_old by done;
        rewrite Hnp; cbn; by rewrite Ecs.
    + destruct (decide (q = n)) as [->|Hqn].
      * destruct (last cs); peel; subst n; by rewrite lookup_new.
      * destruct (last cs); peel; by rewrite lookup_snoc_old.
  - destruct (decide (q = n)) as [->|Hqn].
    + destruct (last cs); peel; subst n; by rewrite lookup_new.
    + destruct (last cs); peel; by rewrite lookup_snoc_old.
  - destruct (decide (q = n)) as [->|Hqn].
    + destruct (last cs); peel; subst n; by rewrite lookup_new.
    + destruct (last cs); peel; by rewrite lookup_snoc_old.
  - destruct (decide (q = n)) as [->|Hqn].
    + destruct (last cs) as [li|] eqn:El.
      * specialize (Hli li eq_refl).
        rewrite list_lookup_alter_ne by (subst n; lia).
        peel. subst n. by rewrite lookup_new.
      * peel. subst n. by rewrite lookup_new.
    + destruct (last cs) as [li|] eqn:El.
      * destruct (decide (Some li = Some q)) as [[= ->]|Hne].
        -- specialize (Hli q eq_refl). rewrite field_alter_eq. cbn.
           peel. rewrite lookup_snoc_old by done.
           destruct (h !! q) eqn:Eq; [done|].
           apply lookup_ge_None in Eq. lia.
        -- rewrite list_lookup_alter_ne by congruence.
           peel. by rewrite lookup_snoc_old.
      * rewrite decide_False by done. peel. by rewrite lookup_snoc_old.
Qed.

Lemma linked_children_valid (h : list Node) (p : nat) (cs : list nat) :
  linked h -> children <$> h !! p = Some cs ->
  Forall (fun c => c < length h) cs.
Proof.
  intros Hl Hcs. apply Forall_forall. intros c Hc.
  apply list_elem_of_split in Hc as (pre & post & ->).
  destruct (linked_child h Hl p _ pre c post Hcs eq_refl) as (_ & Hp & _).
  apply fmap_lookup_Some in Hp as (nc & Hnc & _).
  by apply lookup_lt_Some in Hnc.
Qed.

Lemma snoc_split (cs pre post : list nat) (n c : nat) :
  cs ++ [n] = pre ++ c :: post ->
  (post = [] /\ pre = cs /\ c = n)
  \/ (exists post', post = post' ++ [n] /\ cs = pre ++ c :: post').
Proof.
  intros E. destruct post as [|x post _] using rev_ind.
  - left. apply app_inj_tail in E as [-> ->]. done.
  - right. exists post.
    change (pre ++ c :: post ++ [x]) with (pre ++ (c :: post) ++ [x]) in E.
    rewrite app_assoc in E. apply app_inj_tail in E as [-> ->]. done.
Qed.

Lemma last_middle_ne (pre post : list nat) (c x : nat) :
  NoDup (pre ++ c :: x :: post) -> last (pre ++ c :: x :: post) <> Some c.
Proof.
  intros Hnd Hl. rewrite last_app_cons, last_cons_cons in Hl.
  apply last_Some_elem_of in Hl.
  apply NoDup_app in Hnd as (_ & _ & Hnd). apply NoDup_cons in Hnd as [Hc _].
  done.
Qed.

Lemma linked_attach_fresh (h : list Node) (k v : string) (p : nat) :
  linked h -> p < length h ->
  linked (attach_store (length h) p (h ++ [mkNode None None None k v []])).
Proof.
  intros Hl Hp.
  destruct (h !! p) as [np|] eqn:Enp; [|apply lookup_ge_None in Enp; lia].
  assert (Hcs : children <$> h !! p = Some (children np)) by (by rewrite Enp).
  set (cs := children np) in *.
  pose proof (linked_children_valid h p cs Hl Hcs) as Hvalid.
  destruct (attach_fresh_fields h k v p cs Hcs Hvalid) as (F1 & F2 & F3 & F4).
  set (n := length h) in *.
  set (h' := attach_store n p _) in *.
  assert (Hncs : n ∉ cs).
  { intros Hin. rewrite Forall_forall in Hvalid. apply Hvalid in Hin. lia. }
  assert (Hnone : forall {B} (g : Node -> B), g <$> h !! n = None).
  { intros B g. rewrite lookup_ge_None_2; [done|lia]. }
  assert (Hlast : forall c q csq,
    q <> p -> children <$> h !! q = Some csq -> c ∈ csq -> last cs <> Some c).
  { intros c q csq Hqp Hq Hc Hlc.
    apply list_elem_of_split in Hc as (pre & post & ->).
    destruct (linked_child h Hl q _ pre c post Hq eq_refl) as (_ & Hpq & _).
    apply last_Some in Hlc as [l' Ecs].
    destruct (linked_child h Hl p _ l' c [] Hcs Ecs) as (_ & Hpp & _).
    congruence. }
  split.
  - intros q cs' Hq. rewrite F1 in Hq.
    destruct (decide (q = p)) as [->|Hqp].
    { injection Hq as <-. apply NoDup_app. split; [by eapply linked_nodup|].
      split; [|apply NoDup_singleton]. intros x Hx Hx'.
      apply list_elem_of_singleton in Hx'. by subst x. }
    destruct (decide (q = n)) as [->|Hqn]; [injection Hq as <-; constructor|].
    by eapply linked_nodup.
  - intros q cs' pre c post Hq Ecs'. rewrite F1 in Hq.
    rewrite (F2 c), (F3 c), (F4 c).
    destruct (decide (q = p)) as [->|Hqp].
    { injection Hq as <-. apply snoc_split in Ecs' as
        [(-> & -> & ->)|(post' & -> & Ecs)].
      - rewrite !decide_True by done. repeat split; try done. lia.
      - destruct (linked_child h Hl p _ pre c post' Hcs Ecs)
          as (Hcp & Hpar & Hlsb & Hrsb).
        assert (Hcn : c <> n).
        { intros ->. apply Hncs. rewrite Ecs. set_solver. }
        rewrite !(decide_False (P := c = n)) by done.
        repeat split; try done.
        destruct post' as [|x post'].
        + rewrite decide_True; [done|]. rewrite Ecs. by rewrite last_snoc.
        + rewrite decide_False; [done|]. rewrite Ecs.
          apply last_middle_ne. rewrite <- Ecs. by eapply linked_nodup. }
    destruct (decide (q = n)) as [->|Hqn].
    { injection Hq as <-. by destruct pre. }
    destruct (linked_child h Hl q _ pre c post Hq Ecs')
      as (Hcq & Hpar & Hlsb & Hrsb).
    assert (Hcn : c <> n).
    { intros ->. rewrite Hnone in Hpar. done. }
    rewrite !(decide_False (P := c = n)) by done.
    rewrite decide_False; [done|].
    eapply Hlast; [exact Hqp|exact Hq|]. rewrite Ecs'. set_solver.
  - intros c Hc. rewrite F2 in Hc. rewrite (F3 c), (F4 c).
    destruct (decide (c = n)) as [->|Hcn]; [done|].
    destruct (linked_orphan h Hl c Hc) as [Hlsb Hrsb].
    split; [done|]. rewrite decide_False; [done|].
    intros Hlc. apply last_Some in Hlc as [l' Ecs].
    destruct (linked_child h Hl p _ l' c [] Hcs Ecs) as (_ & Hpp & _).
    congruence.
  - intros c q Hc. rewrite F2 in Hc. setoid_rewrite F1.
    destruct (decide (c = n)) as [->|Hcn].
    { injection Hc as <-. exists (cs ++ [n]). rewrite decide_True by done.
      split; [done|]. set_solver. }
    destruct (linked_parent h Hl c q Hc) as (csq & Hq & Hin).
    destruct (decide (q = p)) as [->|Hqp].
    { exists (cs ++ [n]). split; [done|].
      rewrite Hcs in Hq. injection Hq as <-. set_solver. }
    destruct (decide (q = n)) as [->|Hqn]; [by rewrite Hnone in Hq|].
    eauto.
Qed.

(** Where an element of [pre ++ node :: post] stands. *)
Lemma split_middle (pre post pre' post' : list nat) (node c : nat) :
  pre ++ node :: post = pre' ++ c :: post' ->
  (c = node /\ pre' = pre /\ post' = post)
  \/ (exists m, pre = pre' ++ c :: m /\ post' = m ++ node :: post)
  \/ (exists m, post = m ++ c :: post' /\ pre' = pre ++ node :: m).
Proof.
  intros E. apply app_eq_inv in E as [(k & -> & E)|(k & -> & E)].
  - destruct k as [|x k].
    + left. injection E as -> ->. by rewrite app_nil_r.
    + right. left. injection E as <- ->. eauto.
  - destruct k as [|x k].
    + left. injection E as -> ->. by rewrite app_nil_r.
    + right. right. injection E as <- ->. by exists k.
Qed.

(** What [linked] says of an object with both siblings. *)
Lemma linked_siblings (h : list Node) (node l r : nat) (nop : Node) :
  linked h ->
  h !! node = Some nop -> lsb nop = Some l -> rsb nop = Some r ->
  exists p np nl nr pre post,
    h !! p = Some np /\ h !! l = Some nl /\ h !! r = Some nr
    /\ parent nop = Some p
    /\ children np = pre ++ [l; node; r] ++ post
    /\ NoDup (p :: children np)
    /\ lsb nl = last pre
    /\ rsb nr = head post
    /\ Forall (fun i => i < length h) (children np).
Proof.
  intros Hl Hnode Hlsb Hrsb.
  destruct (parent nop) as [p|] eqn:Epar.
  2:{ destruct (linked_orphan h Hl node) as [E _]; [by rewrite Hnode; cbn; f_equal|].
      rewrite Hnode in E. cbn in E. congruence. }
  destruct (linked_parent h Hl node p) as (cs & Hcs & Hin);
    [by rewrite Hnode; cbn; f_equal|].
  apply list_elem_of_split in Hin as (A & B & ->).
  destruct (linked_child h Hl p _ A node B Hcs eq_refl)
    as (Hnp & _ & HA & HB).
  rewrite Hnode in HA, HB. cbn in HA, HB.
  injection HA as HA. injection HB as HB. rewrite Hlsb in HA. rewrite Hrsb in HB.
  symmetry in HA. apply last_Some in HA as [pre ->].
  destruct B as [|r' post]; [done|]. injection HB as <-.
  assert (E : (pre ++ [l]) ++ node :: r :: post = pre ++ [l; node; r] ++ post)
    by (by rewrite <- app_assoc).
  rewrite E in Hcs.
  destruct (linked_child h Hl p _ pre l (node :: r :: post) Hcs eq_refl)
    as (_ & _ & Hll & _).
  destruct (linked_child h Hl p _ (pre ++ [l; node]) r post Hcs)
    as (_ & _ & _ & Hrr); [by rewrite <- app_assoc|].
  apply fmap_lookup_Some in Hll as (nl & Hnl & Hll).
  apply fmap_lookup_Some in Hrr as (nr & Hnr & Hrr).
  destruct (fmap_lookup_Some _ _ _ _ Hcs) as (np & Hp & Ech).
  exists p, np, nl, nr, pre, post. rewrite Ech.
  repeat split; try done.
  - apply NoDup_cons. split; [|by eapply linked_nodup].
    intros Hin. apply list_elem_of_split in Hin as (A' & B' & E').
    by destruct (linked_child h Hl p _ A' p B' Hcs E') as (Hpp & _).
  - by eapply linked_children_valid.
Qed.

Lemma NoDup_drop_two (pre post : list nat) (l node r : nat) :
  NoDup (pre ++ [l; node; r] ++ post) -> NoDup (pre ++ node :: post).
Proof.
  intros H. eapply sublist_NoDup; [exact H|].
  apply sublist_app; [done|]. cbn.
  apply sublist_cons. apply sublist_skip. apply sublist_cons. done.
Qed.

(** The round for a childless operator with both siblings, in a linked
    store: it runs to its end and leaves a linked store. *)
Lemma linked_binary_fold (w : world) (node l r : nat) (nop : Node) :
  linked (nodes w) ->
  nodes w !! node = Some nop ->
  lsb nop = Some l -> rsb nop = Some r -> children nop = [] ->
  exists p pre post h',
    parent nop = Some p
    /\ children <$> nodes w !! p = Some (pre ++ [l; node; r] ++ post)
    /\ fold_binary_op node l r w = (Ret tt, mkWorld h' (out w))
    /\ (forall q, children <$> h' !! q
                  = if decide (q = p) then Some (pre ++ node :: post)
                    else if decide (q = node) then Some [l; r]
                    else children <$> nodes w !! q)
    /\ linked h'.
Proof.
  intros Hl Hnode Hlsb Hrsb Hnil.
  destruct (linked_siblings _ _ _ _ _ Hl Hnode Hlsb Hrsb)
    as (p & np & nl & nr & pre & post & Hp & Hnl & Hnr & Hpar & Hch & Hnd
        & Hll & Hrr & Hvalid).
  pose proof (bf_exec node l r p w nop np nl nr pre post
                Hnode Hp Hnl Hnr Hpar Hch Hnd Hll Hrr Hvalid) as Hexec.
  destruct (bf_fields node l r p w nop np nl nr pre post
              Hnode Hp Hnl Hnr Hpar Hch Hnd Hll Hrr Hvalid)
    as (F1 & F2 & F3 & F4).
  destruct (bf_distinct node l r p w nop np nl nr pre post
              Hnode Hp Hnl Hnr Hpar Hch Hnd Hll Hrr)
    as (D1 & D2 & D3 & D4 & D5 & D6 & D7 & D8 & Dy & Dx).
  set (h := nodes w) in *.
  set (h' := binary_fold_store node l r p pre post h) in *.
  rewrite Hnil in F1. cbn [app] in F1.
  assert (Hcs : children <$> h !! p = Some (pre ++ [l; node; r] ++ post))
    by (by rewrite Hp; cbn; rewrite Hch).
  set (L := pre ++ [l; node; r] ++ post) in *.
  assert (HL : forall c, c ∈ L -> parent <$> h !! c = Some (Some p)).
  { intros c Hc. apply list_elem_of_split in Hc as (A & B & E).
    by destruct (linked_child h Hl p _ A c B Hcs E) as (_ & ? & _). }
  assert (HnL : forall c q, q <> p -> parent <$> h !! c = Some (Some q) ->
                            c ∉ L).
  { intros c q Hq Hc Hin. apply HL in Hin. congruence. }
  assert (HhdL : forall x, head post = Some x -> x ∈ L).
  { intros x Hx. destruct post; [done|]. injection Hx as ->.
    subst L. rewrite !elem_of_app, !elem_of_cons. auto 10. }
  assert (HlaL : forall y, last pre = Some y -> y ∈ L).
  { intros y Hy. apply last_Some in Hy as [l' ->]. subst L.
    rewrite !elem_of_app, !elem_of_cons. auto 10. }
  assert (HlL : l ∈ L)
    by (subst L; rewrite !elem_of_app, !elem_of_cons; auto 10).
  assert (HrL : r ∈ L)
    by (subst L; rewrite !elem_of_app, !elem_of_cons; auto 10).
  assert (HnodeL : node ∈ L)
    by (subst L; rewrite !elem_of_app, !elem_of_cons; auto 10).
  exists p, pre, post, h'.
  split; [done|]. split; [done|]. split; [done|]. split; [done|].
  split.
  - (* no repetition *)
    intros q cs' Hq. rewrite F1 in Hq.
    destruct (decide (q = p)) as [->|Hqp].
    { injection Hq as <-. eapply NoDup_drop_two.
      eapply (linked_nodup h Hl p). exact Hcs. }
    destruct (decide (q = node)) as [->|Hqn].
    { injection Hq as <-. apply NoDup_cons. split; [|apply NoDup_singleton].
      by intros ?%list_elem_of_singleton. }
    by eapply linked_nodup.
  - (* the children *)
    intros q cs' pre' c post' Hq E. rewrite F1 in Hq.
    rewrite (F2 c), (F3 c), (F4 c).
    destruct (decide (q = p)) as [->|Hqp].
    { injection Hq as <-.
      pose proof (linked_nodup h Hl p _ Hcs) as HndL.
      apply split_middle in E as
        [(-> & -> & ->)|[(m & -> & ->)|(m & -> & ->)]].
      - rewrite !decide_False by done. rewrite decide_True by done.
        rewrite decide_True by done. repeat split; try done.
        rewrite Hnode. cbn. by rewrite Hpar.
      - assert (E : L = pre' ++ c :: m ++ [l; node; r] ++ post)
          by (subst L; by rewrite <- app_assoc).
        destruct (linked_child h Hl p _ pre' c _ Hcs E)
          as (Hcp & Hcpar & Hclsb & Hcrsb).
        rewrite E in HndL.
        assert (Hc : c <> node /\ c <> l /\ c <> r).
        { apply NoDup_app in HndL as (_ & _ & Hnd').
          apply NoDup_cons in Hnd' as [Hnin _].
          repeat split; intros ->; apply Hnin;
            rewrite !elem_of_app, !elem_of_cons; auto 10. }
        destruct Hc as (C1 & C2 & C3).
        rewrite !(decide_False (P := c = _)) by done.
        assert (Hhd : head post <> Some c).
        { intros Hx. destruct post as [|x post0]; [done|]. injection Hx as ->.
          apply NoDup_app in HndL as (_ & _ & Hnd').
          apply NoDup_cons in Hnd' as [Hnin _]. apply Hnin.
          rewrite !elem_of_app, !elem_of_cons. auto 10. }
        rewrite (decide_False (P := head post = Some c)) by done.
        repeat split; try done.
        destruct m as [|x m].
        + rewrite decide_True by (by rewrite last_snoc). done.
        + rewrite decide_False; [by rewrite Hcrsb|].
          apply last_middle_ne.
          assert (HndP : NoDup ((pre' ++ c :: x :: m)
                                ++ [l; node; r] ++ post))
            by (rewrite <- app_assoc; exact HndL).
          by apply NoDup_app in HndP as (? & _ & _).
      - assert (E : L = (pre ++ [l; node; r] ++ m) ++ c :: post').
        { subst L. rewrite <- app_assoc. reflexivity. }
        destruct (linked_child h Hl p _ _ c _ Hcs E)
          as (Hcp & Hcpar & Hclsb & Hcrsb).
        rewrite E in HndL.
        assert (Hc : c <> node /\ c <> l /\ c <> r /\ c ∉ pre /\ c ∉ m).
        { apply NoDup_app in HndL as (_ & Hd & _).
          repeat split; intros Hin;
            (apply (Hd c);
             [rewrite !elem_of_app, !elem_of_cons; subst; auto 10
             |apply elem_of_cons; auto]). }
        destruct Hc as (C1 & C2 & C3 & C4 & C5).
        rewrite !(decide_False (P := c = _)) by done.
        assert (Hla : last pre <> Some c).
        { intros Hy. apply last_Some_elem_of in Hy. done. }
        rewrite (decide_False (P := last pre = Some c)) by done.
        repeat split; try done.
        destruct m as [|x m].
        + rewrite decide_True by done. by rewrite last_snoc.
        + rewrite decide_False.
          * rewrite Hclsb. f_equal. cbn [app].
            by rewrite !last_app_cons, !last_cons_cons.
          * cbn. intros [= ->]. apply C5, elem_of_cons. auto. }
    destruct (decide (q = node)) as [->|Hqn].
    { injection Hq as <-.
      destruct pre' as [|a [|b pre']]; cbn in E.
      - injection E as <- <-. repeat case_decide; try congruence. done.
      - injection E as <- <- <-. repeat case_decide; try congruence. done.
      - injection E as _ _ E. by destruct pre'. }
    destruct (linked_child h Hl q _ pre' c post' Hq E)
      as (Hcq & Hcpar & Hclsb & Hcrsb).
    pose proof (HnL c q Hqp Hcpar) as HcL.
    assert (c <> node /\ c <> l /\ c <> r) as (C1 & C2 & C3)
      by (repeat split; intros ->; done).
    assert (Chd : head post <> Some c) by (intros Hx; by apply HhdL in Hx).
    assert (Cla : last pre <> Some c) by (intros Hy; by apply HlaL in Hy).
    repeat case_decide; done.
  - (* the orphans *)
    intros c Hc. rewrite F2 in Hc. rewrite (F3 c), (F4 c).
    destruct (decide (c = l)) as [->|C2]; [done|].
    destruct (decide (c = r)) as [->|C3]; [done|].
    assert (HcL : c ∉ L).
    { intros Hin. apply HL in Hin. congruence. }
    destruct (linked_orphan h Hl c Hc) as [Hclsb Hcrsb].
    assert (C1 : c <> node) by (intros ->; done).
    assert (Chd : head post <> Some c) by (intros Hx; by apply HhdL in Hx).
    assert (Cla : last pre <> Some c) by (intros Hy; by apply HlaL in Hy).
    repeat case_decide; done.
  - (* the parents *)
    intros c q Hc. rewrite F2 in Hc. setoid_rewrite F1.
    destruct (decide (c = l)) as [->|C2].
    { injection Hc as <-. exists [l; r].
      rewrite decide_False by done. rewrite decide_True by done.
      split; [done|]. rewrite !elem_of_cons. auto. }
    destruct (decide (c = r)) as [->|C3].
    { injection Hc as <-. exists [l; r].
      rewrite decide_False by done. rewrite decide_True by done.
      split; [done|]. rewrite !elem_of_cons. auto. }
    destruct (linked_parent h Hl c q Hc) as (csq & Hq & Hin).
    destruct (decide (q = p)) as [->|Hqp].
    { exists (pre ++ node :: post). split; [done|].
      rewrite Hcs in Hq. injection Hq as <-. subst L.
      revert Hin. clear -C2 C3.
      rewrite !elem_of_app, !elem_of_cons, !elem_of_nil.
      intuition congruence. }
    destruct (decide (q = node)) as [->|Hqn].
    { rewrite Hnode in Hq. cbn in Hq. rewrite Hnil in Hq.
      injection Hq as <-. by apply elem_of_nil in Hin. }
    eauto.
Qed.

Lemma chain_ok_sound (h : list Node) (p : nat) (cs : list nat) :
  forall prev pre c post,
    chain_ok h p prev cs = true ->
    cs = pre ++ c :: post ->
    c <> p
    /\ parent <$> h !! c = Some (Some p)
    /\ lsb <$> h !! c = Some (match last pre with
                              | Some x => Some x
                              | None => prev
                              end)
    /\ rsb <$> h !! c = Some (head post).
Proof.
  induction cs as [|c0 cs IH]; intros prev pre c post Hok E.
  - by destruct pre.
  - cbn [chain_ok] in Hok.
    apply andb_prop in Hok as [Hok Hrest]. apply andb_prop in Hok as [Hne Hc0].
    destruct pre as [|a pre]; cbn in E.
    + injection E as -> ->. apply negb_true_iff, Nat.eqb_neq in Hne.
      destruct (h !! c) as [nc|]; [|done].
      apply andb_prop in Hc0 as [Hc0 H3]. apply andb_prop in Hc0 as [H1 H2].
      apply bool_decide_eq_true in H1, H2, H3. cbn. by rewrite H1, H2, H3.
    + injection E as -> ->.
      destruct (IH (Some a) pre c post Hrest eq_refl) as (? & ? & Hl & ?).
      repeat split; try done. rewrite Hl. f_equal.
      destruct pre as [|b pre]; [done|]. rewrite last_cons_cons.
      destruct (last (b :: pre)) eqn:E'; [done|]. by apply last_None in E'.
Qed.

(** The test is sound. *)
Lemma linkedb_sound (h : list Node) : linkedb h = true -> linked h.
Proof.
  intros Hb. unfold linkedb in Hb. rewrite forallb_forall in Hb.
  assert (Hobj : forall p np, h !! p = Some np -> object_ok h p = true).
  { intros p np Hp. apply Hb. apply in_seq.
    apply lookup_lt_Some in Hp. lia. }
  split.
  - intros p cs Hp. apply fmap_lookup_Some in Hp as (np & Hp & <-).
    pose proof (Hobj p np Hp) as Ho. unfold object_ok in Ho. rewrite Hp in Ho.
    apply andb_prop in Ho as [Ho _]. apply andb_prop in Ho as [Ho _].
    by apply bool_decide_eq_true in Ho.
  - intros p cs pre c post Hp E.
    apply fmap_lookup_Some in Hp as (np & Hp & <-).
    pose proof (Hobj p np Hp) as Ho. unfold object_ok in Ho. rewrite Hp in Ho.
    apply andb_prop in Ho as [Ho _]. apply andb_prop in Ho as [_ Ho].
    destruct (chain_ok_sound h p _ None pre c post Ho E) as (? & ? & Hl & ?).
    repeat split; try done. rewrite Hl. by destruct (last pre).
  - intros c Hc. apply fmap_lookup_Some in Hc as (nc & Hc & Hpar).
    pose proof (Hobj c nc Hc) as Ho. unfold object_ok in Ho.
    rewrite Hc, Hpar in Ho. apply andb_prop in Ho as [_ Ho].
    apply andb_prop in Ho as [H1 H2]. apply bool_decide_eq_true in H1, H2.
    rewrite Hc. cbn. by rewrite H1, H2.
  - intros c q Hc. apply fmap_lookup_Some in Hc as (nc & Hc & Hpar).
    pose proof (Hobj c nc Hc) as Ho. unfold object_ok in Ho.
    rewrite Hc, Hpar in Ho. apply andb_prop in Ho as [_ Ho].
    destruct (h !! q) as [nq|]; [|done]. apply bool_decide_eq_true in Ho.
    exists (children nq). done.
Qed.

(** ** The round of the unary loop *)

Section UnaryFold.

Variables (node r p : nat) (w : world) (nop np nr : Node).
Variables (pre post : list nat).

Hypothesis Hnode : nodes w !! node = Some nop.
Hypothesis Hp : nodes w !! p = Some np.
Hypothesis Hr : nodes w !! r = Some nr.
Hypothesis Hparent : parent nop = Some p.
Hypothesis Hch : children np = pre ++ [node; r] ++ post.
Hypothesis Hnd : NoDup (p :: children np).
Hypothesis Hrr : rsb nr = head post.
Hypothesis Hvalid : Forall (fun i => i < length (nodes w)) (children np).

Lemma uf_distinct :
  node <> p /\ r <> p /\ r <> node /\ (r ∉ pre ++ [node])
  /\ (forall x, head post = Some x ->
        x <> r /\ x <> node /\ x <> p /\ is_Some (nodes w !! x)).
Proof.
  pose proof Hnd as Hnd0.
  rewrite Hch in Hnd0. apply NoDup_cons in Hnd0 as [Hpn Hnd'].
  apply NoDup_app in Hnd' as (Hpre & Hdisj & Hrest).
  cbn in Hrest.
  apply NoDup_cons in Hrest as [Hn1 Hrest].
  apply NoDup_cons in Hrest as [Hr1 Hpost].
  rewrite !elem_of_app, !elem_of_cons in Hpn.
  rewrite !elem_of_cons in Hn1.
  split; [intros ->; apply Hpn; auto 10|].
  split; [intros ->; apply Hpn; auto 10|].
  split; [intros ->; apply Hn1; auto|].
  split.
  - rewrite elem_of_app, list_elem_of_singleton. intros [Hin| ->].
    + apply (Hdisj r Hin). cbn. rewrite !elem_of_cons. auto.
    + apply Hn1. auto.
  - intros x Hx. destruct post as [|x' post']; [done|]. injection Hx as ->.
    rewrite elem_of_cons in Hr1, Hn1, Hpn.
    repeat split.
    + intros ->. apply Hr1. auto.
    + intros ->. apply Hn1. auto.
    + intros ->. apply Hpn. auto 10.
    + apply lookup_lt_is_Some. rewrite Forall_forall in Hvalid.
      apply Hvalid. rewrite Hch, !elem_of_app, !elem_of_cons. auto 10.
Qed.

(** The round runs to its end. *)
Lemma uf_exec :
  fold_unary_op node r w
  = (Ret tt, mkWorld (unary_fold_store node r p pre post (nodes w)) (out w)).
Proof.
  destruct uf_distinct as (D1 & D2 & D3 & D4 & Dx).
  unfold fold_unary_op, unary_fold_store.
  step ltac:(apply get_field; cbn; read Hr).
  rewrite Hrr.
  destruct (head post) as [x|] eqn:Ex.
  all: try (destruct (Dx x eq_refl) as (X1 & X2 & X3 & [nx Hx])).
  all: step ltac:(apply make_sibling_run).
  all: step ltac:(apply get_field; cbn; read Hnode).
  all: rewrite Hparent.
  all: step ltac:(eapply removeChild_run;
             [cbn; read Hp
             |rewrite Hch;
              replace (pre ++ [node; r] ++ post)
                with ((pre ++ [node]) ++ r :: post)
                by (rewrite <- app_assoc; reflexivity);
              apply remove_first_middle; done]).
  all: do 3 step ltac:(apply modify_run).
  all: unfold addChild, update.
  all: rewrite modify_run.
  all: reflexivity.
Qed.

(** Every field of every object after the round. *)
Lemma uf_fields :
  let h' := unary_fold_store node r p pre post (nodes w) in
  (forall q, children <$> h' !! q
             = if decide (q = p) then Some (pre ++ node :: post)
               else if decide (q = node) then Some (children nop ++ [r])
               else children <$> nodes w !! q)
  /\ (forall q, parent <$> h' !! q
                = if decide (q = r) then Some (Some node)
                  else parent <$> nodes w !! q)
  /\ (forall q, lsb <$> h' !! q
                = if decide (q = r) then Some None
                  else if decide (head post = Some q) then Some (Some node)
                  else lsb <$> nodes w !! q)
  /\ (forall q, rsb <$> h' !! q
                = if decide (q = node) then Some (head post)
                  else if decide (q = r) then Some None
                  else rsb <$> nodes w !! q).
Proof.
  destruct uf_distinct as (D1 & D2 & D3 & D4 & Dx).
  unfold unary_fold_store, sibling_store.
  destruct (head post) as [x|] eqn:Ex.
  all: try (destruct (Dx x eq_refl) as (X1 & X2 & X3 & [nx Hx])).
  all: cbn zeta.
  all: split; [|split; [|split]]; intros q.
  all: repeat match goal with
         | |- context [decide (Some ?a = Some ?q)] =>
             destruct (decide (Some a = Some q)) as [[= <-]|?]
         | |- context [decide (None = Some ?q)] =>
             rewrite (decide_False (P := None = Some q)) by done
         | |- context [decide (?q = ?a)] =>
             destruct (decide (q = a)) as [->|?]
         end.
  all: try congruence.
  all: repeat match goal with
              | H : Some ?a <> Some ?q |- _ =>
                  assert (a <> q) by congruence; clear H
              end.
  all: peel.
  all: rewrite ?Hnode, ?Hp, ?Hr, ?Hx; cbn.
  all: rewrite <- ?app_assoc; try done.
Qed.

End UnaryFold.

(** What [linked] says of an object with a right sibling. *)
Lemma linked_right_sibling (h : list Node) (node r : nat) (nop : Node) :
  linked h ->
  h !! node = Some nop -> rsb nop = Some r ->
  exists p np nr pre post,
    h !! p = Some np /\ h !! r = Some nr
    /\ parent nop = Some p
    /\ children np = pre ++ [node; r] ++ post
    /\ NoDup (p :: children np)
    /\ rsb nr = head post
    /\ Forall (fun i => i < length h) (children np).
Proof.
  intros Hl Hnode Hrsb.
  destruct (parent nop) as [p|] eqn:Epar.
  2:{ destruct (linked_orphan h Hl node) as [_ E];
        [by rewrite Hnode; cbn; f_equal|].
      rewrite Hnode in E. cbn in E. congruence. }
  destruct (linked_parent h Hl node p) as (cs & Hcs & Hin);
    [by rewrite Hnode; cbn; f_equal|].
  apply list_elem_of_split in Hin as (pre & B & ->).
  destruct (linked_child h Hl p _ pre node B Hcs eq_refl)
    as (Hnp & _ & _ & HB).
  rewrite Hnode in HB. cbn in HB. injection HB as HB. rewrite Hrsb in HB.
  destruct B as [|r' post]; [done|]. injection HB as <-.
  destruct (linked_child h Hl p _ (pre ++ [node]) r post Hcs)
    as (_ & _ & _ & Hrr); [by rewrite <- app_assoc|].
  apply fmap_lookup_Some in Hrr as (nr & Hnr & Hrr).
  destruct (fmap_lookup_Some _ _ _ _ Hcs) as (np & Hp & Ech).
  exists p, np, nr, pre, post. rewrite Ech.
  repeat split; try done.
  - apply NoDup_cons. split; [|by eapply linked_nodup].
    intros Hin. apply list_elem_of_split in Hin as (A' & B' & E').
    by destruct (linked_child h Hl p _ A' p B' Hcs E') as (Hpp & _).
  - by eapply linked_children_valid.
Qed.

Lemma NoDup_drop_one (pre post : list nat) (node r : nat) :
  NoDup (pre ++ [node; r] ++ post) -> NoDup (pre ++ node :: post).
Proof.
  intros H. eapply sublist_NoDup; [exact H|].
  apply sublist_app; [done|]. cbn.
  apply sublist_skip. apply sublist_cons. done.
Qed.

(** The round for a childless operator with a right sibling, in a linked
    store: it runs to its end and leaves a linked store. *)
Lemma linked_unary_fold (w : world) (node r : nat) (nop : Node) :
  linked (nodes w) ->
  nodes w !! node = Some nop ->
  rsb nop = Some r -> children nop = [] ->
  exists p pre post h',
    parent nop = Some p
    /\ children <$> nodes w !! p = Some (pre ++ [node; r] ++ post)
    /\ fold_unary_op node r w = (Ret tt, mkWorld h' (out w))
    /\ (forall q, children <$> h' !! q
                  = if decide (q = p) then Some (pre ++ node :: post)
                    else if decide (q = node) then Some [r]
                    else children <$> nodes w !! q)
    /\ parent <$> h' !! r = Some (Some node)
    /\ lsb <$> h' !! r = Some None
    /\ rsb <$> h' !! r = Some None
    /\ rsb <$> h' !! node = Some (head post)
    /\ linked h'.
Proof.
  intros Hl Hnode Hrsb Hnil.
  destruct (linked_right_sibling _ _ _ _ Hl Hnode Hrsb)
    as (p & np & nr & pre & post & Hp & Hnr & Hpar & Hch & Hnd
        & Hrr & Hvalid).
  pose proof (uf_exec node r p w nop np nr pre post
                Hnode Hp Hnr Hpar Hch Hnd Hrr Hvalid) as Hexec.
  destruct (uf_fields node r p w nop np nr pre post
              Hnode Hp Hnr Hch Hnd Hrr Hvalid)
    as (F1 & F2 & F3 & F4).
  destruct (uf_distinct node r p w nop np nr pre post
              Hnode Hnr Hch Hnd Hrr Hvalid)
    as (D1 & D2 & D3 & D4 & Dx).
  set (h := nodes w) in *.
  set (h' := unary_fold_store node r p pre post h) in *.
  rewrite Hnil in F1. cbn [app] in F1.
  assert (Hcs : children <$> h !! p = Some (pre ++ [node; r] ++ post))
    by (by rewrite Hp; cbn; rewrite Hch).
  set (L := pre ++ [node; r] ++ post) in *.
  assert (HL : forall c, c ∈ L -> parent <$> h !! c = Some (Some p)).
  { intros c Hc. apply list_elem_of_split in Hc as (A & B & E).
    by destruct (linked_child h Hl p _ A c B Hcs E) as (_ & ? & _). }
  assert (HnL : forall c q, q <> p -> parent <$> h !! c = Some (Some q) ->
                            c ∉ L).
  { intros c q Hq Hc Hin. apply HL in Hin. congruence. }
  assert (HhdL : forall x, head post = Some x -> x ∈ L).
  { intros x Hx. destruct post; [done|]. injection Hx as ->.
    subst L. rewrite !elem_of_app, !elem_of_cons. auto 10. }
  assert (HrL : r ∈ L)
    by (subst L; rewrite !elem_of_app, !elem_of_cons; auto 10).
  assert (HnodeL : node ∈ L)
    by (subst L; rewrite !elem_of_app, !elem_of_cons; auto 10).
  pose proof (linked_nodup h Hl p _ Hcs) as HndL.
  exists p, pre, post, h'.
  split; [done|]. split; [done|]. split; [done|]. split; [done|].
  split; [rewrite F2; by rewrite decide_True|].
  split; [rewrite F3; by rewrite decide_True|].
  split; [rewrite F4; rewrite decide_False by done; by rewrite decide_True|].
  split; [rewrite F4; by rewrite decide_True|].
  split.
  - (* no repetition *)
    intros q cs' Hq. rewrite F1 in Hq.
    destruct (decide (q = p)) as [->|Hqp].
    { injection Hq as <-. by eapply NoDup_drop_one. }
    destruct (decide (q = node)) as [->|Hqn].
    { injection Hq as <-. apply NoDup_singleton. }
    by eapply linked_nodup.
  - (* the children *)
    intros q cs' pre' c post' Hq E. rewrite F1 in Hq.
    rewrite (F2 c), (F3 c), (F4 c).
    destruct (decide (q = p)) as [->|Hqp].
    { injection Hq as <-.
      apply split_middle in E as
        [(-> & -> & ->)|[(m & -> & ->)|(m & -> & ->)]].
      - destruct (linked_child h Hl p _ pre node (r :: post) Hcs eq_refl)
          as (_ & Hcpar & Hclsb & _).
        assert (Hhd : head post <> Some node).
        { intros Hx. destruct post as [|x post0]; [done|]. injection Hx as ->.
          apply NoDup_app in HndL as (_ & _ & Hnd').
          apply NoDup_cons in Hnd' as [Hnin _]. apply Hnin.
          rewrite !elem_of_cons. auto. }
        assert (node <> r) by congruence.
        repeat case_decide; try congruence. done.
      - assert (E : L = pre' ++ c :: m ++ [node; r] ++ post)
          by (subst L; by rewrite <- app_assoc).
        destruct (linked_child h Hl p _ pre' c _ Hcs E)
          as (Hcp & Hcpar & Hclsb & Hcrsb).
        rewrite E in HndL.
        apply NoDup_app in HndL as (_ & _ & Hnd').
        apply NoDup_cons in Hnd' as [Hnin _].
        rewrite !elem_of_app, !elem_of_cons in Hnin.
        assert (Hc : c <> node /\ c <> r)
          by (split; intros ->; apply Hnin; auto 10).
        destruct Hc as (C1 & C2).
        assert (Hhd : head post <> Some c).
        { intros Hx. destruct post as [|x post0]; [done|]. injection Hx as ->.
          apply Hnin. rewrite !elem_of_cons. auto 10. }
        repeat case_decide; try congruence.
        repeat split; try done. rewrite Hcrsb. f_equal. by destruct m.
      - assert (E : L = (pre ++ [node; r] ++ m) ++ c :: post').
        { subst L. rewrite <- app_assoc. reflexivity. }
        destruct (linked_child h Hl p _ _ c _ Hcs E)
          as (Hcp & Hcpar & Hclsb & Hcrsb).
        rewrite E in HndL.
        apply NoDup_app in HndL as (_ & Hd & _).
        assert (Hc : c <> node /\ c <> r /\ c ∉ m).
        { repeat split; intros Hin;
            (apply (Hd c);
             [rewrite !elem_of_app, !elem_of_cons; subst; auto 10
             |apply elem_of_cons; auto]). }
        destruct Hc as (C1 & C2 & C5).
        rewrite !(decide_False (P := c = _)) by done.
        repeat split; try done.
        destruct m as [|x m].
        + rewrite decide_True by done. by rewrite last_snoc.
        + rewrite decide_False.
          * rewrite Hclsb. f_equal. cbn [app].
            by rewrite !last_app_cons, !last_cons_cons.
          * cbn. intros [= ->]. apply C5, elem_of_cons. auto. }
    destruct (decide (q = node)) as [->|Hqn].
    { injection Hq as <-.
      destruct pre' as [|a pre']; cbn in E.
      - injection E as <- <-. repeat case_decide; try congruence. done.
      - injection E as _ E. by destruct pre'. }
    destruct (linked_child h Hl q _ pre' c post' Hq E)
      as (Hcq & Hcpar & Hclsb & Hcrsb).
    pose proof (HnL c q Hqp Hcpar) as HcL.
    assert (c <> node /\ c <> r) as (C1 & C2)
      by (split; intros ->; done).
    assert (Chd : head post <> Some c) by (intros Hx; by apply HhdL in Hx).
    repeat case_decide; done.
  - (* the orphans *)
    intros c Hc. rewrite F2 in Hc. rewrite (F3 c), (F4 c).
    destruct (decide (c = r)) as [->|C2]; [done|].
    assert (HcL : c ∉ L).
    { intros Hin. apply HL in Hin. congruence. }
    destruct (linked_orphan h Hl c Hc) as [Hclsb Hcrsb].
    assert (C1 : c <> node) by (intros ->; done).
    assert (Chd : head post <> Some c) by (intros Hx; by apply HhdL in Hx).
    repeat case_decide; done.
  - (* the parents *)
    intros c q Hc. rewrite F2 in Hc. setoid_rewrite F1.
    destruct (decide (c = r)) as [->|C2].
    { injection Hc as <-. exists [r].
      rewrite decide_False by done. rewrite decide_True by done.
      split; [done|]. rewrite !elem_of_cons. auto. }
    destruct (linked_parent h Hl c q Hc) as (csq & Hq & Hin).
    destruct (decide (q = p)) as [->|Hqp].
    { exists (pre ++ node :: post). split; [done|].
      rewrite Hcs in Hq. injection Hq as <-. subst L.
      revert Hin. clear -C2.
      rewrite !elem_of_app, !elem_of_cons, !elem_of_nil.
      intuition congruence. }
    destruct (decide (q = node)) as [->|Hqn].
    { rewrite Hnode in Hq. cbn in Hq. rewrite Hnil in Hq.
      injection Hq as <-. by apply elem_of_nil in Hin. }
    eauto.
Qed.

(** ** The links of the tree, as the builder keeps them *)

(** X1: a new object attached with [attach_to_tree] under an object [p] of
    a linked store becomes the last child of [p], and the store stays
    linked: its left sibling is the former last child, which gets it as
    right sibling. *)
Theorem X1_attach_keeps_links (w : world) (k v : string) (p : nat) :
  linked (nodes w) -> p < length (nodes w) ->
  exists w' cs,
    (node <- new_node k v ;; attach_to_tree node (Some p)) w = (Ret tt, w')
    /\ out w' = out w
    /\ children <$> nodes w !! p = Some cs
    /\ children <$> nodes w' !! p = Some (cs ++ [length (nodes w)])
    /\ parent <$> nodes w' !! length (nodes w) = Some (Some p)
    /\ lsb <$> nodes w' !! length (nodes w) = Some (last cs)
    /\ linked (nodes w').
Proof.
  intros Hl Hp.
  destruct (nodes w !! p) as [np|] eqn:Enp;
    [|apply lookup_ge_None in Enp; lia].
  assert (Hcs : children <$> nodes w !! p = Some (children np))
    by (by rewrite Enp).
  pose proof (linked_children_valid _ p _ Hl Hcs) as Hvalid.
  destruct (attach_fresh_fields (nodes w) k v p _ Hcs Hvalid)
    as (F1 & F2 & F3 & _).
  eexists. exists (children np). split.
  { unfold bind at 1, new_node. cbn [nodes out].
    apply attach_to_tree_run. cbn. rewrite length_app. cbn. lia. }
  cbn [nodes out].
  split; [done|]. split; [by rewrite <- Hcs, Enp|].
  split; [rewrite F1; by rewrite decide_True|].
  split; [rewrite F2; by rewrite decide_True|].
  split; [rewrite F3; by rewrite decide_True|].
  by apply linked_attach_fresh.
Qed.

(** X1, witness: one more object under the [find] of
    [find . -name a -or -name b]. *)
Lemma X1_attach_keeps_links_witness :
  exists w' cs,
    (node <- new_node "argument" "c" ;; attach_to_tree node (Some 1))
      Sample.find_or_walked = (Ret tt, w')
    /\ out w' = out Sample.find_or_walked
    /\ children <$> nodes Sample.find_or_walked !! 1 = Some cs
    /\ children <$> nodes w' !! 1
       = Some (cs ++ [length (nodes Sample.find_or_walked)])
    /\ parent <$> nodes w' !! length (nodes Sample.find_or_walked)
       = Some (Some 1)
    /\ lsb <$> nodes w' !! length (nodes Sample.find_or_walked)
       = Some (last cs)
    /\ linked (nodes w').
Proof.
  apply (X1_attach_keeps_links Sample.find_or_walked "argument" "c" 1).
  - apply linkedb_sound. vm_compute. reflexivity.
  - vm_compute. lia.
Defined.

(** X2: in a linked store, the round of the binary loop for a childless
    operator with both siblings runs to its end, prints nothing and leaves
    a linked store, in which the operator has the two siblings as its only
    children and has taken their place under its parent. *)
Theorem X2_binary_fold_keeps_links
  (w : world) (node l r : nat) (nop : Node) :
  linked (nodes w) ->
  nodes w !! node = Some nop ->
  lsb nop = Some l -> rsb nop = Some r -> children nop = [] ->
  exists w' p pre post,
    fold_binary_op node l r w = (Ret tt, w')
    /\ out w' = out w
    /\ children <$> nodes w !! p = Some (pre ++ [l; node; r] ++ post)
    /\ children <$> nodes w' !! p = Some (pre ++ node :: post)
    /\ children <$> nodes w' !! node = Some [l; r]
    /\ linked (nodes w').
Proof.
  intros Hl Hnode Hlsb Hrsb Hnil.
  destruct (linked_binary_fold w node l r nop Hl Hnode Hlsb Hrsb Hnil)
    as (p & pre & post & h' & Hpar & Hcs & Hrun & F1 & Hl').
  assert (node <> p).
  { intros ->. apply fmap_lookup_Some in Hcs as (np & Hp & Ecs).
    rewrite Hnode in Hp. injection Hp as <-. rewrite Hnil in Ecs.
    by destruct pre. }
  exists (mkWorld h' (out w)), p, pre, post. cbn [nodes out].
  split; [done|]. split; [done|]. split; [done|].
  split; [rewrite F1; by rewrite decide_True|].
  split; [|done].
  rewrite F1. rewrite decide_False by done. by rewrite decide_True.
Qed.

(** X2, witness: the [-or] of [find . -name a -or -name b]. *)
Lemma X2_binary_fold_keeps_links_witness :
  exists w' p pre post,
    fold_binary_op 5 3 6 Sample.find_or_walked = (Ret tt, w')
    /\ out w' = out Sample.find_or_walked
    /\ children <$> nodes Sample.find_or_walked !! p
       = Some (pre ++ [3; 5; 6] ++ post)
    /\ children <$> nodes w' !! p = Some (pre ++ 5 :: post)
    /\ children <$> nodes w' !! 5 = Some [3; 6]
    /\ linked (nodes w').
Proof.
  apply (X2_binary_fold_keeps_links Sample.find_or_walked 5 3 6
           (mkNode (Some 1) (Some 3) (Some 6) "binarylogicop" "-or" [])).
  - apply linkedb_sound. vm_compute. reflexivity.
  - reflexivity.
  - reflexivity.
  - reflexivity.
  - reflexivity.
Defined.

(** X3: in a linked store, the round of the unary loop for a childless
    operator with a right sibling runs to its end, prints nothing and
    leaves a linked store: the sibling is the only child of the operator,
    with no sibling of its own, and the operator has taken over the right
    sibling of its operand. *)
Theorem X3_unary_fold_absorbs_right_sibling
  (w : world) (node r : nat) (nop : Node) :
  linked (nodes w) ->
  nodes w !! node = Some nop ->
  rsb nop = Some r -> children nop = [] ->
  exists w' p pre post,
    fold_unary_op node r w = (Ret tt, w')
    /\ out w' = out w
    /\ children <$> nodes w !! p = Some (pre ++ [node; r] ++ post)
    /\ children <$> nodes w' !! p = Some (pre ++ node :: post)
    /\ children <$> nodes w' !! node = Some [r]
    /\ parent <$> nodes w' !! r = Some (Some node)
    /\ lsb <$> nodes w' !! r = Some None
    /\ rsb <$> nodes w' !! r = Some None
    /\ rsb <$> nodes w' !! node = Some (head post)
    /\ linked (nodes w').
Proof.
  intros Hl Hnode Hrsb Hnil.
  destruct (linked_unary_fold w node r nop Hl Hnode Hrsb Hnil)
    as (p & pre & post & h' & Hpar & Hcs & Hrun & F1 & G1 & G2 & G3 & G4
        & Hl').
  assert (node <> p).
  { intros ->. apply fmap_lookup_Some in Hcs as (np & Hp & Ecs).
    rewrite Hnode in Hp. injection Hp as <-. rewrite Hnil in Ecs.
    by destruct pre. }
  exists (mkWorld h' (out w)), p, pre, post. cbn [nodes out].
  split; [done|]. split; [done|]. split; [done|].
  split; [rewrite F1; by rewrite decide_True|].
  split; [|done].
  rewrite F1. rewrite decide_False by done. by rewrite decide_True.
Qed.

(** X3, witness: the first [-not] of [find . -not -not -name a]. *)
Lemma X3_unary_fold_absorbs_right_sibling_witness :
  exists w' p pre post,
    fold_unary_op 3 4 Sample.find_not_not_walked = (Ret tt, w')
    /\ out w' = out Sample.find_not_not_walked
    /\ children <$> nodes Sample.find_not_not_walked !! p
       = Some (pre ++ [3; 4] ++ post)
    /\ children <$> nodes w' !! p = Some (pre ++ 3 :: post)
    /\ children <$> nodes w' !! 3 = Some [4]
    /\ parent <$> nodes w' !! 4 = Some (Some 3)
    /\ lsb <$> nodes w' !! 4 = Some None
    /\ rsb <$> nodes w' !! 4 = Some None
    /\ rsb <$> nodes w' !! 3 = Some (head post)
    /\ linked (nodes w').
Proof.
  apply (X3_unary_fold_absorbs_right_sibling Sample.find_not_not_walked 3 4
           (mkNode (Some 1) (Some 2) (Some 4) "unarylogicop" "-not" [])).
  - apply linkedb_sound. vm_compute. reflexivity.
  - reflexivity.
  - reflexivity.
  - reflexivity.
Defined.

(** X4: when the right sibling of a recorded unary operator [n1] is the
    unary operator [n2] recorded next, the second pass makes [n2] the
    child of [n1] and then finds [n2] without a right sibling: it prints
    the warning and [n1], and ends there, whatever operators are recorded
    after them.  The operand meant for [n2] stays where it was. *)
Theorem X4_unary_operators_in_a_row
  (w : world) (n1 n2 : nat) (nop : Node) (st : cstate) (rest : list nat) :
  linked (nodes w) ->
  nodes w !! n1 = Some nop ->
  rsb nop = Some n2 -> children nop = [] ->
  unary_logic_ops st = n1 :: n2 :: rest ->
  exists w' p pre post,
    fold_logic_ops st w = (Ret tt, w')
    /\ out w' = out w ++ [dangling_warning; Obj (Some n1)]
    /\ children <$> nodes w !! p = Some (pre ++ [n1; n2] ++ post)
    /\ children <$> nodes w' !! p = Some (pre ++ n1 :: post)
    /\ children <$> nodes w' !! n1 = Some [n2]
    /\ children <$> nodes w' !! n2 = children <$> nodes w !! n2
    /\ linked (nodes w').
Proof.
  intros Hl Hnode Hrsb Hnil Hst.
  destruct (linked_unary_fold w n1 n2 nop Hl Hnode Hrsb Hnil)
    as (p & pre & post & h' & Hpar & Hcs & Hrun & F1 & G1 & G2 & G3 & G4
        & Hl').
  assert (n1 <> p).
  { intros ->. apply fmap_lookup_Some in Hcs as (np & Hp & Ecs).
    rewrite Hnode in Hp. injection Hp as <-. rewrite Hnil in Ecs.
    by destruct pre. }
  assert (n2 <> p /\ n2 <> n1) as [? ?].
  { destruct (linked_child _ Hl p _ (pre ++ [n1]) n2 post Hcs)
      as (? & _); [by rewrite <- app_assoc|].
    split; [done|]. intros ->.
    pose proof (linked_nodup _ Hl p _ Hcs) as Hnd.
    apply NoDup_app in Hnd as (_ & _ & Hnd). cbn in Hnd.
    apply NoDup_cons in Hnd as [Hnin _]. apply Hnin, elem_of_cons. auto. }
  exists (mkWorld h' (out w ++ [dangling_warning; Obj (Some n1)])),
    p, pre, post. cbn [nodes out].
  split.
  { assert (Hfu : fold_unary (n1 :: n2 :: rest) w
                  = (Ret true,
                     mkWorld h' (out w ++ [dangling_warning; Obj (Some n1)]))).
    { cbn [fold_unary].
      rewrite (bind_run _ _ w w (rsb nop)) by (by apply get_run).
      rewrite Hrsb. rewrite (bind_run _ _ _ _ _ Hrun).
      erewrite bind_run by (apply get_field; cbn; exact G3).
      cbv iota.
      erewrite bind_run by reflexivity. cbn [nodes out].
      erewrite bind_run by (apply get_field; cbn; exact G1).
      erewrite bind_run by reflexivity. cbn [nodes out].
      unfold ret, dangling_warning. by rewrite <- app_assoc. }
    unfold fold_logic_ops. rewrite Hst.
    by rewrite (bind_run _ _ _ _ _ Hfu). }
  split; [done|]. split; [done|].
  split; [rewrite F1; by rewrite decide_True|].
  split; [rewrite F1; rewrite decide_False by done; by rewrite decide_True|].
  split; [|done].
  rewrite F1. by rewrite !decide_False.
Qed.

(** X4, witness: the two [-not] of [find . -not -not -name a]. *)
Lemma X4_unary_operators_in_a_row_witness :
  exists w' p pre post,
    fold_logic_ops (mkC (Some 5) false false [3; 4] [])
                   Sample.find_not_not_walked = (Ret tt, w')
    /\ out w' = out Sample.find_not_not_walked
                ++ [dangling_warning; Obj (Some 3)]
    /\ children <$> nodes Sample.find_not_not_walked !! p
       = Some (pre ++ [3; 4] ++ post)
    /\ children <$> nodes w' !! p = Some (pre ++ 3 :: post)
    /\ children <$> nodes w' !! 3 = Some [4]
    /\ children <$> nodes w' !! 4
       = children <$> nodes Sample.find_not_not_walked !! 4
    /\ linked (nodes w').
Proof.
  apply (X4_unary_operators_in_a_row Sample.find_not_not_walked 3 4
           (mkNode (Some 1) (Some 2) (Some 4) "unarylogicop" "-not" [])
           (mkC (Some 5) false false [3; 4] []) []).
  - apply linkedb_sound. vm_compute. reflexivity.
  - reflexivity.
  - reflexivity.
  - reflexivity.
  - reflexivity.
Defined.

(** The whole run on that command: the second [-not] is the child of the
    first, and [-name a] is left beside them. *)
Example find_not_not_normalized :
  let r := Sample.run [Sample.command Sample.find_not_not]
                      "find . -not -not -name a" in
  Sample.result_tree r
  = Some (T "root" ""
            [T "headcommand" "find"
               [T "argument" "." [];
                T "unarylogicop" "-not" [T "unarylogicop" "-not" []];
                T "flag" "-name" [T "argument" "a" []]]])
  /\ out (snd r) = [dangling_warning; Obj (Some 3)].
Proof. vm_compute. split; reflexivity. Qed.

(** ** Reading a linearization, whatever follows it *)

Lemma reads_nil : reads_forest [].
Proof.
  intros h o c Hc. exists h. split; [done|]. split; [lia|done].
Qed.

Lemma reads_app (ts1 ts2 : list tree) :
  reads_forest ts1 -> reads_forest ts2 -> reads_forest (ts1 ++ ts2).
Proof.
  intros H1 H2 h o c Hc.
  destruct (H1 h o c Hc) as (h1 & R1 & L1 & P1).
  destruct (H2 h1 o c ltac:(lia)) as (h2 & R2 & L2 & P2).
  exists h2. split; [|split; [lia|]].
  - intros rest. unfold flat. rewrite flat_map_app, <- app_assoc.
    fold (flat ts1). fold (flat ts2). by rewrite R1, R2.
  - intros j Hj. rewrite P2 by lia. by apply P1.
Qed.

Lemma reads_node (k v : string) (ts : list tree) :
  readable k v = true -> reads_forest ts -> reads_forest [T k v ts].
Proof.
  intros Hk Hts h o c Hc.
  apply readable_inv in Hk as (Hu & Hlow & Hne).
  set (new := mkNode None None None k v []).
  set (h1 := attach_store (length h) c (h ++ [new])).
  assert (Hlen1 : length h1 = S (length h)).
  { subst h1. rewrite attach_store_length, length_app. cbn. lia. }
  destruct (Hts h1 o (length h) ltac:(lia)) as (h2 & R2 & L2 & P2).
  exists h2. split; [|split; [lia|]].
  - intros rest. unfold flat. cbn [flat_map]. rewrite app_nil_r.
    rewrite to_list_unfold. cbn [app list_to_tree_loop].
    rewrite Hne, (split1_symbol k v Hu), Hlow.
    unfold bind at 1, new_node. cbn [nodes out]. fold new.
    rewrite (bind_run _ _ _ _ tt)
      by (apply attach_to_tree_run; cbn; rewrite length_app; cbn; lia).
    cbn [nodes out]. fold h1.
    rewrite <- app_assoc. rewrite R2. cbn [app list_to_tree_loop].
    change (NO_EXPAND =? NO_EXPAND) with true. cbv iota.
    erewrite bind_run; [reflexivity|].
    apply get_field. cbn [nodes]. rewrite P2 by lia. subst h1.
    rewrite attach_store_parent_node. by rewrite lookup_new.
  - intros j Hj. rewrite P2 by lia. subst h1.
    rewrite attach_store_parent_other by lia.
    by rewrite lookup_app_l.
Qed.

Lemma reads_linearizable (ts : list tree) :
  forallb linearizable ts = true -> reads_forest ts.
Proof.
  assert (H1 : forall t, linearizable t = true -> reads_forest [t]).
  { induction t as [k v ts' IH] using tree_induction. intros Hl.
    cbn in Hl. apply andb_prop in Hl as [Hr Hts].
    apply reads_node; [done|]. clear Hr.
    induction IH as [|t ts'' Ht Hts' IHts]; [apply reads_nil|].
    cbn in Hts. apply andb_prop in Hts as [Hlt Hlts].
    apply (reads_app [t] ts''); auto. }
  induction ts as [|t ts IH]; intros Hl; [apply reads_nil|].
  cbn in Hl. apply andb_prop in Hl as [Hlt Hlts].
  apply (reads_app [t] ts); auto.
Qed.

(** The run of [list_to_tree] up to the end of a forest under the root:
    the store then, in which the root has no parent. *)
Lemma list_to_tree_forest (first : string) (ts : list tree) (w : world) :
  forallb linearizable ts = true ->
  exists h',
    (forall rest,
        list_to_tree (first :: flat ts ++ rest) "dfs" w
        = (list_to_tree_loop rest (Some (length (nodes w))) ;;;
           ret (length (nodes w))) (mkWorld h' (out w)))
    /\ parent <$> h' !! length (nodes w) = Some None.
Proof.
  intros Hl. apply reads_linearizable in Hl. destruct w as [h o].
  cbn [nodes out].
  set (root := mkNode None None None "root" "root" []).
  destruct (Hl (h ++ [root]) o (length h)) as (h' & R & L & P).
  { rewrite length_app. cbn. lia. }
  exists h'. split.
  - intros rest. unfold list_to_tree. cbn [tl].
    unfold bind at 1, new_node. cbn [nodes out]. fold root.
    change ("dfs" =? "dfs") with true. cbv iota.
    unfold bind at 1. rewrite R. reflexivity.
  - rewrite P by (rewrite length_app; cbn; lia). by rewrite lookup_new.
Qed.

(** X5: [to_list] keeps what the list it is given holds and, in the order
    ['dfs'], appends for a node its symbol (the kind in upper case, an
    underscore, the value), then the symbols of each child in turn, then
    one end marker: two symbols for every node of the tree.  In any other
    order it appends nothing. *)
Theorem X5_to_list_two_symbols_per_node
  (k v : string) (ts : list tree) (order : string) (acc : list string) :
  to_list (T k v ts) order acc
  = (if order =? "dfs"
     then acc ++ [(Str.upper k ++ "_" ++ v)%string]
              ++ flat_map (fun c => to_list c "dfs" []) ts
              ++ [NO_EXPAND]
     else acc)
  /\ length (to_list (T k v ts) "dfs" []) = 2 * size (T k v ts).
Proof.
  split.
  - destruct (order =? "dfs") eqn:E.
    + apply String.eqb_eq in E as ->.
      by rewrite to_list_acc, to_list_unfold.
    + cbn [to_list]. by rewrite E.
  - generalize (T k v ts). clear. intros t.
    induction t as [k v ts IH] using tree_induction.
    rewrite to_list_unfold. cbn [length size]. rewrite length_app. cbn.
    assert (H : length (flat ts)
                = 2 * fold_right (fun c m => size c + m) 0 ts).
    { induction IH as [|t ts Ht Hts IHts]; [done|].
      unfold flat in *. cbn [flat_map fold_right].
      rewrite length_app, Ht, IHts. lia. }
    rewrite H. lia.
Qed.

(** X6: what follows the linearization of a tree is never read: the end
    marker of the root ends the reading, so that [list_to_tree] answers
    the same on [to_list(t)] and on [to_list(t)] followed by any symbols,
    a ['<PAD>'] for one. *)
Theorem X6_symbols_after_the_tree_are_ignored
  (t : tree) (extra : list string) (w : world) :
  forallb linearizable (tchildren t) = true ->
  list_to_tree (to_list t "dfs" [] ++ extra) "dfs" w
  = list_to_tree (to_list t "dfs" []) "dfs" w.
Proof.
  destruct t as [k v ts]. cbn [tchildren]. intros Hl.
  destruct (list_to_tree_forest (symbol_of k v) ts w Hl) as (h' & R & P).
  rewrite to_list_unfold.
  change ((symbol_of k v :: flat ts ++ [NO_EXPAND]) ++ extra)
    with (symbol_of k v :: (flat ts ++ [NO_EXPAND]) ++ extra).
  rewrite <- app_assoc. rewrite !R. cbn [app list_to_tree_loop].
  change (NO_EXPAND =? NO_EXPAND) with true. cbv iota.
  unfold bind at 1 3.
  rewrite !(bind_run _ _ _ _ None) by (by apply get_field).
  by destruct extra.
Qed.

(** X6, witness: the tree of [find], padded. *)
Lemma X6_symbols_after_the_tree_are_ignored_witness :
  list_to_tree
    (to_list (T "root" "" [T "headcommand" "find" []]) "dfs" [] ++ ["<PAD>"])
    "dfs" empty_world
  = list_to_tree (to_list (T "root" "" [T "headcommand" "find" []]) "dfs" [])
                 "dfs" empty_world.
Proof.
  exact (X6_symbols_after_the_tree_are_ignored
           (T "root" "" [T "headcommand" "find" []]) ["<PAD>"] empty_world
           eq_refl).
Defined.

(** X7: a symbol that is neither the end marker nor a text with an
    underscore, read while the cursor is in the tree, makes [list_to_tree]
    fail with [ValueError]: so it is for such a symbol after any number of
    complete subtrees of the root. *)
Theorem X7_symbol_without_underscore_fails
  (first bad : string) (ts : list tree) (rest : list string) (w : world) :
  forallb linearizable ts = true ->
  well_formed_symbol bad = false ->
  exists w',
    list_to_tree (first :: flat ts ++ bad :: rest) "dfs" w
    = (Exc (ValueError "need more than 1 value to unpack"), w').
Proof.
  intros Hl Hbad.
  destruct (list_to_tree_forest first ts w Hl) as (h' & R & P).
  rewrite R. cbn [list_to_tree_loop].
  unfold well_formed_symbol in Hbad.
  apply orb_false_elim in Hbad as [-> Hsplit].
  destruct (Str.split1 "_" bad) as [k [v|]]; [done|].
  eexists. reflexivity.
Qed.

(** X7, witness: ['<PAD>'] as the first symbol after the root's. *)
Lemma X7_symbol_without_underscore_fails_witness :
  exists w',
    list_to_tree ("ROOT_" :: flat [] ++ "<PAD>" :: []) "dfs" empty_world
    = (Exc (ValueError "need more than 1 value to unpack"), w').
Proof.
  exact (X7_symbol_without_underscore_fails "ROOT_" "<PAD>" [] []
           empty_world eq_refl eq_refl).
Defined.

(** ** From a tree back to a command *)

(** Answers of [to_command] that are no exception other than a failed
    [assert] under strict constraints, or the recursion limit on a deep
    tree. *)
Lemma fine_weaken {A} (lc : bool) (D D' : Prop) (r : outcome A) :
  (D -> D') -> fine lc D r -> fine lc D' r.
Proof. intros HD. destruct r as [a|e]; [done|]. cbn. tauto. Qed.

Lemma fine_join (lc : bool) (D : Prop) (sep : string)
  (rs : list (outcome string)) :
  Forall (fine lc D) rs -> forall cmd, fine lc D (join_each sep rs cmd).
Proof.
  induction 1 as [|r rs Hr Hrs IH]; intros cmd; [done|].
  cbn [join_each]. destruct r; [apply IH|done].
Qed.

Lemma fine_item (lc : bool) (D : Prop) (rs : list (outcome string)) (i : nat) :
  Forall (fine lc D) rs -> i < length rs -> fine lc D (item rs i).
Proof.
  intros Hrs Hi. unfold item.
  destruct (rs !! i) as [r|] eqn:E; [|apply lookup_ge_None in E; lia].
  rewrite Forall_lookup in Hrs. by eapply Hrs.
Qed.

Lemma fine_and_then {A B} (lc : bool) (D : Prop) (r : outcome A)
  (k : A -> outcome B) :
  fine lc D r -> (forall s, r = Ret s -> fine lc D (k s)) ->
  fine lc D (and_then r k).
Proof. intros Hr Hk. destruct r; [by apply Hk|done]. Qed.

Lemma fine_removelast (lc : bool) (D : Prop) (rs : list (outcome string)) :
  Forall (fine lc D) rs -> Forall (fine lc D) (removelast rs).
Proof.
  induction 1 as [|r rs Hr Hrs IH]; [done|].
  cbn [removelast]. destruct rs; [done|]. by constructor.
Qed.

Lemma height_child (k v : string) (ts : list tree) (t : tree) :
  t ∈ ts -> S (height t) <= height (T k v ts).
Proof.
  intros Ht. cbn [height]. apply le_n_S.
  induction ts as [|c ts IH]; [by apply elem_of_nil in Ht|].
  cbn [fold_right]. apply elem_of_cons in Ht as [->|Ht]; [lia|].
  specialize (IH Ht). lia.
Qed.

(** X8: [to_command] never indexes a child that is not there.  It raises
    nothing but the exception of a failed [assert], and that under strict
    constraints only, and the exception of the recursion limit, and that
    only on a tree at least as deep as the frames left for the call: on a
    less deep tree and under loose constraints it raises nothing. *)
Theorem X8_to_command_faults (frames : nat) (t : tree) (lc : bool) :
  match to_command frames t lc with
  | Ret _ => True
  | Exc e => (e = AssertionError /\ lc = false)
             \/ (e = RuntimeError /\ frames <= height t)
  end.
Proof.
  change (fine lc (frames <= height t) (to_command frames t lc)).
  revert frames. induction t as [k v ts IH] using tree_induction.
  intros [|f]; [right; split; [done|lia]|].
  set (D := S f <= height (T k v ts)).
  assert (Hrs : Forall (fine lc D) (map (fun child => to_command f child lc) ts)).
  { apply Forall_map. rewrite Forall_forall in IH. apply Forall_forall.
    intros c Hc. eapply fine_weaken; [|apply (IH c Hc f)].
    intros Hd. pose proof (height_child k v ts c Hc). unfold D. lia. }
  assert (Hlen : length (map (fun child => to_command f child lc) ts)
                 = length ts) by apply length_map.
  assert (HD : f = 0 -> D).
  { intros ->. unfold D. cbn [height]. lia. }
  cbn [to_command]. cbv zeta.
  set (rs := map (fun child => to_command f child lc) ts) in *.
  clearbody rs.
  unfold assert_, branch, or_else, and_also.
  destruct f as [|f']; cbn [enter and_then]; destruct lc.
  all: repeat first
         [ progress cbn [and_then]
         | match goal with
           | |- fine _ _ (if ?b then _ else _) => destruct b eqn:?
           end
         | done
         | left; done
         | right; split; [reflexivity|by apply HD]
         | apply fine_join
         | apply fine_removelast
         | apply fine_item;
             [assumption
             |rewrite ?negb_true_iff, ?negb_false_iff, ?Nat.eqb_eq,
                ?Nat.eqb_neq, ?Nat.ltb_lt, ?Nat.ltb_ge in *; lia]
         | apply fine_and_then; [|intros ? _] ].
Qed.

(** The root [normalize_ast] answers is an object of kind [root]. *)
Lemma normalize_ast_root
  (is_headcommand is_option : string -> bool) (digit_fold : string -> string)
  (parse : string -> exn + list rnode) (cmd : string) (nd rq : bool)
  (w w' : world) (root : nat) :
  normalize_ast is_headcommand is_option digit_fold parse cmd nd rq w
  = (Ret (Some root), w') ->
  root = length (nodes w) /\ kind <$> nodes w' !! root = Some "root".
Proof.
  unfold normalize_ast, cannot_parse.
  destruct (_ =? ""); [by intros [= <- <-]|].
  destruct (parse _) as [e|roots]; [by destruct e|].
  unfold bind at 1.
  assert (Hnote : forall (b : bool) (m : msg), exists w1,
    (if b then print m else ret tt) w = (Ret tt, w1)
    /\ nodes w1 = nodes w).
  { intros [] m; eexists; split; reflexivity. }
  match goal with
  | |- context [(if ?b then print ?m else ret tt) w] =>
      destruct (Hnote b m) as (w1 & -> & Hw1)
  end.
  unfold bind at 1, new_node.
  destruct roots as [|t0 roots]; [done|].
  destruct (normalize _ _ _ _ _ t0 _ _ _) as [[[]|e] w3] eqn:En.
  - intros [= <- <-]. split; [by rewrite Hw1|].
    refine (proj1 (keeps_normalize
                     (fun w => kind <$> nodes w !! length (nodes w1)
                               = Some "root") _ _ _
                     is_headcommand is_option digit_fold _ nd t0 _ ""
                     eq_refl _ _ _ _ En)).
    + intros w0 m Hw0. exact Hw0.
    + intros w0 i f Hf Hw0. cbn [nodes] in *.
      destruct (decide (i = length (nodes w1))) as [->|Hne].
      * rewrite field_alter_eq.
        destruct (nodes w0 !! length (nodes w1)) as [n|]; [|done].
        cbn in *. by rewrite Hf.
      * by rewrite list_lookup_alter_ne.
    + intros w0 k v Hk Hw0. cbn [nodes] in *.
      apply fmap_lookup_Some in Hw0 as (n & Hn & Ek).
      rewrite lookup_app_l by (by eapply lookup_lt_Some).
      by rewrite Hn, <- Ek.
    + cbn [nodes]. by rewrite lookup_new.
  - destruct e; by intros [= <- <-].
Qed.

(** X9: for every tree [t] that [normalize_ast] returns, the tree
    [list_to_tree] reads back from [to_list t] gives the same command as
    [t]: [to_command] answers the same on both, under strict and under
    loose constraints. *)
Theorem X9_same_command_after_the_round_trip
  (is_headcommand is_option : string -> bool) (digit_fold : string -> string)
  (parse : string -> exn + list rnode) (cmd : string) (nd rq lc : bool)
  (w w' : world) (root fuel : nat) (t : tree) (w0 : world) :
  kinds_readable w ->
  normalize_ast is_headcommand is_option digit_fold parse cmd nd rq w
  = (Ret (Some root), w') ->
  view fuel (nodes w') root = Some t ->
  exists w'' t',
    list_to_tree (to_list t "dfs" []) "dfs" w0 = (Ret (length (nodes w0)), w'')
    /\ holds (nodes w'') (length (nodes w0)) t'
    /\ forall frames, to_command frames t' lc = to_command frames t lc.
Proof.
  intros Hw Hrun Hview.
  pose proof (normalize_ast_kinds _ _ _ _ _ _ _ _ _ _ Hw Hrun) as Hw'.
  pose proof (view_linearizable _ Hw' _ _ _ Hview) as Hl.
  destruct (normalize_ast_root _ _ _ _ _ _ _ _ _ _ Hrun) as [_ Hroot].
  assert (Hk : tkind t = "root").
  { destruct fuel as [|f]; [done|]. cbn [view] in Hview.
    destruct (nodes w' !! root) as [n|]; [|done].
    destruct (mapM _ _); [|done]. injection Hview as <-.
    cbn in *. by injection Hroot. }
  destruct t as [k v ts]. cbn in Hk. subst k.
  cbn in Hl.
  destruct (round_trip_below_root (T "root" v ts) w0 Hl)
    as (w'' & Hrt & _ & Hholds).
  exists w'', (T "root" "root" ts). split; [done|]. split; [done|].
  by intros [|f].
Qed.

(** X9, witness: the tree of [find . -name a -or -name b]. *)
Lemma X9_same_command_after_the_round_trip_witness :
  exists w'' t',
    list_to_tree
      (to_list (T "root" ""
                  [T "headcommand" "find"
                     [T "argument" "." [];
                      T "binarylogicop" "-or"
                        [T "flag" "-name" [T "argument" "a" []];
                         T "flag" "-name" [T "argument" "b" []]]]])
               "dfs" []) "dfs" empty_world
    = (Ret (length (nodes empty_world)), w'')
    /\ holds (nodes w'') (length (nodes empty_world)) t'
    /\ forall frames,
         to_command frames t' false
         = to_command frames
             (T "root" ""
                [T "headcommand" "find"
                   [T "argument" "." [];
                    T "binarylogicop" "-or"
                      [T "flag" "-name" [T "argument" "a" []];
                       T "flag" "-name" [T "argument" "b" []]]]]) false.
Proof.
  apply (X9_same_command_after_the_round_trip
           Sample.is_headcommand Sample.is_option Sample.digit_fold
           (Sample.parses_to [Sample.command Sample.find_or])
           "find . -name a -or -name b" true true false empty_world
           (snd (Sample.run [Sample.command Sample.find_or]
                            "find . -name a -or -name b"))
           0 8 _ empty_world).
  - constructor.
  - vm_compute. reflexivity.
  - vm_compute. reflexivity.
Defined.

(** The command [to_command] gives for that tree is the command the tree
    was made from. *)
Example find_or_command :
  to_command 1000
             (T "root" ""
                [T "headcommand" "find"
                   [T "argument" "." [];
                    T "binarylogicop" "-or"
                      [T "flag" "-name" [T "argument" "a" []];
                       T "flag" "-name" [T "argument" "b" []]]]]) false
  = Ret "find . -name a -or -name b".
Proof. vm_compute. reflexivity. Qed.

(** ** The walk over the tokens of a command *)

(** X10: a token of the binary operators, with [a] the flag attach point,
    is a true operator when it is [-and], [-or], [||] or [&&], and when it
    is [-o] or [-a] and [a] is a head command of value [find]; [-o] and
    [-a] are then recorded under the names [-or] and [-and].  A true
    operator is made as a childless [binarylogicop] node attached last
    under [a] and recorded; the attach point of the tokens that follow is
    [a].  Otherwise ([-o] or [-a] elsewhere than under [find]) the token is
    attached as a flag under [a]. *)
Theorem X10_binary_operator_classification
  (is_headcommand is_option : string -> bool)
  (node : rnode) (norm : option nat -> string -> M unit)
  (tok : string) (ps : option (list rnode)) (po : option (Z * Z))
  (co : option rnode) (st : cstate) (w : world) (a : nat) (na : Node) :
  mem tok binary_logic_operators = true ->
  find_flag_attach_point (attach_point st) w = (Ret (Some a), w) ->
  nodes w !! a = Some na ->
  let child := RNode "word" (Some tok) ps po co in
  let new := length (nodes w) in
  let short := (tok =? "-o") || (tok =? "-a") in
  if negb short || ((kind na =? "headcommand") && (value na =? "find"))
  then
    exists w',
      command_token is_headcommand is_option node norm child st w
      = (Ret (mkC (Some a) (END_OF_OPTIONS st) (END_OF_COMMAND st)
                  (unary_logic_ops st) (binary_logic_ops st ++ [new])), w')
      /\ kind <$> nodes w' !! new = Some "binarylogicop"
      /\ value <$> nodes w' !! new
         = Some (if tok =? "-o" then "-or"
                 else if tok =? "-a" then "-and" else tok)
      /\ parent <$> nodes w' !! new = Some (Some a)
      /\ children <$> nodes w' !! new = Some []
      /\ children <$> nodes w' !! a = Some (children na ++ [new])
  else
    command_token is_headcommand is_option node norm child st w
    = (ap <- attach_option norm (Some a) ;; ret (set_attach_point ap st)) w.
Proof.
  intros Hb Hfa Ha child new short.
  set (cond := negb short
               || ((kind na =? "headcommand") && (value na =? "find"))).
  assert (Hlt : a < length (nodes w)) by (eapply lookup_lt_Some; eauto).
  assert (Htok : tok = "-and" \/ tok = "-or" \/ tok = "||" \/ tok = "&&"
                 \/ tok = "-o" \/ tok = "-a").
  { cbn in Hb.
    repeat match type of Hb with
           | (?s =? ?x) || _ = true =>
               destruct (String.eqb_spec s x); [tauto|]; cbn [orb] in Hb
           end.
    discriminate. }
  assert (Hclass : is_binary_logic_op tok (Some a) w
     = (Ret (cond,
             if cond
             then (if tok =? "-o" then "-or"
                   else if tok =? "-a" then "-and" else tok)
             else tok), w)).
  { subst cond short.
    destruct Htok as [-> |[-> |[-> |[-> |[-> | ->]]]]]; try reflexivity.
    all: unfold is_binary_logic_op, under_find, get, deref, bind, ret; cbn.
    all: rewrite Ha; destruct (kind na =? "headcommand"); [|reflexivity].
    all: cbn; rewrite Ha; cbn; by destruct (value na =? "find"). }
  assert (Hd : (tok =? "--") = false /\ (tok =? ";") = false
               /\ mem tok unary_logic_operators = false).
  { destruct Htok as [-> |[-> |[-> |[-> |[-> | ->]]]]];
      repeat split; reflexivity. }
  destruct Hd as (Hd1 & Hd2 & Hd3).
  subst child. clearbody cond. destruct cond.
  - unfold command_token. cbn -[mem]. rewrite Hd1, Hd2, Hd3, Hb.
    unfold bind at 1. rewrite Hfa. unfold bind at 1. rewrite Hclass.
    cbn [fst snd].
    unfold bind, new_node. cbn -[attach_to_tree String.eqb].
    rewrite attach_to_tree_run by (cbn; rewrite length_app; cbn; lia).
    eexists. split; [reflexivity|]. cbn -[String.eqb].
    rewrite attach_store_kind, attach_store_value, attach_store_parent_node,
      attach_store_children_parent.
    rewrite attach_store_children_other by (subst new; lia).
    subst new. rewrite !lookup_new, (lookup_old _ _ _ _ Ha). done.
  - unfold command_token. cbn -[mem]. rewrite Hd1, Hd2, Hd3, Hb.
    unfold bind at 1. rewrite Hfa. unfold bind at 1. rewrite Hclass.
    cbn [fst snd]. reflexivity.
Qed.

(** X10, witness: [-o] under the head command [find]. *)
Lemma X10_binary_operator_classification_witness :
  exists w',
    command_token Sample.is_headcommand Sample.is_option
      (Sample.command []) (fun _ _ => ret tt)
      (Sample.word "-o" 5 7) (init_cstate (Some 1))
      (mkWorld [mkNode None None None "root" "" [1];
                mkNode (Some 0) None None "headcommand" "find" []] [])
    = (Ret (mkC (Some 1) false false [] [2]), w')
    /\ kind <$> nodes w' !! 2 = Some "binarylogicop"
    /\ value <$> nodes w' !! 2 = Some "-or"
    /\ parent <$> nodes w' !! 2 = Some (Some 1)
    /\ children <$> nodes w' !! 2 = Some []
    /\ children <$> nodes w' !! 1 = Some [2].
Proof.
  exact (X10_binary_operator_classification
           Sample.is_headcommand Sample.is_option
           (Sample.command []) (fun _ _ => ret tt) "-o"
           (Some []) (Some (5, 7)%Z) None (init_cstate (Some 1))
           (mkWorld [mkNode None None None "root" "" [1];
                     mkNode (Some 0) None None "headcommand" "find" []] [])
           1 (mkNode (Some 0) None None "headcommand" "find" [])
           eq_refl eq_refl eq_refl).
Defined.

(** ** The second pass as a whole *)

Lemma childless_valid (h : list Node) (op : nat) :
  children <$> h !! op = Some [] ->
  exists nop, h !! op = Some nop /\ children nop = [].
Proof. apply fmap_lookup_Some. Qed.

(** The loop over the unary operators, in a linked store where the
    operators still to fold, and those in [others], are childless. *)
Lemma fold_unary_linked (ops others : list nat) :
  forall (w w' : world) (r : outcome bool),
    linked (nodes w) ->
    NoDup (ops ++ others) ->
    Forall (fun op => children <$> nodes w !! op = Some []) (ops ++ others) ->
    fold_unary ops w = (r, w') ->
    (exists b, r = Ret b)
    /\ linked (nodes w')
    /\ Forall (fun op => children <$> nodes w' !! op = Some []) others.
Proof.
  induction ops as [|op ops IH]; intros w w' r Hl Hnd Hch Hrun.
  - injection Hrun as <- <-. eauto.
  - cbn [app] in Hnd, Hch. apply NoDup_cons in Hnd as [Hnin Hnd].
    apply Forall_cons in Hch as [Hop Hch].
    destruct (childless_valid _ _ Hop) as (nop & Hnop & Hnil).
    cbn [fold_unary] in Hrun.
    rewrite (bind_run _ _ w w (rsb nop)) in Hrun by (by apply get_run).
    destruct (rsb nop) as [ri|] eqn:Er.
    + destruct (linked_unary_fold w op ri nop Hl Hnop Er Hnil)
        as (p & pre & post & h' & Hpar & Hcs & Hfold & F1 & _ & _ & _ & _
            & Hl').
      rewrite (bind_run _ _ _ _ _ Hfold) in Hrun.
      apply (IH (mkWorld h' (out w)) w' r); [done|done| |done].
      cbn [nodes]. rewrite Forall_forall in Hch. apply Forall_forall.
      intros q Hq. rewrite F1.
      destruct (decide (q = p)) as [->|Hqp].
      { specialize (Hch p Hq). rewrite Hcs in Hch. by destruct pre. }
      rewrite decide_False by (intros ->; done). by apply Hch.
    + erewrite bind_run in Hrun by reflexivity. cbn [nodes out] in Hrun.
      erewrite bind_run in Hrun by (by apply get_run).
      erewrite bind_run in Hrun by reflexivity.
      injection Hrun as <- <-. cbn [nodes].
      split; [eauto|]. split; [done|].
      rewrite Forall_app in Hch. tauto.
Qed.

(** The loop over the binary operators: either way it ends, the store is
    linked. *)
Lemma fold_binary_linked (ops : list nat) :
  forall (w w' : world) (r : outcome unit),
    linked (nodes w) ->
    NoDup ops ->
    Forall (fun op => children <$> nodes w !! op = Some []) ops ->
    fold_binary ops w = (r, w') ->
    (r = Ret tt \/ r = Exc SystemExit) /\ linked (nodes w').
Proof.
  induction ops as [|op ops IH]; intros w w' r Hl Hnd Hch Hrun.
  - injection Hrun as <- <-. auto.
  - apply NoDup_cons in Hnd as [Hnin Hnd].
    apply Forall_cons in Hch as [Hop Hch].
    destruct (childless_valid _ _ Hop) as (nop & Hnop & Hnil).
    cbn [fold_binary] in Hrun.
    rewrite (bind_run _ _ w w (rsb nop)) in Hrun by (by apply get_run).
    rewrite (bind_run _ _ w w (lsb nop)) in Hrun by (by apply get_run).
    assert (Hexit : forall w0,
      (print (Text "Error: binary logic operator must have both left and right siblings.") ;;;
       p <- get parent (Some op) ;; print (Obj p) ;;; raise SystemExit) w
      = (r, w0) ->
      (r = Ret tt \/ r = Exc SystemExit) /\ linked (nodes w0)).
    { intros w0 Hw0.
      erewrite bind_run in Hw0 by reflexivity. cbn [nodes out] in Hw0.
      erewrite bind_run in Hw0 by (by apply get_run).
      erewrite bind_run in Hw0 by reflexivity.
      injection Hw0 as <- <-. auto. }
    destruct (rsb nop) as [ri|] eqn:Er; [|by apply Hexit].
    destruct (lsb nop) as [li|] eqn:El; [|by apply Hexit].
    destruct (linked_binary_fold w op li ri nop Hl Hnop El Er Hnil)
      as (p & pre & post & h' & Hpar & Hcs & Hfold & F1 & Hl').
    rewrite (bind_run _ _ _ _ _ Hfold) in Hrun.
    apply (IH (mkWorld h' (out w)) w' r); [done|done| |done].
    cbn [nodes]. rewrite Forall_forall in Hch. apply Forall_forall.
    intros q Hq. rewrite F1.
    destruct (decide (q = p)) as [->|Hqp].
    { specialize (Hch p Hq). rewrite Hcs in Hch. by destruct pre. }
    rewrite decide_False by (intros ->; done). by apply Hch.
Qed.

(** X11: the second pass keeps the tree linked.  In a linked store where
    the recorded operators are distinct and childless, as the walk makes
    them, the pass ends with its answer or with [SystemExit], and in both
    cases leaves a linked store. *)
Theorem X11_second_pass_keeps_links
  (st : cstate) (w w' : world) (r : outcome unit) :
  linked (nodes w) ->
  NoDup (unary_logic_ops st ++ binary_logic_ops st) ->
  Forall (fun op => children <$> nodes w !! op = Some [])
         (unary_logic_ops st ++ binary_logic_ops st) ->
  fold_logic_ops st w = (r, w') ->
  (r = Ret tt \/ r = Exc SystemExit) /\ linked (nodes w').
Proof.
  intros Hl Hnd Hch Hrun. unfold fold_logic_ops in Hrun.
  destruct (fold_unary (unary_logic_ops st) w) as [ru w1] eqn:Hu.
  destruct (fold_unary_linked _ _ _ _ _ Hl Hnd Hch Hu)
    as ([b ->] & Hl1 & Hch1).
  rewrite (bind_run _ _ _ _ _ Hu) in Hrun.
  destruct b.
  - injection Hrun as <- <-. auto.
  - apply NoDup_app in Hnd as (_ & _ & Hnd).
    by apply (fold_binary_linked _ _ _ _ Hl1 Hnd Hch1 Hrun).
Qed.

(** X11, witness: the second pass on [find . -name a -or -name b]. *)
Lemma X11_second_pass_keeps_links_witness :
  (fst (fold_logic_ops (mkC (Some 7) false false [] [5])
                       Sample.find_or_walked) = Ret tt
   \/ fst (fold_logic_ops (mkC (Some 7) false false [] [5])
                          Sample.find_or_walked) = Exc SystemExit)
  /\ linked (nodes (snd (fold_logic_ops (mkC (Some 7) false false [] [5])
                                        Sample.find_or_walked))).
Proof.
  apply (X11_second_pass_keeps_links
           (mkC (Some 7) false false [] [5]) Sample.find_or_walked).
  - apply linkedb_sound. vm_compute. reflexivity.
  - apply (bool_decide_unpack _). vm_compute. exact I.
  - repeat constructor.
  - apply surjective_pairing.
Defined.

(** ** Printing a tree *)

Lemma indent_add (a b : nat) :
  indent (a + b) = (indent a ++ indent b)%string.
Proof.
  induction a as [|a IH]; [done|]. cbn [Nat.add indent]. by rewrite IH.
Qed.

Lemma string_app_assoc (a b c : string) :
  ((a ++ b) ++ c = a ++ b ++ c)%string.
Proof. induction a as [|x a IH]; [done|]. cbn. by rewrite IH. Qed.

Lemma forM_print_app (f : tree -> M unit) (ts : list tree) (w : world)
  (P : tree -> list string -> Prop) :
  Forall (fun t => forall w, exists lines,
            f t w = (Ret tt, mkWorld (nodes w) (out w ++ map Text lines))
            /\ P t lines) ts ->
  exists ls,
    forM_ f ts w
    = (Ret tt, mkWorld (nodes w) (out w ++ map Text (concat ls)))
    /\ Forall2 P ts ls.
Proof.
  intros H. revert w. induction H as [|t ts Ht Hts IH]; intros w.
  - exists []. cbn. rewrite app_nil_r. by destruct w.
  - destruct (Ht w) as (l1 & R1 & P1).
    destruct (IH (mkWorld (nodes w) (out w ++ map Text l1)))
      as (ls & R2 & P2).
    exists (l1 :: ls). split; [|by constructor].
    cbn [forM_]. rewrite (bind_run _ _ _ _ _ R1).
    change ((fix go (l : list tree) : M unit :=
               match l with
               | [] => ret tt
               | x :: xs => f x;;; go xs
               end) ts) with (forM_ f ts).
    rewrite R2. cbn [nodes out concat].
    by rewrite map_app, app_assoc.
Qed.

Lemma forM_too_deep (g : tree -> M unit) (f : nat) (ts : list tree) :
  Forall (fun t => forall w,
            (height t <= f -> exists w', g t w = (Ret tt, w'))
            /\ (f < height t -> fst (g t w) = Exc RuntimeError)) ts ->
  f < fold_right (fun c m => Nat.max (height c) m) 0 ts ->
  forall w, fst (forM_ g ts w) = Exc RuntimeError.
Proof.
  induction 1 as [|t ts Ht Hts IH]; intros Hdeep w; [cbn in Hdeep; lia|].
  cbn [fold_right] in Hdeep. cbn [forM_].
  change ((fix go (l : list tree) : M unit :=
             match l with
             | [] => ret tt
             | x :: xs => g x;;; go xs
             end) ts) with (forM_ g ts).
  destruct (Ht w) as [Hok Hbad].
  destruct (le_lt_dec (height t) f) as [Hle|Hlt].
  - destruct (Hok Hle) as [w' R]. rewrite (bind_run _ _ _ _ _ R).
    apply IH. lia.
  - specialize (Hbad Hlt). unfold bind.
    destruct (g t w) as [[u|e] w']; cbn [fst] in Hbad; [done|].
    by rewrite Hbad.
Qed.

(** X12: with at least as many frames left as the tree is deep,
    [pretty_print] raises nothing and leaves the tree as it is; it prints
    one line for every node of the tree, each indented by at least four
    spaces for every unit of [depth], the first being the line of the node
    itself.  With fewer frames it ends with the exception of the recursion
    limit. *)
Theorem X12_pretty_print_one_line_per_node
  (frames : nat) (t : tree) (depth : Z) (w : world) :
  (height t <= frames ->
   exists lines,
     pretty_print frames t depth w
     = (Ret tt, mkWorld (nodes w) (out w ++ map Text lines))
     /\ length lines = size t
     /\ head lines
        = Some (indent (Z.to_nat depth) ++ Str.upper (tkind t)
                ++ "(" ++ tvalue t ++ ")")%string
     /\ Forall (fun l => exists rest,
                  l = (indent (Z.to_nat depth) ++ rest)%string) lines)
  /\ (frames < height t ->
      fst (pretty_print frames t depth w) = Exc RuntimeError).
Proof.
  revert frames depth w.
  induction t as [k v ts IH] using tree_induction. intros frames depth w.
  destruct frames as [|f].
  { split; [cbn [height]; lia|reflexivity]. }
  cbn [pretty_print tkind tvalue height].
  set (line := (indent (Z.to_nat depth) ++ Str.upper k ++ "(" ++ v ++ ")")%string).
  erewrite bind_run by reflexivity. cbn [nodes out].
  split.
  - intros Hh. apply le_S_n in Hh.
    assert (Hts : Forall (fun t => height t <= f) ts).
    { clear IH. induction ts as [|c ts IHts]; constructor;
        cbn [fold_right] in Hh; [lia|apply IHts; lia]. }
    destruct (forM_print_app (fun child => pretty_print f child (depth + 1))
                ts (mkWorld (nodes w) (out w ++ [Text line]))
                (fun t lines =>
                   length lines = size t
                   /\ Forall (fun l => exists rest,
                        l = (indent (Z.to_nat (depth + 1)) ++ rest)%string)
                             lines))
      as (ls & R & P).
    { rewrite Forall_forall in IH, Hts. apply Forall_forall.
      intros c Hc w0.
      destruct (proj1 (IH c Hc f (depth + 1)%Z w0) (Hts c Hc))
        as (lines & R & L & _ & F). eauto. }
    exists (line :: concat ls). cbn [nodes out] in R.
    split; [|split; [|split]].
    + rewrite R. cbn [map]. by rewrite <- app_assoc.
    + cbn [length size]. f_equal. clear R IH Hts Hh.
      induction P as [|t l ts' ls' [Hl _] _ IHP]; [done|].
      cbn [concat fold_right]. rewrite length_app, Hl. by f_equal.
    + done.
    + constructor; [by eexists|].
      assert (Hd : exists k', Z.to_nat (depth + 1) = Z.to_nat depth + k').
      { exists (Z.to_nat (depth + 1) - Z.to_nat depth). lia. }
      destruct Hd as [k' Hd].
      clear R IH Hts Hh. induction P as [|t l ts' ls' [_ Hl] _ IHP]; [done|].
      cbn [concat]. apply Forall_app. split; [|done].
      eapply Forall_impl; [exact Hl|]. intros s [rest ->].
      rewrite Hd, indent_add, string_app_assoc. by eexists.
  - intros Hh. apply Nat.succ_lt_mono in Hh.
    apply forM_too_deep with (f := f); [|done].
    eapply Forall_impl; [exact IH|]. intros c Hc w0. split.
    + intros Hle. destruct (proj1 (Hc f (depth + 1)%Z w0) Hle)
        as (lines & R & _). eauto.
    + apply (Hc f (depth + 1)%Z w0).
Qed.

(** X12, witness: the tree of [find -name a] with three frames, and with
    two. *)
Lemma X12_pretty_print_one_line_per_node_witness :
  (exists lines,
     pretty_print 3 (T "root" ""
                       [T "headcommand" "find"
                          [T "flag" "-name" []]]) 0 empty_world
     = (Ret tt, mkWorld (nodes empty_world)
                        (out empty_world ++ map Text lines))
     /\ length lines = 3
     /\ head lines = Some "ROOT()"
     /\ Forall (fun l => exists rest, l = ("" ++ rest)%string) lines)
  /\ fst (pretty_print 2 (T "root" ""
                            [T "headcommand" "find"
                               [T "flag" "-name" []]]) 0 empty_world)
     = Exc RuntimeError.
Proof.
  split.
  - apply (proj1 (X12_pretty_print_one_line_per_node 3
                    (T "root" "" [T "headcommand" "find" [T "flag" "-name" []]])
                    0 empty_world)).
    cbn. lia.
  - apply (proj2 (X12_pretty_print_one_line_per_node 2
                    (T "root" "" [T "headcommand" "find" [T "flag" "-name" []]])
                    0 empty_world)).
    cbn. lia.
Defined.

(** ** The text pre-pass *)

Lemma prefix_nil (s : string) : String.prefix "" s = true.
Proof. by destruct s. Qed.

Lemma prefix_cons (a b : ascii) (s1 s2 : string) :
  String.prefix (String a s1) (String b s2)
  = Ascii.eqb a b && String.prefix s1 s2.
Proof.
  cbn [String.prefix]. destruct (ascii_dec a b) as [->|Hne].
  - by rewrite Ascii.eqb_refl.
  - apply Ascii.eqb_neq in Hne. by rewrite Hne.
Qed.

Lemma prefix_app (a b s : string) :
  String.prefix (a ++ b) s
  = String.prefix a s && String.prefix b (Str.drop (String.length a) s).
Proof.
  revert s. induction a as [|c a IH]; intros s.
  - by rewrite prefix_nil.
  - destruct s as [|d s]; [done|].
    cbn [append String.length Str.drop]. rewrite !prefix_cons, IH.
    by rewrite andb_assoc.
Qed.

Lemma findall_tar_fix_unfold (c : ascii) (r : string) :
  findall_tar_fix 0 (String c r)
  = if String.prefix " tar " (String c r) then
      match Str.drop 5 (String c r) with
      | String x _ =>
          if Str.is_word_char x
          then Str.take 6 (String c r) :: findall_tar_fix 5 r
          else findall_tar_fix 0 r
      | EmptyString => findall_tar_fix 0 r
      end
    else findall_tar_fix 0 r.
Proof. reflexivity. Qed.

(** Where [re.findall] finds nothing, so does [str.replace] with one of
    the texts it could have found. *)
Lemma no_match_no_replace (x : ascii) (new s : string) :
  Str.is_word_char x = true ->
  findall_tar_fix 0 s = [] ->
  findall_tar_fix 0 (Str.drop 1 s) = []
  /\ Str.replace_from (" tar " ++ String x "") new 0 s = s.
Proof.
  intros Hx. induction s as [|c r IH]; intros H; [done|].
  rewrite findall_tar_fix_unfold in H.
  assert (Hr : findall_tar_fix 0 r = []
               /\ String.prefix (" tar " ++ String x "") (String c r) = false).
  { rewrite (prefix_app " tar " (String x "")).
    destruct (String.prefix " tar " (String c r)); [|done].
    change (String.length " tar ") with 5.
    destruct (Str.drop 5 (String c r)) as [|y t]; [done|].
    destruct (Str.is_word_char y) eqn:Ey; [done|].
    split; [done|]. rewrite prefix_cons.
    destruct (Ascii.eqb_spec x y) as [->|]; [congruence|done]. }
  destruct Hr as [Hr Hp]. split; [done|].
  cbn [Str.replace_from]. rewrite Hp. f_equal. by apply IH.
Qed.

#[local] Arguments Ascii.eqb : simpl nomatch.

Lemma rstrip_cons (c : ascii) (t : string) :
  Str.rstrip t = t -> t <> "" -> Str.rstrip (String c t) = String c t.
Proof.
  intros H Hne. cbn [Str.rstrip]. rewrite H. by destruct t.
Qed.

(** X13: the first argument of [tar] is made an option.  For a command
    [tar] followed by a space and an argument, with no other [tar] word
    before a letter, digit or underscore after that and no white space at
    its end, the pre-pass puts a dash before the argument when it starts
    with a letter, a digit or an underscore, and leaves the command as it
    is otherwise. *)
Theorem X13_first_argument_of_tar (x : ascii) (rest : string) :
  findall_tar_fix 0 (String x rest) = [] ->
  Str.rstrip (String x rest) = String x rest ->
  special_command_normalization ("tar " ++ String x rest)
  = (if Str.is_word_char x then "tar -" ++ String x rest
     else "tar " ++ String x rest)%string.
Proof.
  intros Hnone Hstrip.
  assert (Hrs : forall pre, Str.rstrip (pre ++ String x rest)
                            = (pre ++ String x rest)%string).
  { induction pre as [|c pre IH]; [done|]. cbn [append].
    apply rstrip_cons; [done|]. by destruct pre. }
  assert (Hx' : Str.is_word_char x = false -> Ascii.eqb "t" x = false).
  { intros Hx. by destruct (Ascii.eqb_spec "t" x) as [<-|]. }
  assert (E1 : findall_tar_fix 0 (" " ++ "tar " ++ String x rest)
               = if Str.is_word_char x
                 then [(" tar " ++ String x "")%string] else []).
  { cbn [append]. rewrite findall_tar_fix_unfold.
    rewrite !prefix_cons, prefix_nil.
    cbn [Ascii.eqb Bool.eqb andb Str.drop Str.take].
    destruct (Str.is_word_char x) eqn:Hx.
    - cbn [findall_tar_fix].
      destruct (no_match_no_replace x "" (String x rest) Hx Hnone)
        as [Hrest _].
      cbn [Str.drop] in Hrest. by rewrite Hrest.
    - assert (Hskip : forall c r, Ascii.eqb " " c = false ->
                findall_tar_fix 0 (String c r) = findall_tar_fix 0 r).
      { intros c r Hc. by rewrite findall_tar_fix_unfold, prefix_cons, Hc. }
      rewrite !Hskip by reflexivity.
      rewrite findall_tar_fix_unfold, !prefix_cons, (Hx' eq_refl).
      rewrite andb_false_r. exact Hnone. }
  unfold special_command_normalization.
  change (Str.startswith "tar" ("tar " ++ String x rest)) with true.
  cbv iota zeta. rewrite E1.
  destruct (Str.is_word_char x) eqn:Hx.
  - destruct (no_match_no_replace x "" (String x rest) Hx Hnone)
      as [Hrest _].
    cbn [Str.drop] in Hrest.
    destruct (no_match_no_replace x (" tar -" ++ String x "") rest Hx Hrest)
      as [_ Hsame].
    assert (Hin : Str.replace "tar " "tar -" (" tar " ++ String x "")
                  = (" tar -" ++ String x "")%string).
    { unfold Str.replace. cbn [append Str.replace_from].
      rewrite !prefix_cons, !prefix_nil. cbn [String.prefix].
      rewrite !andb_false_r.
      cbn [Ascii.eqb Bool.eqb andb String.length Nat.sub append
           Str.replace_from].
      reflexivity. }
    cbn [fold_left]. rewrite Hin. unfold Str.replace.
    cbn [append Str.replace_from].
    rewrite !prefix_cons, prefix_nil.
    cbn [Ascii.eqb Bool.eqb andb String.length Nat.sub append
         Str.replace_from].
    rewrite Ascii.eqb_refl. cbn [andb].
    cbn [append] in Hsame. rewrite Hsame.
    unfold Str.strip. cbn [Str.lstrip].
    change (Str.is_space " ") with true. change (Str.is_space "t") with false.
    cbv iota. apply (Hrs "tar -").
  - cbn [fold_left].
    unfold Str.strip. cbn [append Str.lstrip].
    change (Str.is_space " ") with true. change (Str.is_space "t") with false.
    cbv iota. apply (Hrs "tar ").
Qed.

(** X13, witness: [tar xvf a.tar b]. *)
Lemma X13_first_argument_of_tar_witness :
  special_command_normalization ("tar " ++ String "x" "vf a.tar b")
  = (if Str.is_word_char "x" then "tar -" ++ String "x" "vf a.tar b"
     else "tar " ++ String "x" "vf a.tar b")%string.
Proof.
  exact (X13_first_argument_of_tar "x" "vf a.tar b" eq_refl eq_refl).
Defined.

(** ** Several root nodes *)

(** X14: when the parser answers with several root nodes, [normalize_ast]
    prints one line about it and goes on with the first root alone: the
    answer and the tree are those it gives when the parser answers with
    that root only, and the other roots are never read. *)
Theorem X14_only_the_first_root_is_normalized
  (is_headcommand is_option : string -> bool) (digit_fold : string -> string)
  (parse : string -> exn + list rnode) (cmd : string) (nd rq : bool)
  (t0 t1 : rnode) (more : list rnode) (w : world) :
  (prepass cmd =? "") = false ->
  parse (prepass cmd) = inr (t0 :: t1 :: more) ->
  normalize_ast is_headcommand is_option digit_fold parse cmd nd rq w
  = normalize_ast is_headcommand is_option digit_fold (fun _ => inr [t0])
      cmd nd rq
      (mkWorld (nodes w)
         (out w ++ [Text ("Doesn't support command with multiple root nodes: "
                          ++ prepass cmd)])).
Proof.
  intros Hne Hparse. unfold normalize_ast. fold (prepass cmd).
  rewrite Hne, Hparse. cbn [length Nat.ltb Nat.leb].
  unfold bind at 1 3, print at 1, ret at 2. reflexivity.
Qed.

(** X14, witness: two commands, of which [echo a] is the first. *)
Lemma X14_only_the_first_root_is_normalized_witness :
  normalize_ast Sample.is_headcommand Sample.is_option Sample.digit_fold
    (Sample.parses_to
       [Sample.command [Sample.word "echo" 0 4; Sample.word "a" 5 6];
        Sample.command [Sample.word "echo" 8 12; Sample.word "b" 13 14]])
    "echo a; echo b" true true empty_world
  = normalize_ast Sample.is_headcommand Sample.is_option Sample.digit_fold
      (fun _ => inr [Sample.command [Sample.word "echo" 0 4;
                                     Sample.word "a" 5 6]])
      "echo a; echo b" true true
      (mkWorld (nodes empty_world)
         (out empty_world
          ++ [Text ("Doesn't support command with multiple root nodes: "
                    ++ prepass "echo a; echo b")])).
Proof.
  exact (X14_only_the_first_root_is_normalized
           Sample.is_headcommand Sample.is_option Sample.digit_fold
           (Sample.parses_to
              [Sample.command [Sample.word "echo" 0 4; Sample.word "a" 5 6];
               Sample.command [Sample.word "echo" 8 12;
                               Sample.word "b" 13 14]])
           "echo a; echo b" true true
           (Sample.command [Sample.word "echo" 0 4; Sample.word "a" 5 6])
           (Sample.command [Sample.word "echo" 8 12; Sample.word "b" 13 14])
           [] empty_world eq_refl eq_refl).
Defined.

(** * The script that splits the data *)

(** ** Lists filled in step *)

Lemma combine_snoc {A B} (a : list A) (b : list B) (x : A) (y : B) :
  length a = length b ->
  combine (a ++ [x]) (b ++ [y]) = combine a b ++ [(x, y)].
Proof.
  revert b. induction a as [|a0 a IH]; intros [|b0 b] H; try done.
  cbn. f_equal. apply IH. by injection H.
Qed.

Lemma dict_append_pairs (k : string) (x : string * string)
  (d : list (string * list (string * string))) :
  concat (map snd (SplitData.dict_append k x d))
  ≡ₚ concat (map snd d) ++ [x].
Proof.
  induction d as [|[k' xs] d IH]; [done|].
  cbn [SplitData.dict_append]. destruct (k' =? k)%string; cbn [map snd concat].
  - rewrite <- !app_assoc. apply Permutation_app_head, Permutation_app_comm.
  - rewrite IH. by rewrite app_assoc.
Qed.

Lemma group_pairs_all (tok : string -> list string) (nls cms : list string) :
  concat (map snd (SplitData.group_pairs tok nls cms)) ≡ₚ combine nls cms.
Proof.
  unfold SplitData.group_pairs.
  assert (H : forall l d,
    concat (map snd
      (fold_left (fun pairs p =>
                    SplitData.dict_append
                      (SplitData.join " " (tok (fst p))) p pairs) l d))
    ≡ₚ concat (map snd d) ++ l).
  { induction l as [|p l IH]; intros d; cbn [fold_left].
    - by rewrite app_nil_r.
    - rewrite IH, dict_append_pairs. by rewrite <- app_assoc. }
  by rewrite H.
Qed.

(** ** The first loop *)

Lemma fold_to_train (group : list (string * string)) (s : SplitData.split) :
  SplitData.aligned s ->
  let s' := fold_left SplitData.to_train group s in
  SplitData.aligned s'
  /\ SplitData.pairs_of s' ≡ₚ SplitData.pairs_of s ++ group
  /\ (forall cm, cm ∈ SplitData.train_commands s'
                 <-> cm ∈ SplitData.train_commands s \/ cm ∈ map snd group)
  /\ SplitData.train_cm_list s'
     = SplitData.train_cm_list s ++ map snd group.
Proof.
  revert s. induction group as [|p group IH]; intros s Hs; cbn [fold_left].
  - split; [done|]. rewrite !app_nil_r. split; [done|].
    split; [|done]. intros cm. cbn. rewrite elem_of_nil. tauto.
  - destruct Hs as (H1 & H2 & H3).
    destruct (IH (SplitData.to_train s p)) as (A & P & C & L);
      [by unfold SplitData.aligned; cbn; rewrite !length_app, H1|].
    split; [done|]. split; [|split].
    + rewrite P. unfold SplitData.pairs_of. cbn.
      rewrite combine_snoc by done. destruct p. cbn.
      rewrite <- !app_assoc. apply Permutation_app_head.
      rewrite (Permutation_app_comm [_]). rewrite <- !app_assoc.
      do 2 apply Permutation_app_head. apply Permutation_app_comm.
    + intros cm. rewrite C. cbn. rewrite !elem_of_cons. tauto.
    + rewrite L. cbn. by rewrite <- app_assoc.
Qed.

Lemma fold_to_dev (group : list (string * string)) (s : SplitData.split) :
  SplitData.aligned s ->
  let s' := fold_left SplitData.to_dev group s in
  SplitData.aligned s'
  /\ SplitData.pairs_of s' ≡ₚ SplitData.pairs_of s ++ group
  /\ SplitData.train_commands s' = SplitData.train_commands s
  /\ SplitData.train_cm_list s' = SplitData.train_cm_list s.
Proof.
  revert s. induction group as [|p group IH]; intros s Hs; cbn [fold_left].
  - by rewrite app_nil_r.
  - destruct Hs as (H1 & H2 & H3).
    destruct (IH (SplitData.to_dev s p)) as (A & P & C & L);
      [by unfold SplitData.aligned; cbn; rewrite !length_app, H2|].
    split; [done|]. split; [|done].
    rewrite P. unfold SplitData.pairs_of. cbn.
    rewrite combine_snoc by done. destruct p. cbn.
    rewrite <- !app_assoc. do 2 apply Permutation_app_head.
    rewrite (Permutation_app_comm [_]). rewrite <- !app_assoc.
    apply Permutation_app_head. apply Permutation_app_comm.
Qed.

Lemma fold_to_test (group : list (string * string)) (s : SplitData.split) :
  SplitData.aligned s ->
  let s' := fold_left SplitData.to_test group s in
  SplitData.aligned s'
  /\ SplitData.pairs_of s' ≡ₚ SplitData.pairs_of s ++ group
  /\ SplitData.train_commands s' = SplitData.train_commands s
  /\ SplitData.train_cm_list s' = SplitData.train_cm_list s.
Proof.
  revert s. induction group as [|p group IH]; intros s Hs; cbn [fold_left].
  - by rewrite app_nil_r.
  - destruct Hs as (H1 & H2 & H3).
    destruct (IH (SplitData.to_test s p)) as (A & P & C & L);
      [by unfold SplitData.aligned; cbn; rewrite !length_app, H3|].
    split; [done|]. split; [|done].
    rewrite P. unfold SplitData.pairs_of. cbn.
    rewrite combine_snoc by done. destruct p. cbn.
    by rewrite <- !app_assoc.
Qed.

Lemma assign_fold_pairs (ind : nat) (group : list (string * string))
  (s : SplitData.split) :
  ind < SplitData.num_folds ->
  SplitData.aligned s ->
  let s' := SplitData.assign_fold ind group s in
  SplitData.aligned s'
  /\ SplitData.pairs_of s' ≡ₚ SplitData.pairs_of s ++ group.
Proof.
  intros Hind Hs. unfold SplitData.assign_fold, SplitData.num_folds in *.
  cbn [Nat.sub].
  destruct (Nat.ltb_spec ind 10).
  { by destruct (fold_to_train group (SplitData.count_train s) Hs)
      as (? & ? & _). }
  destruct (Nat.eqb_spec ind 10).
  { by destruct (fold_to_dev group (SplitData.count_dev s) Hs)
      as (? & ? & _). }
  destruct (Nat.eqb_spec ind 11); [|lia].
  by destruct (fold_to_test group (SplitData.count_test s) Hs) as (? & ? & _).
Qed.

(** The commands of the train lists are the commands in the set. *)
Lemma assign_fold_commands (ind : nat) (group : list (string * string))
  (s : SplitData.split) :
  SplitData.aligned s ->
  (forall cm, cm ∈ SplitData.train_commands s
              <-> cm ∈ SplitData.train_cm_list s) ->
  let s' := SplitData.assign_fold ind group s in
  SplitData.aligned s'
  /\ (forall cm, cm ∈ SplitData.train_commands s'
                 <-> cm ∈ SplitData.train_cm_list s').
Proof.
  intros Hs Hc. unfold SplitData.assign_fold.
  destruct (_ <? _)%nat.
  { destruct (fold_to_train group (SplitData.count_train s) Hs)
      as (A & _ & C & L).
    split; [done|]. intros cm. rewrite C, L, elem_of_app. cbn.
    by rewrite Hc. }
  destruct (_ =? _)%nat.
  { destruct (fold_to_dev group (SplitData.count_dev s) Hs)
      as (A & _ & C & L).
    split; [done|]. intros cm. by rewrite C, L. }
  destruct (_ =? _)%nat; [|done].
  destruct (fold_to_test group (SplitData.count_test s) Hs)
    as (A & _ & C & L).
  split; [done|]. intros cm. by rewrite C, L.
Qed.

Section FirstLoop.

Variable rng : Type.
Variable randrange : nat -> rng -> nat * rng.

Lemma assign_all_commands (pairs : list (string * list (string * string))) :
  forall s g s' g',
    SplitData.aligned s ->
    (forall cm, cm ∈ SplitData.train_commands s
                <-> cm ∈ SplitData.train_cm_list s) ->
    SplitData.assign_all rng randrange pairs s g = (s', g') ->
    SplitData.aligned s'
    /\ (forall cm, cm ∈ SplitData.train_commands s'
                   <-> cm ∈ SplitData.train_cm_list s').
Proof.
  induction pairs as [|[k group] pairs IH]; intros s g s' g' Hs Hc Hrun.
  - by injection Hrun as <- <-.
  - cbn [SplitData.assign_all] in Hrun.
    destruct (randrange SplitData.num_folds g) as [ind g1].
    destruct (assign_fold_commands ind group s Hs Hc) as [A C].
    by apply (IH _ _ _ _ A C Hrun).
Qed.

Hypothesis randrange_below :
  forall n g, 0 < n -> fst (randrange n g) < n.

Lemma assign_all_pairs (pairs : list (string * list (string * string))) :
  forall s g s' g',
    SplitData.aligned s ->
    SplitData.assign_all rng randrange pairs s g = (s', g') ->
    SplitData.pairs_of s'
    ≡ₚ SplitData.pairs_of s ++ concat (map snd pairs).
Proof.
  induction pairs as [|[k group] pairs IH]; intros s g s' g' Hs Hrun.
  - injection Hrun as <- <-. by rewrite app_nil_r.
  - cbn [SplitData.assign_all] in Hrun.
    pose proof (randrange_below SplitData.num_folds g) as Hind.
    destruct (randrange SplitData.num_folds g) as [ind g1].
    cbn in Hind. specialize (Hind ltac:(unfold SplitData.num_folds; lia)).
    destruct (assign_fold_pairs ind group s Hind Hs) as [A P].
    rewrite (IH _ _ _ _ A Hrun), P. cbn [map snd concat].
    by rewrite <- app_assoc.
Qed.

End FirstLoop.

(** ** The loops that move examples to the train set *)

Lemma move_one_step (commands : list string) (m : SplitData.moving)
  (p : string * string) :
  SplitData.m_aligned m ->
  let m' := SplitData.move_one commands m p in
  SplitData.m_aligned m'
  /\ SplitData.m_pairs m' ≡ₚ SplitData.m_pairs m ++ [p]
  /\ (Forall (fun cm => cm ∈ commands) (SplitData.m_train_cm m) ->
      Forall (fun cm => cm ∈ commands) (SplitData.m_train_cm m'))
  /\ (Forall (fun cm => cm ∉ commands) (SplitData.m_cleaned_cm m) ->
      Forall (fun cm => cm ∉ commands) (SplitData.m_cleaned_cm m')).
Proof.
  intros [H1 H2]. destruct p as [nl cm].
  assert (Hmem : mem cm commands = true <-> cm ∈ commands).
  { unfold mem. rewrite existsb_exists. split.
    - intros (x & Hin & E). apply String.eqb_eq in E as ->.
      by apply list_elem_of_In.
    - intros Hin. exists cm. split; [by apply list_elem_of_In|].
      apply String.eqb_refl. }
  unfold SplitData.move_one, SplitData.m_aligned, SplitData.m_pairs.
  cbn [fst snd]. destruct (mem cm commands) eqn:E; cbn.
  - rewrite !length_app, H1. split; [done|]. split; [|split].
    + rewrite combine_snoc by done. rewrite <- !app_assoc.
      apply Permutation_app_head. apply Permutation_app_comm.
    + intros Ht. apply Forall_app. split; [done|].
      constructor; [|done]. by apply Hmem.
    + done.
  - rewrite !length_app, H2. split; [done|]. split; [|split].
    + rewrite combine_snoc by done. by rewrite <- !app_assoc.
    + done.
    + intros Hc. apply Forall_app. split; [done|].
      constructor; [|done]. intros Hin. apply Hmem in Hin. congruence.
Qed.

Lemma move_all (commands : list string) (l : list (string * string)) :
  forall m,
    SplitData.m_aligned m ->
    let m' := fold_left (SplitData.move_one commands) l m in
    SplitData.m_aligned m'
    /\ SplitData.m_pairs m' ≡ₚ SplitData.m_pairs m ++ l
    /\ (Forall (fun cm => cm ∈ commands) (SplitData.m_train_cm m) ->
        Forall (fun cm => cm ∈ commands) (SplitData.m_train_cm m'))
    /\ (Forall (fun cm => cm ∉ commands) (SplitData.m_cleaned_cm m) ->
        Forall (fun cm => cm ∉ commands) (SplitData.m_cleaned_cm m')).
Proof.
  induction l as [|p l IH]; intros m Hm; cbn [fold_left].
  - rewrite app_nil_r. done.
  - destruct (move_one_step commands m p Hm) as (A1 & P1 & T1 & C1).
    destruct (IH _ A1) as (A & P & T & C).
    split; [done|]. split; [|auto].
    rewrite P, P1. by rewrite <- app_assoc.
Qed.

(** ** The choice of the dev set *)

Lemma select_elems (indices : list nat) (nl cm : list string) :
  forall nl_out cm_out a b,
    SplitData.select indices nl cm nl_out cm_out = Ret (a, b) ->
    length a = length nl_out + length indices
    /\ length b = length cm_out + length indices
    /\ (forall y, y ∈ b -> y ∈ cm_out \/ y ∈ cm).
Proof.
  induction indices as [|i rest IH]; intros nl_out cm_out a b Hrun.
  - injection Hrun as <- <-. cbn. rewrite !Nat.add_0_r. auto.
  - cbn [SplitData.select] in Hrun.
    destruct (nl !! i) as [x|] eqn:Ex; [|done].
    destruct (cm !! i) as [y|] eqn:Ey; [|done].
    destruct (IH _ _ _ _ Hrun) as (La & Lb & Hin).
    rewrite length_app in La, Lb. cbn in *.
    split; [lia|]. split; [lia|].
    intros z Hz. destruct (Hin z Hz) as [H|H]; [|by right].
    apply elem_of_app in H as [H|H]; [by left|].
    apply list_elem_of_singleton in H as ->. right.
    by eapply list_elem_of_lookup_2.
Qed.

Lemma select_run (indices : list nat) (nl cm : list string) :
  length nl = length cm ->
  Forall (fun i => i < length nl) indices ->
  forall nl_out cm_out,
    length nl_out = length cm_out ->
    exists a b,
      SplitData.select indices nl cm nl_out cm_out = Ret (a, b)
      /\ length a = length b
      /\ combine a b
         = combine nl_out cm_out
           ++ map (fun i => nth i (combine nl cm) (""%string, ""%string))
                  indices.
Proof.
  intros Hlen. induction 1 as [|i rest Hi Hrest IH]; intros nl_out cm_out Ho.
  - exists nl_out, cm_out. cbn. by rewrite app_nil_r.
  - cbn [SplitData.select].
    destruct (nl !! i) as [x|] eqn:Ex;
      [|apply lookup_ge_None in Ex; lia].
    destruct (cm !! i) as [y|] eqn:Ey;
      [|apply lookup_ge_None in Ey; lia].
    destruct (IH (nl_out ++ [x]) (cm_out ++ [y])) as (a & b & R & L & C);
      [by rewrite !length_app, Ho|].
    exists a, b. split; [done|]. split; [done|].
    rewrite C, combine_snoc by done. cbn [map].
    rewrite <- app_assoc. cbn [app]. do 3 f_equal.
    rewrite combine_nth by done.
    apply nth_lookup_Some with (d := ""%string) in Ex, Ey.
    by rewrite Ex, Ey.
Qed.

Lemma map_nth_seq {A} (l : list A) (d : A) :
  map (fun i => nth i l d) (seq 0 (length l)) = l.
Proof.
  induction l as [|x l IH]; [done|].
  cbn [length seq map nth]. f_equal.
  rewrite <- seq_shift, map_map. exact IH.
Qed.

Lemma shuffled_all {A} (l : list A) (d : A) (indices : list nat) :
  indices ≡ₚ seq 0 (length l) ->
  map (fun i => nth i l d) indices ≡ₚ l.
Proof.
  intros H. rewrite H. by rewrite map_nth_seq.
Qed.

(** ** The script as a whole *)

Lemma four_lists {A} (t2 f c2 k t1 e c1 td : list A) :
  t2 ++ c2 ≡ₚ t1 ++ e -> f ++ k ≡ₚ c1 -> t1 ++ c1 ≡ₚ td ->
  t2 ++ f ++ c2 ++ k ≡ₚ td ++ e.
Proof.
  intros H1 H2 H3. rewrite <- H3, <- H2.
  transitivity ((t2 ++ c2) ++ (f ++ k)).
  { rewrite <- !app_assoc. apply Permutation_app_head.
    rewrite !app_assoc. apply Permutation_app_tail.
    apply Permutation_app_comm. }
  rewrite H1. rewrite <- !app_assoc. apply Permutation_app_head.
  rewrite (app_assoc f k e). apply Permutation_app_comm.
Qed.

(** X15: with a generator whose [randrange(n)] is below [n] and whose
    [shuffle] permutes, and two files of as many lines, the script ends
    without an exception and what it writes is a partition of what it
    read: the three sets have as many descriptions as commands each, and
    their pairs, taken together, are the pairs of stripped lines, each as
    often as it was read. *)
Theorem X15_split_is_a_partition
  (tok : string -> list string) (rng : Type)
  (randrange : nat -> rng -> nat * rng)
  (shuffle : list nat -> rng -> list nat * rng)
  (nl_lines cm_lines : list string) (g : rng) :
  (forall n g0, 0 < n -> fst (randrange n g0) < n) ->
  (forall l g0, fst (shuffle l g0) ≡ₚ l) ->
  length nl_lines = length cm_lines ->
  exists out g',
    SplitData.split_data tok rng randrange shuffle nl_lines cm_lines g
    = (Ret out, g')
    /\ length (SplitData.train_nl out) = length (SplitData.train_cm out)
    /\ length (SplitData.dev_nl out) = length (SplitData.dev_cm out)
    /\ length (SplitData.test_nl out) = length (SplitData.test_cm out)
    /\ combine (SplitData.train_nl out) (SplitData.train_cm out)
       ++ combine (SplitData.dev_nl out) (SplitData.dev_cm out)
       ++ combine (SplitData.test_nl out) (SplitData.test_cm out)
       ≡ₚ combine (map Str.strip nl_lines) (map Str.strip cm_lines).
Proof.
  intros Hrand Hshuffle Hlen. unfold SplitData.split_data.
  rewrite !length_map, Hlen, Nat.eqb_refl. cbn [negb].
  set (nls := map Str.strip nl_lines). set (cms := map Str.strip cm_lines).
  destruct (SplitData.assign_all _ _ _ _ _) as [s g1] eqn:Ha.
  assert (H0 : SplitData.aligned SplitData.empty_split) by done.
  destruct (assign_all_commands _ _ _ _ _ _ _ H0 ltac:(done) Ha)
    as [(S1 & S2 & S3) _].
  pose proof (assign_all_pairs _ _ Hrand _ _ _ _ _ H0 Ha) as Ps.
  rewrite group_pairs_all in Ps.
  change (SplitData.pairs_of SplitData.empty_split)
    with (@nil (string * string)) in Ps.
  cbn [app] in Ps. unfold SplitData.pairs_of in Ps.
  set (commands := SplitData.train_commands s).
  set (m1 := fold_left (SplitData.move_one commands)
               (combine (SplitData.dev_nl_list s) (SplitData.dev_cm_list s))
               (SplitData.mkMoving (SplitData.train_nl_list s)
                                   (SplitData.train_cm_list s) [] [] 0)).
  set (m2 := fold_left (SplitData.move_one commands)
               (combine (SplitData.test_nl_list s) (SplitData.test_cm_list s))
               (SplitData.mkMoving (SplitData.m_train_nl m1)
                                   (SplitData.m_train_cm m1) [] [] 0)).
  destruct (move_all commands
              (combine (SplitData.dev_nl_list s) (SplitData.dev_cm_list s))
              (SplitData.mkMoving (SplitData.train_nl_list s)
                                  (SplitData.train_cm_list s) [] [] 0))
    as ([A1 B1] & P1 & _); [done|].
  fold m1 in A1, B1, P1.
  destruct (move_all commands
              (combine (SplitData.test_nl_list s) (SplitData.test_cm_list s))
              (SplitData.mkMoving (SplitData.m_train_nl m1)
                                  (SplitData.m_train_cm m1) [] [] 0))
    as ([A2 B2] & P2 & _); [done|].
  fold m2 in A2, B2, P2.
  unfold SplitData.m_pairs in P1, P2.
  cbn [SplitData.m_train_nl SplitData.m_train_cm SplitData.m_cleaned_nl
       SplitData.m_cleaned_cm combine] in P1, P2.
  rewrite app_nil_r in P1, P2.
  pose proof (Hshuffle (seq 0 (length (SplitData.m_cleaned_nl m1))) g1)
    as Hperm.
  destruct (shuffle _ g1) as [indices g2]. cbn [fst] in Hperm.
  assert (Hvalid : Forall (fun i => i < length (SplitData.m_cleaned_nl m1))
                          indices).
  { apply Forall_forall. intros i Hi. rewrite Hperm in Hi.
    apply list_elem_of_In, in_seq in Hi. lia. }
  rewrite <- (firstn_skipn 100 indices) in Hvalid.
  apply Forall_app in Hvalid as [Hfirst Hrest].
  destruct (select_run _ _ _ B1 Hfirst [] [] eq_refl)
    as (a1 & b1 & R1 & L1 & C1).
  destruct (select_run _ _ _ B1 Hrest _ _ B2)
    as (a2 & b2 & R2 & L2 & C2).
  rewrite R1, R2. eexists _, _. split; [reflexivity|].
  cbn [SplitData.train_nl SplitData.train_cm SplitData.dev_nl
       SplitData.dev_cm SplitData.test_nl SplitData.test_cm].
  split; [done|]. split; [done|]. split; [done|].
  rewrite C1, C2. cbn [combine app].
  set (get := fun i => nth i (combine (SplitData.m_cleaned_nl m1)
                                      (SplitData.m_cleaned_cm m1))
                           (""%string, ""%string)).
  assert (Hall : map get (firstn 100 indices) ++ map get (skipn 100 indices)
                 ≡ₚ combine (SplitData.m_cleaned_nl m1)
                            (SplitData.m_cleaned_cm m1)).
  { rewrite <- map_app, firstn_skipn. apply shuffled_all.
    rewrite Hperm. by rewrite length_combine, <- B1, Nat.min_id. }
  etransitivity; [|exact Ps].
  rewrite (app_assoc (combine (SplitData.train_nl_list s) _)).
  eapply four_lists; [exact P2|exact Hall|exact P1].
Qed.

(** What the script does before it shuffles: the first loop and the two
    moving loops. *)
Lemma split_data_inv
  (tok : string -> list string) (rng : Type)
  (randrange : nat -> rng -> nat * rng)
  (shuffle : list nat -> rng -> list nat * rng)
  (nl_lines cm_lines : list string) (g g' : rng) (out : SplitData.written) :
  SplitData.split_data tok rng randrange shuffle nl_lines cm_lines g
  = (Ret out, g') ->
  exists (commands : list string) (cleaned_nl cleaned_cm : list string)
         (kept_nl kept_cm : list string) (indices : list nat),
    Forall (fun cm => cm ∈ commands) (SplitData.train_cm out)
    /\ Forall (fun cm => cm ∉ commands) cleaned_cm
    /\ Forall (fun cm => cm ∉ commands) kept_cm
    /\ SplitData.select (firstn 100 indices) cleaned_nl cleaned_cm [] []
       = Ret (SplitData.dev_nl out, SplitData.dev_cm out)
    /\ SplitData.select (skipn 100 indices) cleaned_nl cleaned_cm
                        kept_nl kept_cm
       = Ret (SplitData.test_nl out, SplitData.test_cm out).
Proof.
  unfold SplitData.split_data. intros Hrun.
  destruct (negb _); [done|].
  destruct (SplitData.assign_all _ _ _ _ _) as [s g1] eqn:Ha.
  assert (H0 : SplitData.aligned SplitData.empty_split) by done.
  destruct (assign_all_commands _ _ _ _ _ _ _ H0 ltac:(done) Ha)
    as [(S1 & S2 & S3) Hc].
  set (commands := SplitData.train_commands s) in *.
  set (m1 := fold_left (SplitData.move_one commands)
               (combine (SplitData.dev_nl_list s) (SplitData.dev_cm_list s))
               (SplitData.mkMoving (SplitData.train_nl_list s)
                                   (SplitData.train_cm_list s) [] [] 0)) in *.
  set (m2 := fold_left (SplitData.move_one commands)
               (combine (SplitData.test_nl_list s) (SplitData.test_cm_list s))
               (SplitData.mkMoving (SplitData.m_train_nl m1)
                                   (SplitData.m_train_cm m1) [] [] 0)) in *.
  destruct (move_all commands
              (combine (SplitData.dev_nl_list s) (SplitData.dev_cm_list s))
              (SplitData.mkMoving (SplitData.train_nl_list s)
                                  (SplitData.train_cm_list s) [] [] 0))
    as ([A1 B1] & _ & T1 & C1); [done|].
  fold m1 in A1, B1, T1, C1. cbn in T1, C1.
  destruct (move_all commands
              (combine (SplitData.test_nl_list s) (SplitData.test_cm_list s))
              (SplitData.mkMoving (SplitData.m_train_nl m1)
                                  (SplitData.m_train_cm m1) [] [] 0))
    as (_ & _ & T2 & C2); [done|].
  fold m2 in T2, C2. cbn in T2, C2.
  destruct (shuffle _ g1) as [indices g2].
  destruct (SplitData.select (firstn 100 indices) _ _ _ _)
    as [[a1 b1]|] eqn:R1; [|done].
  destruct (SplitData.select (skipn 100 indices) _ _ _ _)
    as [[a2 b2]|] eqn:R2; [|done].
  injection Hrun as <- <-. cbn.
  exists commands, (SplitData.m_cleaned_nl m1), (SplitData.m_cleaned_cm m1),
    (SplitData.m_cleaned_nl m2), (SplitData.m_cleaned_cm m2), indices.
  split; [|auto].
  apply T2, T1. apply Forall_forall. intros cm. by rewrite <- Hc.
Qed.

(** X16: whatever the generator does, no command is both in the train
    set and in the dev or the test set the script writes. *)
Theorem X16_train_commands_are_in_train_only
  (tok : string -> list string) (rng : Type)
  (randrange : nat -> rng -> nat * rng)
  (shuffle : list nat -> rng -> list nat * rng)
  (nl_lines cm_lines : list string) (g g' : rng) (out : SplitData.written) :
  SplitData.split_data tok rng randrange shuffle nl_lines cm_lines g
  = (Ret out, g') ->
  forall cm,
    cm ∈ SplitData.dev_cm out ++ SplitData.test_cm out ->
    cm ∉ SplitData.train_cm out.
Proof.
  intros Hrun cm Hin Htrain.
  destruct (split_data_inv _ _ _ _ _ _ _ _ _ Hrun)
    as (commands & cnl & ccm & knl & kcm & indices & T & C & K & R1 & R2).
  rewrite Forall_forall in T, C, K.
  destruct (select_elems _ _ _ _ _ _ _ R1) as (_ & _ & E1).
  destruct (select_elems _ _ _ _ _ _ _ R2) as (_ & _ & E2).
  apply elem_of_app in Hin as [Hin|Hin].
  - destruct (E1 cm Hin) as [H|H]; [by apply elem_of_nil in H|].
    by apply (C cm H), T.
  - destruct (E2 cm Hin) as [H|H]; [by apply (K cm H), T|].
    by apply (C cm H), T.
Qed.

(** X17: whatever the generator does, the dev set the script writes has
    at most a hundred examples. *)
Theorem X17_dev_set_of_at_most_a_hundred
  (tok : string -> list string) (rng : Type)
  (randrange : nat -> rng -> nat * rng)
  (shuffle : list nat -> rng -> list nat * rng)
  (nl_lines cm_lines : list string) (g g' : rng) (out : SplitData.written) :
  SplitData.split_data tok rng randrange shuffle nl_lines cm_lines g
  = (Ret out, g') ->
  length (SplitData.dev_nl out) <= 100
  /\ length (SplitData.dev_cm out) <= 100.
Proof.
  intros Hrun.
  destruct (split_data_inv _ _ _ _ _ _ _ _ _ Hrun)
    as (commands & cnl & ccm & knl & kcm & indices & _ & _ & _ & R1 & _).
  destruct (select_elems _ _ _ _ _ _ _ R1) as (La & Lb & _).
  rewrite La, Lb, length_firstn. cbn [length Nat.add].
  split; apply Nat.le_min_l.
Qed.

(** X15, witness: five lines, with a counter as generator. *)
Lemma X15_split_is_a_partition_witness :
  exists out g',
    SplitData.split_data (fun s => SplitData.words s ""%string) nat
      SplitData.counter_randrange SplitData.counter_shuffle
      SplitData.sample_nl_lines SplitData.sample_cm_lines 9
    = (Ret out, g')
    /\ length (SplitData.train_nl out) = length (SplitData.train_cm out)
    /\ length (SplitData.dev_nl out) = length (SplitData.dev_cm out)
    /\ length (SplitData.test_nl out) = length (SplitData.test_cm out)
    /\ combine (SplitData.train_nl out) (SplitData.train_cm out)
       ++ combine (SplitData.dev_nl out) (SplitData.dev_cm out)
       ++ combine (SplitData.test_nl out) (SplitData.test_cm out)
       ≡ₚ combine (map Str.strip SplitData.sample_nl_lines)
                  (map Str.strip SplitData.sample_cm_lines).
Proof.
  apply (X15_split_is_a_partition
           (fun s => SplitData.words s ""%string) nat
           SplitData.counter_randrange SplitData.counter_shuffle
           SplitData.sample_nl_lines SplitData.sample_cm_lines 9).
  - intros n g0 Hn. cbn. apply Nat.mod_upper_bound. lia.
  - intros l g0. cbn. symmetry. apply Permutation_rev.
  - reflexivity.
Defined.

(** X16, witness: the same run, and the command [du] of its dev set. *)
Lemma X16_train_commands_are_in_train_only_witness :
  "du"%string ∈ SplitData.dev_cm SplitData.sample_written
                ++ SplitData.test_cm SplitData.sample_written
  /\ "du"%string ∉ SplitData.train_cm SplitData.sample_written.
Proof.
  assert (Hin : "du"%string ∈ SplitData.dev_cm SplitData.sample_written
                              ++ SplitData.test_cm SplitData.sample_written).
  { apply elem_of_app. left. apply elem_of_cons. by left. }
  split; [exact Hin|].
  apply (X16_train_commands_are_in_train_only
           (fun s => SplitData.words s ""%string) nat
           SplitData.counter_randrange SplitData.counter_shuffle
           SplitData.sample_nl_lines SplitData.sample_cm_lines 9 13
           SplitData.sample_written);
    [vm_compute; reflexivity|exact Hin].
Defined.

(** X17, witness: the same run. *)
Lemma X17_dev_set_of_at_most_a_hundred_witness :
  length (SplitData.dev_nl SplitData.sample_written) <= 100
  /\ length (SplitData.dev_cm SplitData.sample_written) <= 100.
Proof.
  apply (X17_dev_set_of_at_most_a_hundred
           (fun s => SplitData.words s ""%string) nat
           SplitData.counter_randrange SplitData.counter_shuffle
           SplitData.sample_nl_lines SplitData.sample_cm_lines 9 13
           SplitData.sample_written).
  vm_compute. reflexivity.
Defined.

(** ** What the tree builder leaves alone *)

(** X18: [normalize_ast] only adds objects to the store: whatever it
    answers, and whether it ends with an exception or not, no object is
    removed and none changes its kind; when it answers with a root, the
    root is the first object it added, of kind [root]. *)
Theorem X18_normalize_ast_only_adds_objects
  (is_headcommand is_option : string -> bool) (digit_fold : string -> string)
  (parse : string -> exn + list rnode) (cmd : string) (nd rq : bool)
  (w : world) :
  let run := normalize_ast is_headcommand is_option digit_fold parse
                           cmd nd rq w in
  length (nodes w) <= length (nodes (snd run))
  /\ (forall i n, nodes w !! i = Some n ->
                  kind <$> nodes (snd run) !! i = Some (kind n))
  /\ match fst run with
     | Ret (Some root) =>
         root = length (nodes w)
         /\ kind <$> nodes (snd run) !! root = Some "root"%string
     | _ => True
     end.
Proof.
  intros run.
  set (I := fun w0 : world =>
              length (nodes w) <= length (nodes w0)
              /\ forall i n, nodes w !! i = Some n ->
                             kind <$> nodes w0 !! i = Some (kind n)).
  assert (Iw : I w).
  { split; [done|]. intros i n Hn. by rewrite Hn. }
  assert (I_print : forall w0 m, I w0 ->
                      I (mkWorld (nodes w0) (out w0 ++ [m]))) by done.
  assert (I_modify : forall w0 i f, (forall n, kind (f n) = kind n) ->
                       I w0 -> I (mkWorld (alter f i (nodes w0)) (out w0))).
  { intros w0 i f Hf [L K]. unfold I. cbn [nodes].
    split; [by rewrite length_alter|].
    intros j n Hn.
    destruct (decide (i = j)) as [->|Hne].
    - rewrite field_alter_eq. specialize (K j n Hn).
      destruct (nodes w0 !! j) as [m|]; [|done]. cbn in *. by rewrite Hf.
    - rewrite list_lookup_alter_ne by done. by apply K. }
  assert (I_new : forall w0 k v, readable_kind k = true -> I w0 ->
                    I (mkWorld (nodes w0 ++ [mkNode None None None k v []])
                               (out w0))).
  { intros w0 k v _ [L K]. unfold I. cbn [nodes].
    split; [rewrite length_app; lia|].
    intros j n Hn. specialize (K j n Hn).
    apply fmap_lookup_Some in K as (m & Hm & Ek).
    rewrite lookup_app_l by (by eapply lookup_lt_Some).
    by rewrite Hm, <- Ek. }
  assert (Hroot : match fst run with
                  | Ret (Some root) =>
                      root = length (nodes w)
                      /\ kind <$> nodes (snd run) !! root = Some "root"%string
                  | _ => True
                  end).
  { destruct run as [[[root|]|e] w'] eqn:Hrun; cbn [fst snd]; try done.
    by apply (normalize_ast_root _ _ _ _ _ _ _ _ _ _ Hrun). }
  enough (HI : I (snd run)) by (destruct HI; done).
  subst run. unfold normalize_ast, cannot_parse.
  destruct (_ =? "")%string; [done|].
  destruct (parse _) as [e|roots]; [by destruct e|].
  unfold bind at 1.
  assert (Hnote : forall (b : bool) (m : msg), exists w1,
    (if b then print m else ret tt) w = (Ret tt, w1) /\ I w1).
  { intros [] m; eexists; (split; [reflexivity|]); [by apply I_print|done]. }
  match goal with
  | |- context [(if ?b then print ?m else ret tt) w] =>
      destruct (Hnote b m) as (w1 & -> & Hw1)
  end.
  unfold bind at 1, new_node.
  pose proof (I_new w1 "root"%string ""%string eq_refl Hw1) as Hw2.
  destruct roots as [|t0 roots]; [done|].
  destruct (normalize _ _ _ _ _ t0 _ _ _) as [[[]|e] w3] eqn:En.
  all: pose proof (proj1 (keeps_normalize I I_print I_modify I_new
                     is_headcommand is_option digit_fold _ nd t0 _ ""%string
                     eq_refl _ _ _ Hw2 En)) as Hw3.
  - done.
  - by destruct e.
Qed.

(** ** The links of a tree read back *)

Lemma linked_new_orphan (h : list Node) (k v : string) :
  linked h -> linked (h ++ [mkNode None None None k v []]).
Proof.
  intros Hl. set (new := mkNode None None None k v []).
  assert (Hold : forall {B} (g : Node -> B) q x,
            g <$> h !! q = Some x -> g <$> (h ++ [new]) !! q = Some x).
  { intros B g q x Hq. apply fmap_lookup_Some in Hq as (n & Hn & <-).
    by rewrite (lookup_old _ _ _ _ Hn). }
  assert (Hback : forall {B} (g : Node -> B) q,
            q <> length h -> g <$> (h ++ [new]) !! q = g <$> h !! q).
  { intros B g q Hq. by rewrite lookup_snoc_old. }
  split.
  - intros p cs Hp. destruct (decide (p = length h)) as [->|Hne].
    + rewrite lookup_new in Hp. injection Hp as <-. constructor.
    + rewrite Hback in Hp by done. by eapply linked_nodup.
  - intros p cs pre c post Hp E. destruct (decide (p = length h)) as [->|Hne].
    { rewrite lookup_new in Hp. injection Hp as <-. by destruct pre. }
    rewrite Hback in Hp by done.
    destruct (linked_child h Hl p cs pre c post Hp E) as (H1 & H2 & H3 & H4).
    split; [done|]. by rewrite !(Hold _ _ _ _ H2), (Hold _ _ _ _ H3),
                       (Hold _ _ _ _ H4).
  - intros c Hc. destruct (decide (c = length h)) as [->|Hne].
    { by rewrite lookup_new. }
    rewrite !Hback in * by done. by apply linked_orphan.
  - intros c q Hc. destruct (decide (c = length h)) as [->|Hne].
    { by rewrite lookup_new in Hc. }
    rewrite Hback in Hc by done.
    destruct (linked_parent h Hl c q Hc) as (cs & Hq & Hin).
    exists cs. split; [|done]. by apply Hold.
Qed.

Lemma list_to_tree_loop_linked (l : list string) :
  forall (cur : option nat) (w : world),
    linked (nodes w) ->
    match cur with
    | Some c => c < length (nodes w)
    | None => True
    end ->
    linked (nodes (snd (list_to_tree_loop l cur w))).
Proof.
  induction l as [|s l IH]; intros cur w Hl Hcur; [done|].
  destruct cur as [c|]; [|done]. cbn [list_to_tree_loop].
  destruct (s =? NO_EXPAND)%string.
  - destruct (nodes w !! c) as [nc|] eqn:Ec;
      [|apply lookup_ge_None in Ec; lia].
    rewrite (bind_run _ _ _ _ (parent nc)) by (by apply get_run).
    apply IH; [done|].
    destruct (parent nc) as [p|] eqn:Ep; [|done].
    destruct (linked_parent _ Hl c p) as (cs & Hp & _);
      [by rewrite Ec; cbn; rewrite Ep|].
    apply fmap_lookup_Some in Hp as (np & Hp & _).
    by eapply lookup_lt_Some.
  - destruct (Str.split1 "_" s) as [k [v|]]; [|done].
    unfold bind at 1, new_node. cbn [nodes out].
    rewrite (bind_run _ _ _ _ tt)
      by (apply attach_to_tree_run; cbn; rewrite length_app; cbn; lia).
    apply IH; cbn [nodes].
    + by apply linked_attach_fresh.
    + rewrite attach_store_length, length_app. cbn. lia.
Qed.

(** X19: [list_to_tree] keeps the tree linked.  Whatever the symbols,
    and whether the reading ends or fails, a linked store is left
    linked.  On the way, every symbol read that is not the end marker
    makes one node, of the kind before the underscore in lower case and
    the value after it, without children: it becomes the last child of
    the node under the cursor, with the former last child as left
    sibling, the store stays linked, and the reading goes on with the
    cursor at the new node. *)
Theorem X19_list_to_tree_keeps_links
  (symbols : list string) (order : string) (w : world) :
  linked (nodes w) ->
  linked (nodes (snd (list_to_tree symbols order w)))
  /\ (forall (s : string) (rest : list string) (c : nat) (w0 : world)
             (k v : string),
        linked (nodes w0) -> c < length (nodes w0) ->
        (s =? NO_EXPAND)%string = false ->
        Str.split1 "_" s = (k, Some v) ->
        let new := length (nodes w0) in
        exists w1 cs,
          list_to_tree_loop (s :: rest) (Some c) w0
          = list_to_tree_loop rest (Some new) w1
          /\ out w1 = out w0
          /\ length (nodes w1) = S (length (nodes w0))
          /\ children <$> nodes w0 !! c = Some cs
          /\ children <$> nodes w1 !! c = Some (cs ++ [new])
          /\ kind <$> nodes w1 !! new = Some (Str.lower k)
          /\ value <$> nodes w1 !! new = Some v
          /\ children <$> nodes w1 !! new = Some []
          /\ parent <$> nodes w1 !! new = Some (Some c)
          /\ lsb <$> nodes w1 !! new = Some (last cs)
          /\ rsb <$> nodes w1 !! new = Some None
          /\ linked (nodes w1)).
Proof.
  intros Hl. split.
  - unfold list_to_tree.
    unfold bind at 1, new_node. cbn [nodes out].
    pose proof (linked_new_orphan _ "root" "root" Hl) as Hl1.
    destruct (order =? "dfs")%string; [|done].
    pose proof (list_to_tree_loop_linked (tl symbols)
                  (Some (length (nodes w)))
                  (mkWorld (nodes w ++ [mkNode None None None "root" "root" []])
                           (out w)) Hl1) as H.
    cbn [nodes] in H. specialize (H ltac:(rewrite length_app; cbn; lia)).
    unfold bind at 1.
    destruct (list_to_tree_loop _ _ _) as [[[]|e] w1]; exact H.
  - clear. intros s rest c w0 k v Hl Hc Hs Hsplit new.
    destruct (nodes w0 !! c) as [nc|] eqn:Enc;
      [|apply lookup_ge_None in Enc; lia].
    assert (Hcs : children <$> nodes w0 !! c = Some (children nc))
      by (by rewrite Enc).
    pose proof (linked_children_valid _ c _ Hl Hcs) as Hvalid.
    destruct (attach_fresh_fields (nodes w0) (Str.lower k) v c _ Hcs Hvalid)
      as (F1 & F2 & F3 & F4).
    subst new. assert (Hne : c <> length (nodes w0)) by lia.
    eexists. exists (children nc). split.
    { cbn [list_to_tree_loop]. rewrite Hs, Hsplit.
      unfold bind at 1, new_node. cbn [nodes out].
      rewrite (bind_run _ _ _ _ tt)
        by (apply attach_to_tree_run; cbn; rewrite length_app; cbn; lia).
      reflexivity. }
    cbn [nodes out].
    split; [done|].
    split; [rewrite attach_store_length, length_app; cbn; lia|].
    split; [done|].
    split; [rewrite F1; by rewrite decide_True|].
    split; [by rewrite attach_store_kind, lookup_new|].
    split; [by rewrite attach_store_value, lookup_new|].
    split; [rewrite F1, decide_False by done; by rewrite decide_True|].
    split; [rewrite F2; by rewrite decide_True|].
    split; [rewrite F3; by rewrite decide_True|].
    split; [rewrite F4; by rewrite decide_True|].
    by apply linked_attach_fresh.
Qed.

(** X19, witness: the linearization of [find . -name a], read into the
    empty store, and the symbol [FLAG_-name] read under the one node of a
    store. *)
Lemma X19_list_to_tree_keeps_links_witness :
  linked (nodes (snd (list_to_tree
                        ["ROOT_"; "HEADCOMMAND_find"; "ARGUMENT_.";
                         NO_EXPAND; "FLAG_-name"; "ARGUMENT_a"; NO_EXPAND;
                         NO_EXPAND; NO_EXPAND; NO_EXPAND]
                        "dfs" empty_world)))
  /\ exists w1 cs,
       list_to_tree_loop ["FLAG_-name"; NO_EXPAND] (Some 0)
         (mkWorld [mkNode None None None "root" "root" []] [])
       = list_to_tree_loop [NO_EXPAND] (Some 1) w1
       /\ out w1 = []
       /\ length (nodes w1) = 2
       /\ children
            <$> nodes (mkWorld [mkNode None None None "root" "root" []] [])
                !! 0 = Some cs
       /\ children <$> nodes w1 !! 0 = Some (cs ++ [1])
       /\ kind <$> nodes w1 !! 1 = Some "flag"
       /\ value <$> nodes w1 !! 1 = Some "-name"
       /\ children <$> nodes w1 !! 1 = Some []
       /\ parent <$> nodes w1 !! 1 = Some (Some 0)
       /\ lsb <$> nodes w1 !! 1 = Some (last cs)
       /\ rsb <$> nodes w1 !! 1 = Some None
       /\ linked (nodes w1).
Proof.
  assert (L0 : linked (nodes empty_world))
    by (apply linkedb_sound; vm_compute; reflexivity).
  assert (L1 : linked (nodes (mkWorld [mkNode None None None "root" "root" []]
                                      [])))
    by (apply linkedb_sound; vm_compute; reflexivity).
  split.
  - exact (proj1 (X19_list_to_tree_keeps_links
                    ["ROOT_"; "HEADCOMMAND_find"; "ARGUMENT_.";
                     NO_EXPAND; "FLAG_-name"; "ARGUMENT_a"; NO_EXPAND;
                     NO_EXPAND; NO_EXPAND; NO_EXPAND] "dfs" empty_world L0)).
  - exact (proj2 (X19_list_to_tree_keeps_links [] "dfs" empty_world L0)
             "FLAG_-name" [NO_EXPAND] 0
             (mkWorld [mkNode None None None "root" "root" []] [])
             "FLAG" "-name" L1 ltac:(cbn; lia) eq_refl eq_refl).
Defined.

(** ** Where an argument goes *)

(** X20: a word token that is no marker, no operator and no head command,
    and that is not an option or comes after [--], is normalized as an
    argument.  It goes under the attach point, unless the attach point
    has the value of an option and already has a child: a flag takes one
    argument, the next one goes under the parent of the flag, which is
    then the attach point. *)
Theorem X20_a_flag_takes_one_argument
  (is_headcommand is_option : string -> bool)
  (node : rnode) (norm : option nat -> string -> M unit)
  (tok : string) (ps : option (list rnode)) (po : option (Z * Z))
  (co : option rnode) (st : cstate) (w : world) (a : nat) (na : Node) :
  (tok =? "--")%string = false ->
  (tok =? ";")%string = false ->
  mem tok unary_logic_operators = false ->
  mem tok binary_logic_operators = false ->
  is_headcommand tok = false ->
  is_option tok && negb (END_OF_OPTIONS st) = false ->
  attach_point st = Some a ->
  nodes w !! a = Some na ->
  let child := RNode "word" (Some tok) ps po co in
  let target := if is_option (value na) && (1 <=? length (children na))%nat
                then parent na else Some a in
  command_token is_headcommand is_option node norm child st w
  = (norm target "argument" ;;; ret (set_attach_point target st)) w.
Proof.
  intros H1 H2 H3 H4 H5 H6 Ha Hna child target. subst child target.
  unfold command_token. cbn -[mem unary_logic_operators
                               binary_logic_operators].
  rewrite H1, H2, H3, H4, H5, H6, Ha.
  unfold is_flag.
  erewrite bind_run by (apply get_run; exact Hna).
  destruct (is_option (value na)); cbn [andb].
  - unfold getNumChildren.
    rewrite bind_assoc.
    erewrite bind_run by (apply get_run; exact Hna).
    unfold ret at 1. unfold bind at 1.
    destruct (length (children na)) as [|n0]; cbn [Nat.leb]; cbv iota.
    + reflexivity.
    + by erewrite bind_run by (apply get_run; exact Hna).
  - reflexivity.
Qed.

(** X20, witness: a second argument after [-name a] under [find]. *)
Lemma X20_a_flag_takes_one_argument_witness :
  command_token Sample.is_headcommand Sample.is_option
    (Sample.command []) (fun _ _ => ret tt)
    (Sample.word "b" 15 16) (mkC (Some 2) false false [] [])
    (mkWorld [mkNode None None None "root" "" [1];
              mkNode (Some 0) None None "headcommand" "find" [2];
              mkNode (Some 1) None None "flag" "-name" [3];
              mkNode (Some 2) None None "argument" "a" []] [])
  = ((fun _ _ => ret tt)
       (if Sample.is_option "-name" && (1 <=? 1)%nat then Some 1 else Some 2)
       "argument"%string ;;;
     ret (set_attach_point
            (if Sample.is_option "-name" && (1 <=? 1)%nat then Some 1 else Some 2)
            (mkC (Some 2) false false [] [])))
      (mkWorld [mkNode None None None "root" "" [1];
                mkNode (Some 0) None None "headcommand" "find" [2];
                mkNode (Some 1) None None "flag" "-name" [3];
                mkNode (Some 2) None None "argument" "a" []] []).
Proof.
  exact (X20_a_flag_takes_one_argument
           Sample.is_headcommand Sample.is_option
           (Sample.command []) (fun _ _ => ret tt) "b"
           (Some []) (Some (15, 16)%Z) None (mkC (Some 2) false false [] [])
           (mkWorld [mkNode None None None "root" "" [1];
                     mkNode (Some 0) None None "headcommand" "find" [2];
                     mkNode (Some 1) None None "flag" "-name" [3];
                     mkNode (Some 2) None None "argument" "a" []] [])
           2 (mkNode (Some 1) None None "flag" "-name" [3])
           eq_refl eq_refl eq_refl eq_refl eq_refl eq_refl eq_refl eq_refl).
Defined.

(** The whole run on [find -name a b]: [b] is an argument of [find]. *)
Example second_argument_of_a_flag :
  Sample.result_tree
    (Sample.run [Sample.command [Sample.word "find" 0 4;
                                 Sample.word "-name" 5 10;
                                 Sample.word "a" 11 12;
                                 Sample.word "b" 13 14]]
                "find -name a b")
  = Some (T "root" ""
            [T "headcommand" "find"
               [T "flag" "-name" [T "argument" "a" []];
                T "argument" "b" []]]).
Proof. vm_compute. reflexivity. Qed.

(** ** The walk over plain words keeps the tree linked *)

Section Triples.

Context {A B : Type}.

Lemma triple_ret (P : world -> Prop) (a : A) (Q : A -> world -> Prop) :
  (forall w, P w -> Q a w) -> triple P (ret a) Q.
Proof. intros H w r w' HP [= <- <-]. by apply H. Qed.

Lemma triple_raise (P : world -> Prop) (e : exn) (Q : A -> world -> Prop) :
  (forall w, P w -> linked (nodes w)) -> triple P (raise e) Q.
Proof. intros H w r w' HP [= <- <-]. by apply H. Qed.

Lemma triple_bind (P : world -> Prop) (m : M A) (k : A -> M B)
  (Q : A -> world -> Prop) (R : B -> world -> Prop) :
  triple P m Q -> (forall a, triple (Q a) (k a) R) ->
  triple P (bind m k) R.
Proof.
  intros Hm Hk w r w' HP Hrun. unfold bind in Hrun.
  destruct (m w) as [[a|e] w1] eqn:Em.
  - exact (Hk a w1 r w' (Hm w _ w1 HP Em) Hrun).
  - injection Hrun as <- <-. exact (Hm w _ w1 HP Em).
Qed.

Lemma triple_conseq (P P' : world -> Prop) (m : M A)
  (Q Q' : A -> world -> Prop) :
  triple P' m Q' ->
  (forall w, P w -> P' w) -> (forall a w, Q' a w -> Q a w) ->
  triple P m Q.
Proof.
  intros Hm HP HQ w r w' Hw Hrun.
  pose proof (Hm w r w' (HP w Hw) Hrun) as H. destruct r; auto.
Qed.

(** A fact that holds wherever [P] does may be used to prove the
    triple. *)
Lemma triple_fact (P : world -> Prop) (F : Prop) (m : M A)
  (Q : A -> world -> Prop) :
  (forall w, P w -> F) -> (F -> triple P m Q) -> triple P m Q.
Proof. intros HF Hm w r w' Hw. by apply Hm; [eapply HF|]. Qed.

Lemma triple_readonly (P : world -> Prop) (m : M A) :
  readonly m -> (forall w, P w -> linked (nodes w)) ->
  triple P m (fun _ w => P w).
Proof.
  intros Hm HP w r w' Hw Hrun. rewrite (Hm w r w' Hrun).
  destruct r; auto.
Qed.

Lemma readonly_ret (a : A) : readonly (ret a).
Proof. by intros w r w' [= <- <-]. Qed.

Lemma readonly_raise (e : exn) : readonly (@raise A e).
Proof. by intros w r w' [= <- <-]. Qed.

Lemma readonly_bind (m : M A) (k : A -> M B) :
  readonly m -> (forall a, readonly (k a)) -> readonly (bind m k).
Proof.
  intros Hm Hk w r w' Hrun. unfold bind in Hrun.
  destruct (m w) as [[a|e] w1] eqn:Em.
  - rewrite <- (Hm w _ w1 Em). by eapply Hk.
  - injection Hrun as <- <-. by eapply Hm.
Qed.

End Triples.

Lemma readonly_deref (r : option nat) : readonly (deref r).
Proof.
  intros w x w' H. unfold deref in H.
  destruct r as [i|]; [destruct (nodes w !! i)|]; by injection H.
Qed.

Lemma readonly_get {A} (f : Node -> A) (r : option nat) : readonly (get f r).
Proof.
  apply readonly_bind; [apply readonly_deref|intros; apply readonly_ret].
Qed.

Lemma readonly_attr {A} (o : option A) : readonly (attr o).
Proof. destruct o; [apply readonly_ret|apply readonly_raise]. Qed.

Create HintDb readonly discriminated.

#[local] Hint Resolve readonly_ret readonly_raise readonly_deref
  readonly_get readonly_attr : readonly.
#[local] Hint Extern 2 (readonly (bind _ _)) =>
  apply readonly_bind; [|intros] : readonly.
#[local] Hint Extern 3 (readonly (if ?b then _ else _)) =>
  destruct b : readonly.
#[local] Hint Extern 3 (readonly (match ?x with _ => _ end)) =>
  destruct x : readonly.

Lemma readonly_under_find (p : option nat) : readonly (under_find p).
Proof. unfold under_find. auto 20 with readonly. Qed.

Lemma readonly_is_unary_logic_op (w : string) (p : option nat) :
  readonly (is_unary_logic_op w p).
Proof.
  unfold is_unary_logic_op.
  destruct (_ =? _)%string; [apply readonly_under_find|apply readonly_ret].
Qed.

Lemma readonly_is_binary_logic_op (w : string) (p : option nat) :
  readonly (is_binary_logic_op w p).
Proof.
  pose proof readonly_under_find.
  unfold is_binary_logic_op. auto 20 with readonly.
Qed.

Lemma readonly_with_quotation (n : rnode) : readonly (with_quotation n).
Proof. unfold with_quotation. auto 20 with readonly. Qed.

Lemma readonly_normalize_word (is_option : string -> bool)
  (digit_fold : string -> string) (cmd : string) (n : rnode) (b c : bool) :
  readonly (normalize_word is_option digit_fold cmd n b c).
Proof.
  pose proof readonly_with_quotation.
  unfold normalize_word, recover_quotation. auto 20 with readonly.
Qed.

(** *** Tidy stores *)

Lemma tidy_linked ops rs h : tidy ops rs h -> linked h.
Proof. unfold tidy. by intros (? & _). Qed.

Lemma tidy_refs ops rs rs' h :
  (forall r, r ∈ rs' -> r ∈ rs) -> tidy ops rs h -> tidy ops rs' h.
Proof.
  unfold tidy. intros Hsub (L & N & C & R).
  split; [done|]. split; [done|]. split; [done|].
  rewrite Forall_forall in R. apply Forall_forall.
  intros r Hr. by apply R, Hsub.
Qed.

Lemma tidy_ops ops ops' rs h :
  ops ≡ₚ ops' -> tidy ops rs h -> tidy ops' rs h.
Proof.
  unfold tidy. intros Hp (L & N & C & R).
  split; [done|]. split; [|split].
  - by rewrite <- Hp.
  - by rewrite <- Hp.
  - eapply Forall_impl; [exact R|]. intros [a|]; [|done].
    by rewrite Hp.
Qed.

(** A parent is never a childless object. *)
Lemma tidy_parent ops rs h a na :
  tidy ops rs h -> h !! a = Some na -> tidy ops (parent na :: rs) h.
Proof.
  unfold tidy. intros (L & N & C & R) Ha.
  split; [done|]. split; [done|]. split; [done|].
  constructor; [|done].
  destruct (parent na) as [q|] eqn:Ep; [|done].
  destruct (linked_parent h L a q) as (cs & Hq & Hin);
    [by rewrite Ha; cbn; rewrite Ep|].
  split.
  - apply fmap_lookup_Some in Hq as (nq & Hnq & _).
    by eapply lookup_lt_Some.
  - intros Hop. rewrite Forall_forall in C. rewrite (C q Hop) in Hq.
    injection Hq as <-. by apply elem_of_nil in Hin.
Qed.

(** A new object attached under a reference that is not an operator. *)
Lemma tidy_attach ops rs h k v t :
  tidy ops rs h -> Some t ∈ rs ->
  let n := length h in
  let h' := attach_store n t (h ++ [mkNode None None None k v []]) in
  tidy ops (Some n :: rs) h'
  /\ children <$> h' !! n = Some []
  /\ (exists nt, h' !! t = Some nt /\ last (children nt) = Some n)
  /\ length h' = S n.
Proof.
  intros HT Ht n h'. unfold tidy in HT |- *.
  destruct HT as (L & N & C & R).
  rewrite Forall_forall in R. rewrite Forall_forall in C.
  destruct (R _ Ht) as [Hlt Htop].
  destruct (h !! t) as [nt|] eqn:Ent; [|apply lookup_ge_None in Ent; lia].
  assert (Hcs : children <$> h !! t = Some (children nt)) by (by rewrite Ent).
  pose proof (linked_children_valid h t _ L Hcs) as Hvalid.
  destruct (attach_fresh_fields h k v t _ Hcs Hvalid) as (F1 & _).
  fold n in F1. fold h' in F1.
  assert (Hlen : length h' = S n).
  { subst h'. rewrite attach_store_length, length_app. cbn. lia. }
  assert (Hops : forall op, op ∈ ops -> op < n /\ op <> t).
  { intros op Hop. split; [|by intros ->].
    specialize (C op Hop). apply fmap_lookup_Some in C as (x & Hx & _).
    by eapply lookup_lt_Some. }
  split; [|split; [|split]]; [|..|done].
  - split; [by apply linked_attach_fresh|]. split; [done|]. split.
    + apply Forall_forall. intros op Hop. destruct (Hops op Hop).
      rewrite F1. rewrite !decide_False by lia. by apply C.
    + apply Forall_forall. intros r Hr. rewrite Hlen.
      apply elem_of_cons in Hr as [->|Hr].
      * split; [lia|]. intros Hop. destruct (Hops n Hop). lia.
      * specialize (R r Hr). destruct r as [a|]; [|done].
        destruct R. split; [lia|done].
  - rewrite F1. rewrite decide_False by lia. by rewrite decide_True.
  - specialize (F1 t). rewrite decide_True in F1 by done.
    apply fmap_lookup_Some in F1 as (nt' & Hnt' & Ecs).
    exists nt'. split; [done|]. by rewrite Ecs, last_snoc.
Qed.

(** Recording a new childless object as an operator. *)
Lemma tidy_record ops rs h n :
  tidy ops rs h -> n ∉ ops ->
  children <$> h !! n = Some [] ->
  Forall (fun r => r <> Some n) rs ->
  tidy (ops ++ [n]) rs h.
Proof.
  unfold tidy. intros (L & N & C & R) Hn Hc Hrs.
  split; [done|]. split; [|split].
  - apply NoDup_app. split; [done|]. split; [|apply NoDup_singleton].
    intros x Hx Hx'. apply list_elem_of_singleton in Hx'. by subst.
  - apply Forall_app. split; [done|]. by constructor.
  - rewrite Forall_forall in R. rewrite Forall_forall in Hrs.
    apply Forall_forall. intros r Hr.
    specialize (R r Hr). specialize (Hrs r Hr). destruct r as [a|]; [|done].
    destruct R as [? Ha]. split; [done|].
    rewrite elem_of_app, list_elem_of_singleton. intros [?| ->]; [done|].
    done.
Qed.

(** *** What the steps of the walk do to a tidy store *)

Lemma triple_read {A} ops rs (m : M A) :
  readonly m ->
  triple (fun w => tidy ops rs (nodes w)) m
         (fun _ w => tidy ops rs (nodes w)).
Proof.
  intros Hm. apply triple_readonly; [done|].
  intros w. apply tidy_linked.
Qed.

Lemma triple_get_parent ops rs r :
  triple (fun w => tidy ops rs (nodes w)) (get parent r)
         (fun p w => tidy ops (p :: rs) (nodes w)).
Proof.
  intros w x w' HT Hrun. unfold get, deref, bind, ret in Hrun.
  destruct r as [a|]; [destruct (nodes w !! a) as [na|] eqn:Ea|];
    injection Hrun as <- <-; try by eapply tidy_linked.
  by eapply tidy_parent.
Qed.

Section Walk.

Variables is_headcommand is_option : string -> bool.
Variable digit_fold : string -> string.
Variable cmd : string.
Variable nd : bool.

Lemma triple_find_flag_attach_point ops rs r :
  r ∈ rs ->
  triple (fun w => tidy ops rs (nodes w)) (find_flag_attach_point r)
         (fun ap w => tidy ops (ap :: rs) (nodes w)).
Proof.
  intros Hr. unfold find_flag_attach_point.
  eapply triple_bind; [apply triple_read, readonly_get|].
  intros k. cbn beta.
  destruct (k =? "flag")%string; [apply triple_get_parent|].
  destruct (k =? "headcommand")%string.
  - apply triple_ret. intros w. apply tidy_refs.
    intros x [->|?]%elem_of_cons; done.
  - apply triple_raise. intros w. apply tidy_linked.
Qed.

Lemma alter_new_orphan (h : list Node) (k v : string) :
  alter (set_parent None) (length h) (h ++ [mkNode None None None k v []])
  = h ++ [mkNode None None None k v []].
Proof.
  replace (length h) with (length h + 0) by lia.
  by rewrite alter_app_r.
Qed.

(** A new object attached under [r]. *)
Lemma attach_new_run ops rs r k v w :
  r ∈ rs -> tidy ops rs (nodes w) ->
  match attach_to_tree (length (nodes w)) r
          (mkWorld (nodes w ++ [mkNode None None None k v []]) (out w)) with
  | (Ret _, w') =>
      leaf_under ops rs r w' /\ S (length (nodes w)) = length (nodes w')
  | (Exc _, w') => linked (nodes w')
  end.
Proof.
  intros Hr HT. destruct r as [t|].
  - assert (Hlt : t < length (nodes w)).
    { destruct HT as (_ & _ & _ & R). rewrite Forall_forall in R.
      by destruct (R _ Hr). }
    rewrite attach_to_tree_run by (cbn; rewrite length_app; cbn; lia).
    cbn [nodes].
    destruct (tidy_attach ops rs (nodes w) k v t HT Hr)
      as (T & C & (nt & Hnt & Hlast) & Hlen).
    split; [|done].
    exists (length (nodes w)), t, nt.
    split; [done|]. split; [exact T|]. split; [done|]. split; [done|].
    split; [done|]. split; [by symmetry|].
    destruct HT as (_ & _ & _ & R). eapply Forall_impl; [exact R|].
    intros [a|] Ha; [|done]. intros [= ->]. lia.
  - unfold attach_to_tree, bind, modify, getRightChild, get, deref.
    cbn. rewrite alter_new_orphan. apply linked_new_orphan.
    by eapply tidy_linked.
Qed.

Lemma triple_emit_leaf ops rs node r k :
  r ∈ rs ->
  triple (fun w => tidy ops rs (nodes w))
         (emit_leaf is_option digit_fold cmd nd node r k)
         (fun _ w => leaf_under ops rs r w).
Proof.
  intros Hr. unfold emit_leaf.
  eapply triple_bind; [apply triple_read, readonly_normalize_word|].
  intros v. cbn beta.
  intros w x w' HT Hrun.
  unfold bind at 1, new_node in Hrun.
  pose proof (attach_new_run ops rs r k v w Hr HT) as H.
  rewrite Hrun in H. destruct x; [by destruct H|done].
Qed.

(** The right child of [r], read after a leaf was attached under it. *)
Lemma triple_right_child_after ops rs r :
  triple (leaf_under ops rs r) (getRightChild r)
         (fun c w => tidy ops (c :: rs) (nodes w)).
Proof.
  intros w x w' (n & t & nt & -> & T & Hnt & Hlast & _) Hrun.
  unfold getRightChild in Hrun. rewrite (get_run _ _ _ _ Hnt) in Hrun.
  injection Hrun as <- <-. by rewrite Hlast.
Qed.

Lemma leaf_under_tidy ops rs r w :
  leaf_under ops rs r w -> tidy ops rs (nodes w).
Proof.
  intros (n & t & nt & _ & T & _). eapply tidy_refs; [|exact T].
  intros x Hx. by apply elem_of_cons; right.
Qed.

Lemma triple_print ops rs (m : msg) :
  triple (fun w => tidy ops rs (nodes w)) (print m)
         (fun _ w => tidy ops rs (nodes w)).
Proof. by intros w x w' HT [= <- <-]. Qed.

Lemma triple_attach_option ops rs norm r :
  emits_leaf norm -> r ∈ rs ->
  triple (fun w => tidy ops rs (nodes w)) (attach_option norm r)
         (fun c w => tidy ops (c :: rs) (nodes w)).
Proof.
  intros Hnorm Hr. unfold attach_option.
  eapply triple_bind; [by apply triple_find_flag_attach_point|].
  intros ap. cbn beta.
  eapply triple_bind; [apply (Hnorm ops (ap :: rs) ap); by left|].
  intros u. cbn beta.
  eapply triple_conseq; [apply triple_right_child_after|done|].
  intros c w. apply tidy_refs.
  intros x [->|?]%elem_of_cons; [by left|by do 2 right].
Qed.

(** A new operator attached under [r] and recorded. *)
Lemma triple_record {S} ops rs r k v (g : nat -> S) :
  r ∈ rs ->
  triple (fun w => tidy ops rs (nodes w))
         (n <- new_node k v ;; attach_to_tree n r ;;; ret (g n))
         (fun x w => exists n, x = g n /\ tidy (ops ++ [n]) rs (nodes w)).
Proof.
  intros Hr w x w' HT Hrun.
  unfold bind at 1, new_node in Hrun.
  pose proof (attach_new_run ops rs r k v w Hr HT) as H.
  unfold bind in Hrun.
  destruct (attach_to_tree _ r _) as [[[]|e] w2]; injection Hrun as <- <-.
  - destruct H as [(n & t & nt & -> & T & _ & _ & C & Hn & F) Hlen].
    assert (n = length (nodes w)) as -> by lia.
    exists (length (nodes w)). split; [done|].
    apply tidy_record; [|..|done|done].
    + eapply tidy_refs; [|exact T]. intros y Hy. by right.
    + destruct T as (_ & _ & _ & R). apply Forall_cons in R as [[_ ?] _].
      done.
  - exact H.
Qed.

Lemma walking_attach (st : cstate) (a : option nat)
  (rs : list (option nat)) (w : world) :
  a ∈ rs ->
  tidy (unary_logic_ops st ++ binary_logic_ops st) rs (nodes w) ->
  walking (set_attach_point a st) w.
Proof.
  intros Ha. unfold walking. cbn. apply tidy_refs.
  intros x ->%list_elem_of_singleton. done.
Qed.

Lemma triple_end_of_command_ascent (st : cstate) :
  triple (walking st) (end_of_command_ascent st) (fun st' w => walking st' w).
Proof.
  unfold end_of_command_ascent.
  destruct (END_OF_COMMAND st); [|by apply triple_ret].
  set (ops := unary_logic_ops st ++ binary_logic_ops st).
  eapply triple_bind; [apply (triple_get_parent ops [attach_point st])|].
  intros p. cbn beta.
  eapply triple_bind; [apply triple_read, readonly_get|].
  intros k. cbn beta.
  eapply triple_bind with
    (Q := fun ap w => tidy ops [ap; p; attach_point st] (nodes w)).
  - destruct (k =? "flag")%string; [apply triple_get_parent|].
    destruct (k =? "headcommand")%string.
    + apply triple_ret. intros w. apply tidy_refs.
      intros x [->|?]%elem_of_cons; [by left|done].
    + apply triple_raise. intros w. apply tidy_linked.
  - intros ap. apply triple_ret. intros w. unfold walking. cbn.
    apply tidy_refs. intros x ->%list_elem_of_singleton. by left.
Qed.

Lemma triple_command_token node norm child (st : cstate) :
  emits_leaf norm ->
  triple (walking st)
         (command_token is_headcommand is_option node norm child st)
         (fun st' w => walking st' w).
Proof.
  intros Hnorm. unfold command_token.
  set (ops := unary_logic_ops st ++ binary_logic_ops st).
  set (ap0 := attach_point st).
  assert (Hin0 : ap0 ∈ [ap0]) by (by left).
  assert (Hself : forall w, walking st w -> tidy ops [ap0] (nodes w)) by done.
  destruct (rkind child =? "word")%string.
  - eapply triple_bind; [apply triple_read, readonly_attr|].
    intros tok. cbn beta.
    destruct (tok =? "--")%string; [by apply triple_ret|].
    destruct (tok =? ";")%string; [by apply triple_ret|].
    destruct (mem tok unary_logic_operators).
    { eapply triple_bind;
        [by apply (triple_find_flag_attach_point ops [ap0] ap0)|].
      intros ap. cbn beta.
      eapply triple_bind; [apply triple_read, readonly_is_unary_logic_op|].
      intros [|]; cbn beta iota.
      - eapply triple_conseq;
          [apply (triple_record ops [ap; ap0] ap); by left|done|].
        intros x w (n & -> & T). unfold walking. cbn.
        eapply tidy_refs; [|eapply tidy_ops; [|exact T]].
        + intros y ->%list_elem_of_singleton. by left.
        + subst ops. rewrite <- !app_assoc.
          apply Permutation_app_head, Permutation_app_comm.
      - eapply triple_bind;
          [apply (triple_attach_option ops [ap; ap0] norm ap Hnorm);
           by left|].
        intros ap'. apply triple_ret. intros w.
        apply walking_attach. by left. }
    destruct (mem tok binary_logic_operators).
    { eapply triple_bind;
        [by apply (triple_find_flag_attach_point ops [ap0] ap0)|].
      intros ap. cbn beta.
      eapply triple_bind; [apply triple_read, readonly_is_binary_logic_op|].
      intros [[|] wd]; cbn [fst snd]; cbv iota.
      - eapply triple_conseq;
          [apply (triple_record ops [ap; ap0] ap); by left|done|].
        intros x w (n & -> & T). unfold walking. cbn.
        eapply tidy_refs; [|eapply tidy_ops; [|exact T]].
        + intros y ->%list_elem_of_singleton. by left.
        + subst ops. by rewrite <- !app_assoc.
      - eapply triple_bind;
          [apply (triple_attach_option ops [ap; ap0] norm ap Hnorm);
           by left|].
        intros ap'. apply triple_ret. intros w.
        apply walking_attach. by left. }
    destruct (is_headcommand tok).
    { eapply triple_bind; [apply triple_read, readonly_with_quotation|].
      intros q. cbn beta. destruct (negb q); [|by apply triple_ret].
      eapply triple_bind; [by apply (Hnorm ops [ap0] ap0)|].
      intros u. cbn beta.
      eapply triple_bind; [apply triple_right_child_after|].
      intros c. apply triple_ret. intros w.
      apply walking_attach. by left. }
    destruct (is_option tok && negb (END_OF_OPTIONS st)).
    { eapply triple_bind;
        [by apply (triple_attach_option ops [ap0] norm ap0 Hnorm)|].
      intros c. apply triple_ret. intros w.
      apply walking_attach. by left. }
    eapply triple_bind; [apply triple_read, readonly_get|].
    intros f. cbn beta.
    eapply triple_bind.
    { apply triple_read.
      destruct f; [|apply readonly_ret].
      apply readonly_bind; [apply readonly_get|intros; apply readonly_ret]. }
    intros up. cbn beta.
    eapply triple_bind with
      (Q := fun ap w => tidy ops [ap; ap0] (nodes w)).
    { destruct up; [apply triple_get_parent|].
      apply triple_ret. intros w. apply tidy_refs.
      intros x [->|?]%elem_of_cons; done. }
    intros ap. cbn beta.
    eapply triple_bind; [apply (Hnorm ops [ap; ap0] ap); by left|].
    intros u. apply triple_ret. intros w Hleaf.
    apply leaf_under_tidy in Hleaf.
    eapply walking_attach; [|exact Hleaf]. by left.
  - destruct (rkind child =? "assignment")%string.
    + eapply triple_bind; [by apply (Hnorm ops [ap0] ap0)|].
      intros u. apply triple_ret. intros w. apply leaf_under_tidy.
    + eapply triple_bind; [apply triple_print|]. intros u.
      eapply triple_bind; [apply triple_print|]. intros u'.
      apply triple_raise. intros w. apply tidy_linked.
Qed.

Lemma triple_command_step node norm child (st : cstate) :
  emits_leaf norm ->
  triple (walking st)
         (command_step is_headcommand is_option node norm child st)
         (fun st' w => walking st' w).
Proof.
  intros Hnorm. unfold command_step.
  eapply triple_bind; [apply triple_end_of_command_ascent|].
  intros st'. by apply triple_command_token.
Qed.

Lemma emits_leaf_plain_word (child : rnode) :
  plain_word child ->
  emits_leaf (normalize is_headcommand is_option digit_fold cmd nd child).
Proof.
  intros (tok & a & b & c & ->) ops rs r k Hr.
  change (normalize is_headcommand is_option digit_fold cmd nd
            (RNode "word" (Some tok) (Some []) (Some (a, b)) c) r k)
    with (emit_leaf is_option digit_fold cmd nd
            (RNode "word" (Some tok) (Some []) (Some (a, b)) c) r k).
  by apply triple_emit_leaf.
Qed.

Lemma triple_walk node (ps : list rnode) :
  Forall plain_word ps ->
  forall st,
    triple (walking st)
           (foldM (fun st child =>
                     command_step is_headcommand is_option node
                       (normalize is_headcommand is_option digit_fold cmd nd
                                  child)
                       child st)
                  ps st)
           (fun st' w => walking st' w).
Proof.
  induction 1 as [|child ps Hc Hps IH]; intros st.
  - by apply triple_ret.
  - cbn [foldM].
    eapply triple_bind;
      [by apply triple_command_step, emits_leaf_plain_word|].
    intros st'. apply IH.
Qed.

Lemma normalize_command_unfold wd ps pos c current arg_type :
  normalize is_headcommand is_option digit_fold cmd nd
            (RNode "command" wd (Some ps) pos c) current arg_type
  = (st <- foldM (fun st child =>
                    command_step is_headcommand is_option
                      (RNode "command" wd (Some ps) pos c)
                      (normalize is_headcommand is_option digit_fold cmd nd
                                 child)
                      child st)
                 ps (init_cstate current) ;;
     fold_logic_ops st).
Proof. reflexivity. Qed.

(** X21: a simple command keeps the tree linked.  When every token of a
    command is a word without compound parts, [normalize] of the command
    under an object of a linked store (or under no object) leaves a linked
    store, whether it ends with its answer or with an exception: the walk
    records only operators it has just made, which have no children when
    the second pass takes them. *)
Theorem X21_simple_command_keeps_links
  (wd : option string) (ps : list rnode) (pos : option (Z * Z))
  (c : option rnode) (current : option nat) (arg_type : string) (w : world) :
  Forall plain_word ps ->
  linked (nodes w) ->
  match current with Some a => a < length (nodes w) | None => True end ->
  linked (nodes (snd (normalize is_headcommand is_option digit_fold cmd nd
                                (RNode "command" wd (Some ps) pos c)
                                current arg_type w))).
Proof.
  intros Hps Hl Hcur. rewrite normalize_command_unfold.
  set (walk := foldM _ ps (init_cstate current)).
  destruct (walk w) as [r w1] eqn:Hw.
  assert (H0 : walking (init_cstate current) w).
  { unfold walking, tidy. cbn.
    split; [done|]. split; [constructor|]. split; [constructor|].
    constructor; [|constructor].
    destruct current; [|done]. split; [done|]. by intros ?%elem_of_nil. }
  pose proof (triple_walk _ ps Hps (init_cstate current) w r w1 H0 Hw) as H1.
  unfold bind. rewrite Hw. destruct r as [st|e]; [|done].
  destruct H1 as (Hl1 & Hnd & Hch & _).
  unfold fold_logic_ops.
  destruct (fold_unary (unary_logic_ops st) w1) as [ru w2] eqn:Hu.
  destruct (fold_unary_linked _ _ _ _ _ Hl1 Hnd Hch Hu)
    as ([b ->] & Hl2 & Hch2).
  unfold bind. rewrite Hu. destruct b; [done|].
  apply NoDup_app in Hnd as (_ & _ & Hnd).
  destruct (fold_binary (binary_logic_ops st) w2) as [rb w3] eqn:Hb.
  by destruct (fold_binary_linked _ _ _ _ Hl2 Hnd Hch2 Hb).
Qed.

End Walk.

(** X21, witness: [find . -not -name a -or -name b] under a root. *)
Lemma X21_simple_command_keeps_links_witness :
  linked (nodes (snd (normalize Sample.is_headcommand Sample.is_option
                        Sample.digit_fold "find . -not -name a -or -name b"
                        true
                        (RNode "command" None
                           (Some [Sample.word "find" 0 4;
                                  Sample.word "." 5 6;
                                  Sample.word "-not" 7 11;
                                  Sample.word "-name" 12 17;
                                  Sample.word "a" 18 19;
                                  Sample.word "-or" 20 23;
                                  Sample.word "-name" 24 29;
                                  Sample.word "b" 30 31]) None None)
                        (Some 0) ""
                        (mkWorld [mkNode None None None "root" "" []] [])))).
Proof.
  apply (X21_simple_command_keeps_links
           Sample.is_headcommand Sample.is_option Sample.digit_fold
           "find . -not -name a -or -name b" true).
  - repeat constructor; unfold plain_word, Sample.word; eauto.
  - apply linkedb_sound. vm_compute. reflexivity.
  - cbn. lia.
Defined.

Example simple_command_tree :
  Sample.result_tree
    (Sample.run [Sample.command [Sample.word "find" 0 4;
                                 Sample.word "." 5 6;
                                 Sample.word "-not" 7 11;
                                 Sample.word "-name" 12 17;
                                 Sample.word "a" 18 19;
                                 Sample.word "-or" 20 23;
                                 Sample.word "-name" 24 29;
                                 Sample.word "b" 30 31]]
                "find . -not -name a -or -name b")
  = Some (T "root" ""
            [T "headcommand" "find"
               [T "argument" "." [];
                T "binarylogicop" "-or"
                  [T "unarylogicop" "-not"
                     [T "flag" "-name" [T "argument" "a" []]];
                   T "flag" "-name" [T "argument" "b" []]]]]).
Proof. vm_compute. reflexivity. Qed.

(** ** What [normalize_ast] catches, and what escapes it *)

Lemma foldM_app {A S} (f : S -> A -> M S) (l1 l2 : list A) (s : S) (w : world) :
  foldM f (l1 ++ l2) s w = (s' <- foldM f l1 s ;; foldM f l2 s') w.
Proof.
  revert s w. induction l1 as [|x l1 IH]; intros s w.
  - reflexivity.
  - cbn [foldM app]. rewrite bind_assoc. apply bind_cong.
    intros s' w'. apply IH.
Qed.

(** [normalize_ast] after the parser has answered with the roots
    [t0 :: more]: a new root, and the tree builder on [t0]. *)
Lemma normalize_ast_run
  (is_headcommand is_option : string -> bool) (digit_fold : string -> string)
  (parse : string -> exn + list rnode)
  (cmd : string) (normalize_digits recover_quotation : bool) (w : world)
  (roots : list rnode) :
  (prepass cmd =? "") = false ->
  parse (prepass cmd) = inr roots ->
  let cmd' := prepass cmd in
  let root := length (nodes w) in
  let w1 := mkWorld (nodes w ++ [mkNode None None None "root" "" []])
                    (out w ++ (if (1 <? length roots)%nat
                               then [Text ("Doesn't support command with multiple root nodes: "
                                           ++ cmd')%string]
                               else [])) in
  normalize_ast is_headcommand is_option digit_fold parse
                cmd normalize_digits recover_quotation w
  = match roots with
    | [] => (Exc IndexError, w1)
    | t0 :: _ =>
        match normalize is_headcommand is_option digit_fold
                cmd' normalize_digits t0 (Some root) "" w1 with
        | (Exc (ValueError reason), w') =>
            (Ret None,
             mkWorld (nodes w')
                     (out w' ++ [Text (reason ++ " - " ++ cmd')%string]))
        | (Exc e, w') => (Exc e, w')
        | (Ret _, w') => (Ret (Some root), w')
        end
    end.
Proof.
  intros Ecmd Eparse cmd' root w1.
  unfold normalize_ast. fold (prepass cmd). fold cmd'.
  unfold cmd' at 1. rewrite Ecmd. unfold cmd' at 1. rewrite Eparse.
  subst w1 root. destruct w as [h o].
  destruct (1 <? length roots)%nat; cbn [nodes out];
    rewrite ?app_nil_r; destruct roots; reflexivity.
Qed.

Section Exits.

Variables is_headcommand is_option : string -> bool.
Variable digit_fold : string -> string.
Variable cmd : string.
Variable nd : bool.

(** The [sys.exit()] of a pipeline with an even number of parts. *)
Lemma even_pipeline_exits wd ps pos c (p : nat) arg_type (w : world) :
  p < length (nodes w) ->
  Nat.even (length ps) = true ->
  fst (normalize is_headcommand is_option digit_fold cmd nd
                 (RNode "pipeline" wd (Some ps) pos c) (Some p) arg_type w)
  = Exc SystemExit.
Proof.
  intros Hp Hev.
  change (normalize is_headcommand is_option digit_fold cmd nd
            (RNode "pipeline" wd (Some ps) pos c) (Some p) arg_type)
    with (norm_node <- new_node "pipeline" "" ;;
          attach_to_tree norm_node (Some p) ;;;
          if Nat.even (length ps) then
            print (Text "Error: pipeline node must have odd number of parts") ;;;
            print (Raw (RNode "pipeline" wd (Some ps) pos c)) ;;;
            @raise unit SystemExit
          else
            forM_ (fun child =>
                     if rkind child =? "command" then
                       normalize is_headcommand is_option digit_fold cmd nd
                                 child (Some norm_node) ""
                     else if rkind child =? "pipe" then ret tt
                     else raise (ValueError
                       "Error: unrecognized type of child of pipeline node"))
                  ps).
  rewrite Hev. unfold bind at 1, new_node. cbn [nodes out].
  rewrite (bind_run _ _ _ _ tt)
    by (apply attach_to_tree_run; cbn; rewrite length_app; cbn; lia).
  reflexivity.
Qed.

(** The [sys.exit()] of the walk at a part that is neither a word nor an
    assignment. *)
Lemma unknown_part_exits wd pre child post pos c current arg_type
  (w w2 w3 : world) (st st' : cstate) :
  let node := RNode "command" wd (Some (pre ++ child :: post)) pos c in
  walk is_headcommand is_option digit_fold cmd nd node pre
       (init_cstate current) w = (Ret st, w2) ->
  end_of_command_ascent st w2 = (Ret st', w3) ->
  (rkind child =? "word") = false ->
  (rkind child =? "assignment") = false ->
  normalize is_headcommand is_option digit_fold cmd nd node current arg_type w
  = (Exc SystemExit,
     mkWorld (nodes w3)
             (out w3 ++ [Text "Error: unknown type of child of CommandNode";
                         Raw node])).
Proof.
  intros node Hwalk Hasc Hk1 Hk2. unfold node at 1.
  rewrite normalize_command_unfold. fold node.
  unfold bind at 1. rewrite foldM_app.
  unfold walk in Hwalk. rewrite (bind_run _ _ _ _ _ Hwalk).
  cbn [foldM]. unfold bind at 1. unfold command_step at 1.
  rewrite (bind_run _ _ _ _ _ Hasc).
  unfold command_token. rewrite Hk1, Hk2.
  unfold bind, print, raise. cbn. by rewrite <- app_assoc.
Qed.

(** The [sys.exit()] of the second pass at a binary operator without a
    left or a right sibling. *)
Lemma lone_binary_exits wd ps pos c current arg_type
  (w w2 w3 w4 : world) (st : cstate) (before rest : list nat) (op : nat)
  (nop : Node) :
  let node := RNode "command" wd (Some ps) pos c in
  walk is_headcommand is_option digit_fold cmd nd node ps
       (init_cstate current) w = (Ret st, w2) ->
  fold_unary (unary_logic_ops st) w2 = (Ret false, w3) ->
  binary_logic_ops st = before ++ op :: rest ->
  fold_binary before w3 = (Ret tt, w4) ->
  nodes w4 !! op = Some nop ->
  lsb nop = None \/ rsb nop = None ->
  normalize is_headcommand is_option digit_fold cmd nd node current arg_type w
  = (Exc SystemExit,
     mkWorld (nodes w4)
             (out w4 ++ [Text "Error: binary logic operator must have both left and right siblings.";
                         Obj (parent nop)])).
Proof.
  intros node Hwalk Hu Hst Hb Hop Hlone. unfold node at 1.
  rewrite normalize_command_unfold. fold node.
  unfold walk in Hwalk. rewrite (bind_run _ _ _ _ _ Hwalk).
  unfold fold_logic_ops. rewrite (bind_run _ _ _ _ _ Hu), Hst.
  rewrite fold_binary_app, (bind_run _ _ _ _ _ Hb).
  cbn [fold_binary].
  rewrite (bind_run _ _ w4 w4 (rsb nop)) by (by apply get_run).
  rewrite (bind_run _ _ w4 w4 (lsb nop)) by (by apply get_run).
  assert (R : (print (Text "Error: binary logic operator must have both left and right siblings.") ;;;
               p <- get parent (Some op) ;;
               print (Obj p) ;;;
               @raise unit SystemExit) w4
              = (Exc SystemExit,
                 mkWorld (nodes w4)
                   (out w4 ++ [Text "Error: binary logic operator must have both left and right siblings.";
                               Obj (parent nop)]))).
  { unfold bind at 1, print at 1.
    erewrite bind_run by (apply get_run; cbn; exact Hop).
    unfold bind, print, raise. cbn. by rewrite <- app_assoc. }
  destruct (rsb nop) as [ri|], (lsb nop) as [li|];
    [by destruct Hlone|exact R..].
Qed.

End Exits.

(** C1, as amended: [normalize_ast] answers [None] for an empty command;
    for a parser exception of one of the five classes it names it prints
    the reason and answers [None], and any other parser exception escapes.
    When the parser answers, the tree builder runs on the first root under
    a new root: when it returns, the answer is that root; when it raises
    [ValueError], the reason is printed and the answer is [None]; any
    other exception it raises escapes as it is, and is one of
    [SystemExit], [AttributeError], [IndexError] and [TypeError].  So
    [SystemExit] escapes when the first root is a pipeline with an even
    number of parts; when the walk over the parts of the first root, a
    command, reaches a part that is neither a word nor an assignment; and
    when the second pass of that command, its loop over the unary
    operators ended without its [return], reaches a binary operator
    without a left or a right sibling. *)
Theorem C1_caught_and_escaping_failures
  (is_headcommand is_option : string -> bool) (digit_fold : string -> string)
  (parse : string -> exn + list rnode)
  (cmd : string) (normalize_digits recover_quotation : bool) (w : world) :
  let cmd' := prepass cmd in
  let r := normalize_ast is_headcommand is_option digit_fold parse
                         cmd normalize_digits recover_quotation w in
  let root := length (nodes w) in
  if cmd' =? "" then r = (Ret None, w)
  else
    match parse cmd' with
    | inl e =>
        match caught_from_parser e with
        | Some name =>
            r = (Ret None,
                 mkWorld (nodes w)
                   (out w ++ [Text ("Cannot parse: " ++ cmd' ++ " - " ++ name)%string]))
        | None => r = (Exc e, w)
        end
    | inr roots =>
        let w1 :=
          mkWorld (nodes w ++ [mkNode None None None "root" "" []])
                  (out w ++ (if (1 <? length roots)%nat
                             then [Text ("Doesn't support command with multiple root nodes: "
                                         ++ cmd')%string]
                             else [])) in
        match roots with
        | [] => r = (Exc IndexError, w1)
        | t0 :: _ =>
            match normalize is_headcommand is_option digit_fold
                    cmd' normalize_digits t0 (Some root) "" w1 with
            | (Ret _, w') => r = (Ret (Some root), w')
            | (Exc (ValueError reason), w') =>
                r = (Ret None,
                     mkWorld (nodes w')
                       (out w' ++ [Text (reason ++ " - " ++ cmd')%string]))
            | (Exc e, w') => r = (Exc e, w') /\ escaping_fault e
            end
            /\ (forall wd ps pos c,
                  t0 = RNode "pipeline" wd (Some ps) pos c ->
                  Nat.even (length ps) = true ->
                  fst r = Exc SystemExit)
            /\ (forall wd pre child post pos c st w2 st' w3,
                  t0 = RNode "command" wd (Some (pre ++ child :: post)) pos c ->
                  walk is_headcommand is_option digit_fold cmd'
                       normalize_digits t0 pre (init_cstate (Some root)) w1
                  = (Ret st, w2) ->
                  end_of_command_ascent st w2 = (Ret st', w3) ->
                  (rkind child =? "word") = false ->
                  (rkind child =? "assignment") = false ->
                  fst r = Exc SystemExit)
            /\ (forall wd ps pos c st w2 w3 before op rest w4 nop,
                  t0 = RNode "command" wd (Some ps) pos c ->
                  walk is_headcommand is_option digit_fold cmd'
                       normalize_digits t0 ps (init_cstate (Some root)) w1
                  = (Ret st, w2) ->
                  fold_unary (unary_logic_ops st) w2 = (Ret false, w3) ->
                  binary_logic_ops st = before ++ op :: rest ->
                  fold_binary before w3 = (Ret tt, w4) ->
                  nodes w4 !! op = Some nop ->
                  lsb nop = None \/ rsb nop = None ->
                  fst r = Exc SystemExit)
        end
    end.
Proof.
  intros cmd' r root.
  destruct (cmd' =? "") eqn:Ecmd.
  { subst r. unfold normalize_ast. fold (prepass cmd). fold cmd'.
    by rewrite Ecmd. }
  destruct (parse cmd') as [e|roots] eqn:Eparse.
  { subst r. unfold normalize_ast. fold (prepass cmd). fold cmd'.
    rewrite Ecmd, Eparse. destruct e; reflexivity. }
  intros w1.
  pose proof (normalize_ast_run is_headcommand is_option digit_fold parse cmd
                normalize_digits recover_quotation w roots Ecmd Eparse) as Hr.
  cbv zeta in Hr. fold cmd' root w1 r in Hr.
  destruct roots as [|t0 roots']; [exact Hr|].
  assert (Hroot : root < length (nodes w1)).
  { subst w1 root. cbn [nodes]. rewrite length_app. cbn. lia. }
  split; [|split; [|split]].
  - destruct (normalize _ _ _ _ _ t0 _ _ _) as [[[]|e] w2] eqn:En.
    + exact Hr.
    + apply normalize_faults in En. destruct e; done.
  - intros wd ps pos c -> Hev.
    pose proof (even_pipeline_exits is_headcommand is_option digit_fold cmd'
                  normalize_digits wd ps pos c root "" w1 Hroot Hev) as E.
    destruct (normalize _ _ _ _ _ _ _ _ _) as [o w2].
    cbn [fst] in E. subst o. by rewrite Hr.
  - intros wd pre child post pos c st w2 st' w3 -> Hwalk Hasc Hk1 Hk2.
    rewrite (unknown_part_exits is_headcommand is_option digit_fold cmd'
               normalize_digits wd pre child post pos c (Some root) ""
               w1 w2 w3 st st' Hwalk Hasc Hk1 Hk2) in Hr.
    by rewrite Hr.
  - intros wd ps pos c st w2 w3 before op rest w4 nop
           -> Hwalk Hu Hst Hb Hop Hlone.
    rewrite (lone_binary_exits is_headcommand is_option digit_fold cmd'
               normalize_digits wd ps pos c (Some root) ""
               w1 w2 w3 w4 st before rest op nop
               Hwalk Hu Hst Hb Hop Hlone) in Hr.
    by rewrite Hr.
Qed.

(** C1, witness: [SystemExit] escapes from [find -or .], where [-or] has
    no left sibling, from a pipeline of two parts, and from a command with
    a part of kind [operator]. *)
Lemma C1_caught_and_escaping_failures_witness :
  fst (Sample.run [Sample.command [Sample.word "find" 0 4;
                                   Sample.word "-or" 5 8;
                                   Sample.word "." 9 10]]
                  "find -or .")
  = Exc SystemExit
  /\ fst (Sample.run [RNode "pipeline" None
                        (Some [Sample.command [Sample.word "find" 0 4];
                               RNode "pipe" None None None None])
                        None None]
                     "find |")
     = Exc SystemExit
  /\ fst (Sample.run [Sample.command [Sample.word "find" 0 4;
                                      Sample.operator]]
                     "find &")
     = Exc SystemExit.
Proof.
  split; [|split].
  - pose proof (C1_caught_and_escaping_failures
                  Sample.is_headcommand Sample.is_option Sample.digit_fold
                  (Sample.parses_to
                     [Sample.command [Sample.word "find" 0 4;
                                      Sample.word "-or" 5 8;
                                      Sample.word "." 9 10]])
                  "find -or ." true true empty_world) as H.
    cbv zeta in H.
    change (prepass "find -or ." =? "") with false in H.
    unfold Sample.parses_to in H. cbv beta iota in H.
    destruct H as (_ & _ & _ & H).
    eapply (H _ _ _ _ _ _ _ [] 2 []).
    + reflexivity.
    + lazy. reflexivity.
    + reflexivity.
    + reflexivity.
    + reflexivity.
    + lazy. reflexivity.
    + left. reflexivity.
  - pose proof (C1_caught_and_escaping_failures
                  Sample.is_headcommand Sample.is_option Sample.digit_fold
                  (Sample.parses_to
                     [RNode "pipeline" None
                        (Some [Sample.command [Sample.word "find" 0 4];
                               RNode "pipe" None None None None])
                        None None])
                  "find |" true true empty_world) as H.
    cbv zeta in H.
    change (prepass "find |" =? "") with false in H.
    unfold Sample.parses_to in H. cbv beta iota in H.
    destruct H as (_ & H & _).
    eapply H; reflexivity.
  - pose proof (C1_caught_and_escaping_failures
                  Sample.is_headcommand Sample.is_option Sample.digit_fold
                  (Sample.parses_to
                     [Sample.command [Sample.word "find" 0 4;
                                      Sample.operator]])
                  "find &" true true empty_world) as H.
    cbv zeta in H.
    change (prepass "find &" =? "") with false in H.
    unfold Sample.parses_to in H. cbv beta iota in H.
    destruct H as (_ & _ & H & _).
    eapply (H _ [Sample.word "find" 0 4] Sample.operator []).
    + reflexivity.
    + lazy. reflexivity.
    + reflexivity.
    + reflexivity.
    + reflexivity.
Defined.

(** C1, counterexample: the binary operator of [find . -or] has no right
    sibling, and [SystemExit] escapes [normalize_ast]. *)
Lemma C1_counterexample :
  fst (Sample.run [Sample.command [Sample.word "find" 0 4; Sample.word "." 5 6;
                                   Sample.word "-or" 7 10]]
                  "find . -or")
  = Exc SystemExit.
Proof. vm_compute. reflexivity. Qed.

(** A run that meets a unary operator without a right sibling returns
    before the binary operators are looked at: [find -or . -not] answers
    a tree, although its [-or] has no left sibling. *)
Example lone_binary_after_early_return :
  Sample.result_tree
    (Sample.run [Sample.command [Sample.word "find" 0 4;
                                 Sample.word "-or" 5 8;
                                 Sample.word "." 9 10;
                                 Sample.word "-not" 11 15]]
                "find -or . -not")
  = Some (T "root" ""
            [T "headcommand" "find"
               [T "binarylogicop" "-or" []; T "argument" "." [];
                T "unarylogicop" "-not" []]]).
Proof. vm_compute. reflexivity. Qed.

(** ** What [list_to_tree] builds from any sequence *)

Lemma builds_nil : builds [] [].
Proof.
  intros h o c cs Hc Hcs. exists h, []. cbn [app].
  rewrite app_nil_r. split; [done|]. repeat split; try done.
  intros j n Hj Hn. apply lookup_lt_Some in Hn. lia.
Qed.

Lemma builds_app (b1 b2 : list string) (ts1 ts2 : list tree) :
  builds b1 ts1 -> builds b2 ts2 -> builds (b1 ++ b2) (ts1 ++ ts2).
Proof.
  intros H1 H2 h o c cs Hc Hcs.
  destruct (H1 h o c cs Hc Hcs)
    as (h1 & ids1 & R1 & L1 & S1 & P1 & K1 & V1 & C1 & T1 & I1 & N1).
  destruct (H2 h1 o c (cs ++ ids1) ltac:(lia) C1)
    as (h2 & ids2 & R2 & L2 & S2 & P2 & K2 & V2 & C2 & T2 & I2 & N2).
  exists h2, (ids1 ++ ids2).
  split; [intros rest; by rewrite <- app_assoc, R1|].
  split; [lia|].
  split. { intros j Hj Hne. rewrite S2, S1 by (done || lia). done. }
  split. { intros j Hj. rewrite P2, P1 by (done || lia). done. }
  split; [by rewrite K2|]. split; [by rewrite V2|].
  split; [by rewrite C2, app_assoc|].
  split.
  { apply Forall2_app; [|done].
    eapply Forall2_Forall_impl; [|exact I1|exact T1].
    intros i t Hi Ht. apply (holds_stable (length h) h1 h2); try done.
    intros j Hj1 Hj2. apply S2; lia. }
  split.
  { apply Forall_app. split; [done|].
    eapply Forall_impl; [exact I2|]. cbn. intros; lia. }
  intros j n Hj Hn. destruct (decide (j < length h1)) as [Hlt|Hge].
  - pose proof (S2 j Hlt ltac:(lia)) as E. rewrite Hn in E. cbn in E.
    symmetry in E. apply fmap_lookup_Some in E as (n1 & Hn1 & Hs).
    injection Hs as _ _ <-. by apply (N1 j n1).
  - apply (N2 j n); [lia|done].
Qed.

(** The store after a symbol that is not the end marker: a new node
    under the cursor. *)
Lemma opened_node (s k v : string) (l : list string) (h : list Node)
  (o : list msg) (c : nat) (cs : list nat) :
  (s =? NO_EXPAND) = false ->
  Str.split1 "_" s = (k, Some v) ->
  c < length h ->
  children <$> h !! c = Some cs ->
  let n := length h in
  let h1 := attach_store n c (h ++ [mkNode None None None (Str.lower k) v []]) in
  list_to_tree_loop (s :: l) (Some c) (mkWorld h o)
  = list_to_tree_loop l (Some n) (mkWorld h1 o)
  /\ length h1 = S (length h)
  /\ kind <$> h1 !! n = Some (Str.lower k)
  /\ value <$> h1 !! n = Some v
  /\ children <$> h1 !! n = Some []
  /\ parent <$> h1 !! n = Some (Some c)
  /\ (forall j, j < length h -> j <> c -> shape <$> h1 !! j = shape <$> h !! j)
  /\ (forall j, j < length h -> parent <$> h1 !! j = parent <$> h !! j)
  /\ kind <$> h1 !! c = kind <$> h !! c
  /\ value <$> h1 !! c = value <$> h !! c
  /\ children <$> h1 !! c = Some (cs ++ [n]).
Proof.
  intros Hne Hsplit Hc Hcs n h1.
  set (new := mkNode None None None (Str.lower k) v []) in *.
  assert (Hold : forall j, j < length h -> (h ++ [new]) !! j = h !! j).
  { intros j Hj. by apply lookup_app_l. }
  split.
  { cbn [list_to_tree_loop]. rewrite Hne, Hsplit.
    unfold bind at 1, new_node. cbn [nodes out]. fold new.
    erewrite bind_run
      by (apply attach_to_tree_run; cbn; rewrite length_app; cbn; lia).
    reflexivity. }
  split. { unfold h1. rewrite attach_store_length, length_app. cbn. lia. }
  split. { unfold h1, n. by rewrite attach_store_kind, lookup_new. }
  split. { unfold h1, n. by rewrite attach_store_value, lookup_new. }
  split. { unfold h1, n. rewrite attach_store_children_other by lia.
           by rewrite lookup_new. }
  split. { unfold h1, n. by rewrite attach_store_parent_node, lookup_new. }
  split. { intros j Hj Hjc. unfold h1.
           rewrite attach_store_shape_other by done. by rewrite Hold. }
  split. { intros j Hj. unfold h1, n.
           rewrite attach_store_parent_other by lia. by rewrite Hold. }
  split. { unfold h1. by rewrite attach_store_kind, Hold. }
  split. { unfold h1. by rewrite attach_store_value, Hold. }
  unfold h1. rewrite attach_store_children_parent, Hold by done.
  apply fmap_lookup_Some in Hcs as (nc & -> & <-). done.
Qed.

(** A node read from its symbol, with trees built from the sequence
    [body] below it. *)
Lemma node_holds (h : list Node) (n : nat) (k v : string) (ids : list nat)
  (ts : list tree) :
  kind <$> h !! n = Some k ->
  value <$> h !! n = Some v ->
  children <$> h !! n = Some ids ->
  Forall2 (holds h) ids ts ->
  holds h n (T k v ts).
Proof.
  intros K V C Ts.
  apply fmap_lookup_Some in K as (m & Hm & <-).
  rewrite Hm in V, C. cbn in V, C. injection V as <-. injection C as C.
  apply view_intro; [done|]. by rewrite C.
Qed.

Lemma builds_node (s k v : string) (body : list string) (ts : list tree) :
  (s =? NO_EXPAND) = false ->
  Str.split1 "_" s = (k, Some v) ->
  builds body ts ->
  builds (s :: body ++ [NO_EXPAND]) [T (Str.lower k) v ts].
Proof.
  intros Hne Hsplit Hts h o c cs Hc Hcs.
  pose proof (fun l => opened_node s k v l h o c cs Hne Hsplit Hc Hcs) as Ho.
  cbv zeta in Ho.
  destruct (Ho []) as (_ & L1 & K1 & V1 & C1 & P1 & S1 & PP1 & Kc1 & Vc1 & Cc1).
  pose proof (fun l => proj1 (Ho l)) as R1. clear Ho.
  set (h1 := attach_store (length h) c _) in *.
  destruct (Hts h1 o (length h) [] ltac:(lia) C1)
    as (h2 & ids & R2 & L2 & S2 & P2 & K2 & V2 & C2 & T2 & I2 & N2).
  assert (Sc : shape <$> h2 !! c = shape <$> h1 !! c) by (apply S2; lia).
  assert (Hc2 : kind <$> h2 !! c = kind <$> h !! c
                /\ value <$> h2 !! c = value <$> h !! c
                /\ children <$> h2 !! c = Some (cs ++ [length h])).
  { rewrite <- Kc1, <- Vc1, <- Cc1.
    destruct (h2 !! c) as [a|], (h1 !! c) as [b|]; cbn in Sc |- *;
      try done.
    injection Sc as -> -> ->. done. }
  destruct Hc2 as (Kc2 & Vc2 & Cc2).
  exists h2, [length h].
  split.
  { intros rest. cbn [app]. rewrite R1, <- app_assoc, R2. cbn [app].
    cbn [list_to_tree_loop].
    change (NO_EXPAND =? NO_EXPAND) with true. cbn match.
    erewrite bind_run
      by (apply get_field; cbn; rewrite P2 by lia; exact P1).
    reflexivity. }
  split; [lia|].
  split. { intros j Hj Hjc. rewrite S2 by lia. by apply S1. }
  split. { intros j Hj. rewrite P2 by lia. by apply PP1. }
  split; [done|]. split; [done|]. split; [done|].
  split.
  { constructor; [|constructor].
    apply (node_holds h2 (length h) (Str.lower k) v ids ts);
      [by rewrite K2|by rewrite V2|done|done]. }
  split; [constructor; [lia|constructor]|].
  intros j n Hj Hn. destruct (decide (j = length h)) as [->|Hjn].
  - rewrite Hn in C2. cbn in C2. injection C2 as ->.
    eapply Forall_impl; [exact I2|]. cbn. intros; lia.
  - apply (N2 j n); [lia|done].
Qed.

Lemma spells_builds (l : list string) (ts : list tree) :
  spells l ts -> builds l ts.
Proof.
  induction 1 as [|s k v body rest cs ts Hne Hsplit _ IHb _ IHr].
  - apply builds_nil.
  - replace (s :: body ++ NO_EXPAND :: rest)
      with ((s :: body ++ [NO_EXPAND]) ++ rest)
      by (cbn; by rewrite <- app_assoc).
    apply (builds_app _ _ [_] ts); [by apply builds_node|done].
Qed.

Lemma spells_open_builds (l : list string) (ts : list tree) :
  spells_open l ts -> builds_open l ts.
Proof.
  induction 1 as [body ts Hb|s k v body inner ts cs Hb Hne Hsplit _ IH].
  - intros h o c cs Hc Hcs.
    destruct (spells_builds _ _ Hb h o c cs Hc Hcs)
      as (h1 & ids & R & L & S & _ & K & V & C & Ts & I & N).
    specialize (R []). rewrite app_nil_r in R. exists h1, ids. by rewrite R.
  - intros h o c cs0 Hc Hcs.
    destruct (spells_builds _ _ Hb h o c cs0 Hc Hcs)
      as (h1 & ids1 & R1 & L1 & S1 & _ & K1 & V1 & C1 & T1 & I1 & N1).
    destruct (opened_node s k v inner h1 o c (cs0 ++ ids1)
                Hne Hsplit ltac:(lia) C1)
      as (R2 & L2 & K2 & V2 & C2 & P2 & S2 & _ & Kc2 & Vc2 & Cc2).
    set (n := length h1) in *.
    set (h2 := attach_store n c _) in *.
    destruct (IH h2 o n [] ltac:(lia) C2)
      as (h3 & ids3 & R3 & L3 & S3 & K3 & V3 & C3 & T3 & I3 & N3).
    assert (Sc : shape <$> h3 !! c = shape <$> h2 !! c)
      by (apply S3; lia).
    assert (Hc3 : kind <$> h3 !! c = kind <$> h2 !! c
                  /\ value <$> h3 !! c = value <$> h2 !! c
                  /\ children <$> h3 !! c = children <$> h2 !! c).
    { destruct (h3 !! c) as [a|], (h2 !! c) as [b|]; cbn in Sc |- *;
        try done.
      injection Sc as -> -> ->. done. }
    destruct Hc3 as (Kc3 & Vc3 & Cc3).
    assert (Hst : forall j, length h <= j -> j < length h1 ->
                    shape <$> h3 !! j = shape <$> h1 !! j).
    { intros j Hj1 Hj2. rewrite S3, S2 by lia. done. }
    exists h3, (ids1 ++ [n]).
    split; [by rewrite R1, R2, R3|].
    split; [lia|].
    split. { intros j Hj Hjc. rewrite S3, S2, S1 by (done || lia). done. }
    split; [by rewrite Kc3, Kc2, K1|].
    split; [by rewrite Vc3, Vc2, V1|].
    split; [by rewrite Cc3, Cc2, app_assoc|].
    split.
    { apply Forall2_app.
      - eapply Forall2_Forall_impl; [|exact I1|exact T1].
        intros i t Hi Ht. by apply (holds_stable (length h) h1 h3).
      - constructor; [|constructor].
        apply (node_holds h3 n (Str.lower k) v ids3 cs);
          [by rewrite K3|by rewrite V3|done|done]. }
    split.
    { apply Forall_app. split; [done|]. constructor; [lia|constructor]. }
    intros j m Hj Hm. destruct (decide (j < n)) as [Hlt|Hge].
    + pose proof (Hst j Hj Hlt) as E. rewrite Hm in E. cbn in E.
      symmetry in E. apply fmap_lookup_Some in E as (m1 & Hm1 & Hs).
      injection Hs as _ _ <-. by apply (N1 j m1).
    + destruct (decide (j = n)) as [->|Hjn].
      * rewrite Hm in C3. cbn in C3. injection C3 as ->.
        eapply Forall_impl; [exact I3|]. cbn. intros; lia.
      * apply (N3 j m); [lia|done].
Qed.

(** Every sequence of end markers and texts with an underscore spells
    whole trees and then either ends at or below the node it started
    under, or goes on with an end marker. *)
Lemma spells_app (b1 b2 : list string) (t1 t2 : list tree) :
  spells b1 t1 -> spells b2 t2 -> spells (b1 ++ b2) (t1 ++ t2).
Proof.
  induction 1 as [|s k v body rest cs ts Hne Hsplit Hb _ Hr IH]; [done|].
  intros H2. cbn [app]. rewrite <- app_assoc. cbn [app].
  by apply spells_node; [..|apply IH].
Qed.

Lemma spells_open_app (b1 l2 : list string) (t1 t2 : list tree) :
  spells b1 t1 -> spells_open l2 t2 -> spells_open (b1 ++ l2) (t1 ++ t2).
Proof.
  intros H1. induction 1 as [body ts Hb|s k v body inner ts cs Hb Hne Hs Hi _].
  - apply open_whole. by apply spells_app.
  - rewrite !app_assoc. apply open_below; [by apply spells_app|done..].
Qed.

Lemma well_formed_spells (l : list string) :
  forallb well_formed_symbol l = true ->
  (exists ts, spells_open l ts)
  \/ (exists body extra ts, l = body ++ NO_EXPAND :: extra /\ spells body ts).
Proof.
  remember (length l) as n eqn:Hn. revert l Hn.
  induction n as [n IH] using lt_wf_ind. intros l -> Hwf.
  destruct l as [|s l].
  { left. exists []. apply open_whole, spells_nil. }
  cbn [forallb] in Hwf. apply andb_prop in Hwf as [Hs Hl].
  destruct (s =? NO_EXPAND) eqn:Es.
  { right. apply String.eqb_eq in Es as ->.
    exists [], l, []. split; [done|apply spells_nil]. }
  unfold well_formed_symbol in Hs. rewrite Es in Hs. cbn [orb] in Hs.
  destruct (Str.split1 "_" s) as [k [v|]] eqn:Esplit; [|done].
  destruct (IH (length l) ltac:(cbn; lia) l eq_refl Hl)
    as [[cs Hopen]|(body & extra & cs & -> & Hbody)].
  { left. exists ([] ++ [T (Str.lower k) v cs]).
    apply (open_below s k v [] l [] cs); [apply spells_nil|done..]. }
  assert (Hextra : forallb well_formed_symbol extra = true).
  { rewrite forallb_app in Hl. apply andb_prop in Hl as [_ Hl].
    cbn [forallb] in Hl. by apply andb_prop in Hl as [_ ?]. }
  assert (Hnode : spells (s :: body ++ NO_EXPAND :: [])
                         [T (Str.lower k) v cs])
    by (apply spells_node; [done..|apply spells_nil]).
  destruct (IH (length extra)
              ltac:(cbn; rewrite length_app; cbn; lia) extra eq_refl Hextra)
    as [[ts Hopen]|(body2 & extra2 & ts & -> & Hbody2)].
  - left. exists ([T (Str.lower k) v cs] ++ ts).
    replace (s :: body ++ NO_EXPAND :: extra)
      with ((s :: body ++ NO_EXPAND :: []) ++ extra)
      by (cbn; by rewrite <- app_assoc).
    by apply spells_open_app.
  - right. exists (s :: body ++ NO_EXPAND :: body2), extra2,
      (T (Str.lower k) v cs :: ts).
    split; [cbn; by rewrite <- app_assoc|].
    by apply spells_node.
Qed.

(** C6, as amended: [list_to_tree] reports no malformed sequence.  On
    every sequence whose symbols after the first are end markers or texts
    with an underscore it returns the root it made and prints nothing,
    and the tree below that root is the tree of the symbols it read.
    Either the symbols spell whole trees followed by opened nodes that
    are never closed, the cursor ending at or below the root: the tree
    holds them all, the open nodes with what was read below them.  Or the
    symbols spell whole trees followed by an end marker read at the root:
    the tree holds those trees, and the answer is the one for the
    symbols before that end marker, whatever comes after it. *)
Theorem C6_delinearize_never_reports (symbols : list string) (w : world) :
  forallb well_formed_symbol (tl symbols) = true ->
  exists w' ts,
    list_to_tree symbols "dfs" w = (Ret (length (nodes w)), w')
    /\ out w' = out w
    /\ holds (nodes w') (length (nodes w)) (T "root" "root" ts)
    /\ (spells_open (tl symbols) ts
        \/ exists body extra,
             tl symbols = body ++ NO_EXPAND :: extra
             /\ spells body ts
             /\ forall first,
                  list_to_tree (first :: body) "dfs" w
                  = list_to_tree symbols "dfs" w).
Proof.
  intros Hwf. destruct w as [h o]. cbn [nodes out].
  set (root := mkNode None None None "root" "root" []).
  assert (Hlen : length h < length (h ++ [root]))
    by (rewrite length_app; cbn; lia).
  assert (Hcs : children <$> (h ++ [root]) !! length h = Some [])
    by (by rewrite lookup_new).
  assert (Hrun : forall l : list string,
            list_to_tree l "dfs" (mkWorld h o)
            = (list_to_tree_loop (tl l) (Some (length h)) ;;;
               ret (length h)) (mkWorld (h ++ [root]) o)).
  { intros l. unfold list_to_tree.
    unfold bind at 1, new_node. cbn [nodes out]. reflexivity. }
  destruct (well_formed_spells _ Hwf)
    as [[ts Hopen]|(body & extra & ts & Htl & Hbody)].
  - destruct (spells_open_builds _ _ Hopen (h ++ [root]) o (length h) []
                Hlen Hcs)
      as (h' & ids & R & L & S & K & V & C & Ts & I & N).
    exists (mkWorld h' o), ts. cbn [nodes out].
    split; [rewrite Hrun; by rewrite (bind_run _ _ _ _ _ R)|].
    split; [done|]. split; [|by left].
    rewrite lookup_new in K, V.
    by apply (node_holds h' (length h) "root" "root" ids ts).
  - destruct (spells_builds _ _ Hbody (h ++ [root]) o (length h) []
                Hlen Hcs)
      as (h' & ids & R & L & S & P & K & V & C & Ts & I & N).
    assert (Hend : list_to_tree_loop (NO_EXPAND :: extra) (Some (length h))
                     (mkWorld h' o) = (Ret tt, mkWorld h' o)).
    { cbn [list_to_tree_loop]. change (NO_EXPAND =? NO_EXPAND) with true.
      cbn match.
      erewrite bind_run.
      2:{ apply get_field. cbn. rewrite P by done. by rewrite lookup_new. }
      by destruct extra. }
    assert (Hall : list_to_tree symbols "dfs" (mkWorld h o)
                   = (Ret (length h), mkWorld h' o)).
    { rewrite Hrun, Htl. unfold bind. by rewrite R, Hend. }
    exists (mkWorld h' o), ts. cbn [nodes out].
    split; [done|]. split; [done|]. split.
    + rewrite lookup_new in K, V.
      by apply (node_holds h' (length h) "root" "root" ids ts).
    + right. exists body, extra. split; [done|]. split; [done|].
      intros first. rewrite Hall, Hrun. cbn [tl]. unfold bind.
      specialize (R []). rewrite app_nil_r in R. by rewrite R.
Qed.

(** C6, witness: a sequence that never ascends. *)
Lemma C6_delinearize_never_reports_witness :
  exists w' ts,
    list_to_tree ["ROOT_"; "FLAG_-a"; "ARGUMENT_x"] "dfs" empty_world
    = (Ret (length (nodes empty_world)), w')
    /\ out w' = out empty_world
    /\ holds (nodes w') (length (nodes empty_world)) (T "root" "root" ts)
    /\ (spells_open (tl ["ROOT_"; "FLAG_-a"; "ARGUMENT_x"]) ts
        \/ exists body extra,
             tl ["ROOT_"; "FLAG_-a"; "ARGUMENT_x"]
             = body ++ NO_EXPAND :: extra
             /\ spells body ts
             /\ forall first,
                  list_to_tree (first :: body) "dfs" empty_world
                  = list_to_tree ["ROOT_"; "FLAG_-a"; "ARGUMENT_x"] "dfs"
                                 empty_world).
Proof.
  exact (C6_delinearize_never_reports
           ["ROOT_"; "FLAG_-a"; "ARGUMENT_x"] empty_world eq_refl).
Defined.

(** The two readings, on the sequences of the counterexample: one that
    leaves two nodes open, and one with an end marker read at the root. *)
Example open_and_closed_readings :
  spells_open ["FLAG_-a"; "ARGUMENT_x"]
              [T "flag" "-a" [T "argument" "x" []]]
  /\ spells ["FLAG_-a"; NO_EXPAND] [T "flag" "-a" []].
Proof.
  split.
  - apply (open_below "FLAG_-a" "FLAG" "-a" [] ["ARGUMENT_x"] []
             [T "argument" "x" []]); [apply spells_nil|done|done|].
    apply (open_below "ARGUMENT_x" "ARGUMENT" "x" [] [] [] []);
      [apply spells_nil|done|done|].
    apply open_whole, spells_nil.
  - apply (spells_node "FLAG_-a" "FLAG" "-a" [] [] [] []);
      [done|done|apply spells_nil..].
Qed.
